(** * phonebook_bot.py: a shallow embedding and its verified properties

    The development follows the layout of [phonebook_bot.py]:

    - the fragments of the Python runtime the program leans on ([re],
      [datetime], [colorama], exceptions, [str] methods);
    - the field wrappers [Phone] and [Birthday], the class [Record], the
      class [AddressBook];
    - the decorator [input_error], the command handlers and the loop of
      [main];
    - the properties, one theorem per claim of the specification.

    Text is modelled by [string]: a sequence of characters with code points
    below 256.  On that range the class [\d] of Python's [re] is exactly
    the ten characters 0..9. *)

From Stdlib Require Import ZArith List Bool Ascii String DecimalString Lia.
Import ListNotations.

Local Open Scope string_scope.
Local Open Scope Z_scope.

(* ================================================================== *)
(** ** Characters and strings *)

Definition LF : ascii := "010"%char.
Definition ESC : ascii := "027"%char.

Definition code (c : ascii) : Z := Z.of_N (N_of_ascii c).

Definition is_digit (c : ascii) : bool :=
  (48 <=? code c) && (code c <=? 57).

Definition digit_value (c : ascii) : Z := code c - 48.

Definition digit_char (k : Z) : ascii := ascii_of_N (Z.to_N (48 + k)).

Definition in_range (lo hi : ascii) (c : ascii) : bool :=
  (code lo <=? code c) && (code c <=? code hi).

(** [str.isspace] on code points below 256. *)
Definition is_space (c : ascii) : bool :=
  let n := code c in
  ((9 <=? n) && (n <=? 13)) || ((28 <=? n) && (n <=? 32))
  || (n =? 133) || (n =? 160).

(** [str.lower] on code points below 256. *)
Definition lower_char (c : ascii) : ascii :=
  let n := code c in
  if ((65 <=? n) && (n <=? 90))
     || ((192 <=? n) && (n <=? 222) && negb (n =? 215))
  then ascii_of_N (Z.to_N (n + 32)) else c.

Fixpoint lower (s : string) : string :=
  match s with
  | EmptyString => EmptyString
  | String c s' => String (lower_char c) (lower s')
  end.

Definition nonempty (s : string) : bool :=
  match s with EmptyString => false | _ => true end.

(** [sep.join(parts)] *)
Fixpoint join (sep : string) (parts : list string) : string :=
  match parts with
  | [] => EmptyString
  | [p] => p
  | p :: rest => p ++ sep ++ join sep rest
  end.

(** [s.split()]: maximal runs of non-space characters, in order.  [cur] is
    the run being read, kept reversed. *)
Definition rev_string (s : string) : string :=
  string_of_list_ascii (rev (list_ascii_of_string s)).

Definition flush (cur : string) (acc : list string) : list string :=
  match cur with EmptyString => acc | _ => rev_string cur :: acc end.

Fixpoint split_loop (s cur : string) (acc : list string) : list string :=
  match s with
  | EmptyString => rev (flush cur acc)
  | String c s' =>
      if is_space c then split_loop s' EmptyString (flush cur acc)
      else split_loop s' (String c cur) acc
  end.

Definition split (s : string) : list string :=
  split_loop s EmptyString [].

(** [value % 10**width] written with [width] digits: the text produced by
    the conversions [%02d] and [%04d] for [0 <= value < 10**width]. *)
Fixpoint zpad (width : nat) (value : Z) : string :=
  match width with
  | O => EmptyString
  | S w => zpad w (value / 10) ++ String (digit_char (value mod 10)) EmptyString
  end.

(** A decimal number without its leading zeros (one digit at least
    stays). *)
Fixpoint drop_zeros (s : string) : string :=
  match s with
  | EmptyString => EmptyString
  | String c s' =>
      if Ascii.eqb c "0" && nonempty s' then drop_zeros s' else s
  end.

(** [repr(s)] of a [str] with code points below 256: the quote is the
    apostrophe, or the double quote when the text holds an apostrophe and
    no double quote; the backslash, the quote, line feed, carriage return
    and tab are escaped, and the other characters that are not printable
    are written in hexadecimal. *)
Definition DQUOTE : ascii := "034"%char.
Definition BACKSLASH : ascii := "092"%char.

Fixpoint contains_char (c : ascii) (s : string) : bool :=
  match s with
  | EmptyString => false
  | String c' s' => Ascii.eqb c' c || contains_char c s'
  end.

Definition hex_digit (k : Z) : ascii :=
  if k <? 10 then digit_char k else ascii_of_N (Z.to_N (87 + k)).

Definition is_printable (c : ascii) : bool :=
  let n := code c in
  ((32 <=? n) && (n <=? 126))
  || ((161 <=? n) && (n <=? 255) && negb (n =? 173)).

Definition repr_char (quote c : ascii) : string :=
  if Ascii.eqb c quote || Ascii.eqb c BACKSLASH
  then String BACKSLASH (String c EmptyString)
  else if Ascii.eqb c LF then String BACKSLASH "n"
  else if Ascii.eqb c "013" then String BACKSLASH "r"
  else if Ascii.eqb c "009" then String BACKSLASH "t"
  else if is_printable c then String c EmptyString
  else String BACKSLASH
         (String "x"
            (String (hex_digit (code c / 16))
               (String (hex_digit (code c mod 16)) EmptyString))).

Fixpoint repr_chars (quote : ascii) (s : string) : string :=
  match s with
  | EmptyString => EmptyString
  | String c s' => repr_char quote c ++ repr_chars quote s'
  end.

Definition py_repr (s : string) : string :=
  let quote :=
    if contains_char "'" s && negb (contains_char DQUOTE s)
    then DQUOTE else "'"%char in
  String quote (repr_chars quote s ++ String quote EmptyString).

(** [str(n)] for an integer. *)
Definition nat_str (n : nat) : string :=
  NilEmpty.string_of_uint (Nat.to_uint n).

Definition int_str (n : Z) : string :=
  if n <? 0 then "-" ++ nat_str (Z.to_nat (- n)) else nat_str (Z.to_nat n).

(* ================================================================== *)
(** ** Exceptions *)

Inductive exn_class :=
| KeyError | ValueError | IndexError | TypeError | OverflowError
| EOFError | KeyboardInterrupt.

(** [issubclass(c, Exception)]: [KeyboardInterrupt] derives from
    [BaseException] only. *)
Definition is_Exception (c : exn_class) : bool :=
  match c with KeyboardInterrupt => false | _ => true end.

Record exn := mk_exn { exn_cls : exn_class; exn_arg : string }.

(** [str(e)]; a [KeyError] renders the [repr] of its argument. *)
Definition exn_str (e : exn) : string :=
  match exn_cls e with
  | KeyError => "'" ++ exn_arg e ++ "'"
  | _ => exn_arg e
  end.

Inductive result (A : Type) :=
| Return (a : A)
| Raise (e : exn).
Arguments Return {A} a.
Arguments Raise {A} e.

Definition raised {A} (r : result A) : bool :=
  match r with Raise _ => true | Return _ => false end.

(* ================================================================== *)
(** ** [re]: the fragment used by the field wrappers

    A pattern is a sequence of atoms; none of them backtracks.  [Bol] is
    [^], [Eol] is [$] (without [re.MULTILINE]: the end of the text, or just
    before a line feed that ends the text), [Digit] is [\d], [Lit c] is an
    escaped literal. *)

Inductive atom := Bol | Eol | Digit | Lit (c : ascii).

Fixpoint re_match_at (pat : list atom) (pos : nat) (s : string) : bool :=
  match pat with
  | [] => true
  | Bol :: pat' => Nat.eqb pos 0 && re_match_at pat' pos s
  | Eol :: pat' =>
      match s with
      | EmptyString => re_match_at pat' pos s
      | String c EmptyString => Ascii.eqb c LF && re_match_at pat' pos s
      | _ => false
      end
  | Digit :: pat' =>
      match s with
      | String c s' => is_digit c && re_match_at pat' (S pos) s'
      | EmptyString => false
      end
  | Lit a :: pat' =>
      match s with
      | String c s' => Ascii.eqb c a && re_match_at pat' (S pos) s'
      | EmptyString => false
      end
  end.

(** [re.match(pat, s)] read as a truth value. *)
Definition re_match (pat : list atom) (s : string) : bool :=
  re_match_at pat 0%nat s.

(** [r'^\d{10}$'] *)
Definition phone_pattern : list atom :=
  Bol :: repeat Digit 10 ++ [Eol].

(** [r'^\d{2}\.\d{2}\.\d{4}$'] *)
Definition birthday_pattern : list atom :=
  Bol :: repeat Digit 2 ++ Lit "." :: repeat Digit 2 ++ Lit "."
      :: repeat Digit 4 ++ [Eol].

(* ================================================================== *)
(** ** [datetime]: dates of the proleptic Gregorian calendar

    The definitions follow the reference implementation of the module
    ([_is_leap], [_days_before_year], [_ymd2ord], [_ord2ymd], ...). *)

Module Datetime.

Record date := mk_date { year : Z; month : Z; day : Z }.

Definition MINYEAR : Z := 1.
Definition MAXYEAR : Z := 9999.
Definition MAXORDINAL : Z := 3652059.

Definition is_leap (y : Z) : bool :=
  (y mod 4 =? 0) && (negb (y mod 100 =? 0) || (y mod 400 =? 0)).

Definition days_before_year (y : Z) : Z :=
  let p := y - 1 in p * 365 + p / 4 - p / 100 + p / 400.

Definition DAYS_IN_MONTH (m : Z) : Z :=
  match m with
  | 1 => 31 | 2 => 28 | 3 => 31 | 4 => 30 | 5 => 31 | 6 => 30
  | 7 => 31 | 8 => 31 | 9 => 30 | 10 => 31 | 11 => 30 | 12 => 31
  | _ => -1
  end.

Definition DAYS_BEFORE_MONTH (m : Z) : Z :=
  match m with
  | 1 => 0 | 2 => 31 | 3 => 59 | 4 => 90 | 5 => 120 | 6 => 151
  | 7 => 181 | 8 => 212 | 9 => 243 | 10 => 273 | 11 => 304 | 12 => 334
  | _ => -1
  end.

Definition days_in_month (y m : Z) : Z :=
  if (m =? 2) && is_leap y then 29 else DAYS_IN_MONTH m.

Definition days_before_month (y m : Z) : Z :=
  DAYS_BEFORE_MONTH m + (if (2 <? m) && is_leap y then 1 else 0).

Definition ymd2ord (y m d : Z) : Z :=
  days_before_year y + days_before_month y m + d.

(** [_check_date_fields]: the first field out of range names the error. *)
Definition check_date_fields (y m d : Z) : result unit :=
  if negb ((MINYEAR <=? y) && (y <=? MAXYEAR))
  then Raise (mk_exn ValueError ("year " ++ int_str y ++ " is out of range"))
  else if negb ((1 <=? m) && (m <=? 12))
  then Raise (mk_exn ValueError "month must be in 1..12")
  else if negb ((1 <=? d) && (d <=? days_in_month y m))
  then Raise (mk_exn ValueError "day is out of range for month")
  else Return tt.

Definition valid (dt : date) : bool :=
  negb (raised (check_date_fields (year dt) (month dt) (day dt))).

(** [date(y, m, d)] *)
Definition new_date (y m d : Z) : result date :=
  match check_date_fields y m d with
  | Return _ => Return (mk_date y m d)
  | Raise e => Raise e
  end.

(** [dt.replace(year=y)] *)
Definition replace_year (dt : date) (y : Z) : result date :=
  new_date y (month dt) (day dt).

Definition toordinal (dt : date) : Z :=
  ymd2ord (year dt) (month dt) (day dt).

(** [_ord2ymd] *)
Definition ord2ymd (ordinal : Z) : date :=
  let n := ordinal - 1 in
  let n400 := n / 146097 in
  let n := n mod 146097 in
  let y := n400 * 400 + 1 in
  let n100 := n / 36524 in
  let n := n mod 36524 in
  let n4 := n / 1461 in
  let n := n mod 1461 in
  let n1 := n / 365 in
  let n := n mod 365 in
  let y := y + n100 * 100 + n4 * 4 + n1 in
  if (n1 =? 4) || (n100 =? 4) then mk_date (y - 1) 12 31
  else
    let leapyear := (n1 =? 3) && (negb (n4 =? 24) || (n100 =? 3)) in
    let m := Z.shiftr (n + 50) 5 in
    let preceding :=
      DAYS_BEFORE_MONTH m + (if (2 <? m) && leapyear then 1 else 0) in
    if n <? preceding then
      let m := m - 1 in
      let preceding :=
        preceding
        - (DAYS_IN_MONTH m + (if (m =? 2) && leapyear then 1 else 0)) in
      mk_date y m (n - preceding + 1)
    else mk_date y m (n - preceding + 1).

Definition fromordinal (n : Z) : date := ord2ymd n.

(** [dt.weekday()]: Monday is 0, Saturday 5, Sunday 6. *)
Definition weekday (dt : date) : Z := (toordinal dt + 6) mod 7.

(** [dt + timedelta(days=n)] *)
Definition add_days (dt : date) (n : Z) : result date :=
  let o := toordinal dt + n in
  if (0 <? o) && (o <=? MAXORDINAL) then Return (fromordinal o)
  else Raise (mk_exn OverflowError "date value out of range").

(** [(a - b).days] *)
Definition days_between (a b : date) : Z := toordinal a - toordinal b.

(** [a < b]: dates compare as the triples (year, month, day). *)
Definition lt (a b : date) : bool :=
  (year a <? year b)
  || ((year a =? year b)
      && ((month a <? month b)
          || ((month a =? month b) && (day a <? day b)))).

(** [dt.strftime("%d.%m.%Y")]: day and month with two digits; the year
    (1 to 9999) as the C library writes it for [%Y], in decimal without
    padding, so with fewer than four digits before the year 1000. *)
Definition strftime_dmY (dt : date) : string :=
  zpad 2 (day dt) ++ "." ++ zpad 2 (month dt) ++ "."
  ++ drop_zeros (zpad 4 (year dt)).

(** [str(dt)], that is [dt.isoformat()]: [%04d-%02d-%02d]. *)
Definition isoformat (dt : date) : string :=
  zpad 4 (year dt) ++ "-" ++ zpad 2 (month dt) ++ "-" ++ zpad 2 (day dt).

(** *** [strptime] for the format [%d.%m.%Y]

    [_strptime] turns the format into the regular expression
    [(3[0-1]|[1-2]\d|0[1-9]|[1-9]| [1-9])\.(1[0-2]|0[1-9]|[1-9])\.(\d\d\d\d)]
    and matches it at the start of the text, alternatives in order, the
    first one that lets the rest match winning. *)

Definition alt (A : Type) : Type := string -> option (A * string).

Fixpoint try_alts {A B : Type} (alts : list (alt A)) (s : string)
    (k : A -> string -> option B) : option B :=
  match alts with
  | [] => None
  | a :: more =>
      match a s with
      | Some (v, rest) =>
          match k v rest with
          | Some b => Some b
          | None => try_alts more s k
          end
      | None => try_alts more s k
      end
  end.

(** Two characters, the first in [l1..h1], the second in [l2..h2]. *)
Definition two (l1 h1 l2 h2 : ascii) : alt Z := fun s =>
  match s with
  | String a (String b rest) =>
      if in_range l1 h1 a && in_range l2 h2 b
      then Some (10 * digit_value a + digit_value b, rest) else None
  | _ => None
  end.

Definition one (l h : ascii) : alt Z := fun s =>
  match s with
  | String a rest =>
      if in_range l h a then Some (digit_value a, rest) else None
  | _ => None
  end.

Definition space_one (l h : ascii) : alt Z := fun s =>
  match s with
  | String a (String b rest) =>
      if Ascii.eqb a " " && in_range l h b
      then Some (digit_value b, rest) else None
  | _ => None
  end.

Definition day_alts : list (alt Z) :=
  [ two "3" "3" "0" "1"; two "1" "2" "0" "9"; two "0" "0" "1" "9";
    one "1" "9"; space_one "1" "9" ].

Definition month_alts : list (alt Z) :=
  [ two "1" "1" "0" "2"; two "0" "0" "1" "9"; one "1" "9" ].

Definition dot {B : Type} (s : string) (k : string -> option B) : option B :=
  match s with
  | String c rest => if Ascii.eqb c "." then k rest else None
  | EmptyString => None
  end.

Definition match_Y (s : string) : option (Z * string) :=
  match s with
  | String a (String b (String c (String d rest))) =>
      if is_digit a && is_digit b && is_digit c && is_digit d
      then Some (1000 * digit_value a + 100 * digit_value b
                 + 10 * digit_value c + digit_value d, rest)
      else None
  | _ => None
  end.

Definition match_mY (s : string) : option (Z * Z * string) :=
  try_alts month_alts s (fun m r =>
    dot r (fun r' =>
      match match_Y r' with
      | Some (y, rest) => Some (m, y, rest)
      | None => None
      end)).

Definition match_dmY (s : string) : option (Z * Z * Z * string) :=
  try_alts day_alts s (fun d r =>
    dot r (fun r' =>
      match match_mY r' with
      | Some (m, y, rest) => Some (d, m, y, rest)
      | None => None
      end)).

(** [datetime.strptime(s, "%d.%m.%Y").date()] for a [str] argument. *)
Definition strptime_dmY (s : string) : result date :=
  match match_dmY s with
  | None =>
      Raise (mk_exn ValueError
               ("time data " ++ py_repr s
                ++ " does not match format '%d.%m.%Y'"))
  | Some (d, m, y, rest) =>
      if nonempty rest
      then Raise (mk_exn ValueError ("unconverted data remains: " ++ rest))
      else new_date y m d
  end.

End Datetime.

(* ================================================================== *)
(** ** [colorama.Fore] *)

Module Fore.
Definition GREEN : string := String ESC "[32m".
Definition RED : string := String ESC "[31m".
Definition YELLOW : string := String ESC "[33m".
Definition RESET : string := String ESC "[39m".
End Fore.

(* ================================================================== *)
(** ** Field wrappers

    A [Phone] object has an identity ([phone_id], what [is] and the
    default [==] compare) and a [value].  The identity is handed out by
    the allocator; [Phone_init oid value] is [Phone(value)] run on the
    object [oid]. *)

Record Phone := mk_Phone { phone_id : nat; phone_value : string }.

Definition Phone_init (oid : nat) (value : string) : result Phone :=
  if re_match phone_pattern value
  then Return (mk_Phone oid value)
  else Raise (mk_exn ValueError
                "Invalid phone number. The number must consist of 10 digits.").

(** [Field.__str__] on a [Phone]: [str(self.value)]. *)
Definition Phone_str (p : Phone) : string := phone_value p.

Record Birthday := mk_Birthday { birthday_value : Datetime.date }.

Definition Birthday_init (value : string) : result Birthday :=
  if re_match birthday_pattern value then
    match Datetime.strptime_dmY value with
    | Return birthday => Return (mk_Birthday birthday)
    | Raise _ =>
        Raise (mk_exn ValueError "Invalid date format. Ensure it exist.")
    end
  else
    Raise (mk_exn ValueError
             "Invalid date format. Use the 'DD.MM.YYYY' format.").

(** [Field.__str__] on a [Birthday]: [str] of the [date] it holds. *)
Definition Birthday_str (b : Birthday) : string :=
  Datetime.isoformat (birthday_value b).

(** What the attribute [name] of a record holds: a [str] (the handlers
    pass one) or a [Name] field. *)
Inductive name_val :=
| NStr (s : string)
| NName (value : string).

Definition name_str (n : name_val) : string :=
  match n with NStr s => s | NName value => value end.

(** What the attribute [birthday] of a record holds: [None], a [str] (the
    handler [add_birthday] passes one) or a [Birthday] field. *)
Inductive birthday_val :=
| BNone
| BStr (s : string)
| BField (b : Birthday).

Definition birthday_str (b : birthday_val) : string :=
  match b with
  | BNone => "None"
  | BStr s => s
  | BField f => Birthday_str f
  end.

(** Truth value: [None] and the empty [str] are false, an instance of a
    class without [__bool__] and [__len__] is true. *)
Definition birthday_truthy (b : birthday_val) : bool :=
  match b with
  | BNone => false
  | BStr s => nonempty s
  | BField _ => true
  end.

(** The argument of [find_phone] and [remove_phone]: a [Phone] object or
    a [str]. *)
Inductive phone_arg :=
| ArgPhone (p : Phone)
| ArgStr (s : string).

Definition phone_arg_str (a : phone_arg) : string :=
  match a with ArgPhone p => Phone_str p | ArgStr s => s end.

(** [p == x] for a [Phone] [p]: the class defines no [__eq__], so the
    comparison is identity; a [str] is never the same object. *)
Definition Phone_eq (p : Phone) (x : phone_arg) : bool :=
  match x with
  | ArgPhone q => Nat.eqb (phone_id p) (phone_id q)
  | ArgStr _ => false
  end.

(** [p in l] *)
Definition Phone_in (p : Phone) (l : list Phone) : bool :=
  existsb (fun x => Phone_eq x (ArgPhone p)) l.

(* ================================================================== *)
(** ** [class Record] *)

Record ContactRecord := mk_Record {
  name : name_val;
  phones : list Phone;
  birthday : birthday_val
}.

Definition Record_init (n : name_val) : ContactRecord :=
  mk_Record n [] BNone.

Definition set_phones (r : ContactRecord) (l : list Phone) : ContactRecord :=
  mk_Record (name r) l (birthday r).

Definition set_birthday (r : ContactRecord) (b : birthday_val)
  : ContactRecord :=
  mk_Record (name r) (phones r) b.

Definition Record_str (r : ContactRecord) : string :=
  let phones_s := join "; " (map Phone_str (phones r)) in
  let birthday_s :=
    if birthday_truthy (birthday r)
    then ", birthday: " ++ birthday_str (birthday r) else EmptyString in
  "Contact name: " ++ name_str (name r) ++ ", phones: " ++ phones_s
  ++ birthday_s.

Definition Record_add_phone (phone : Phone) (r : ContactRecord)
  : string * ContactRecord :=
  ("Phone " ++ Phone_str phone ++ " added to contact " ++ name_str (name r),
   set_phones r (phones r ++ [phone])).

Definition Record_remove_phone (phone : phone_arg) (r : ContactRecord)
  : string * ContactRecord :=
  ("Phone " ++ phone_arg_str phone ++ " deleted",
   set_phones r (filter (fun p => Phone_eq p phone) (phones r))).

(** [l[index] = x] for an index in range. *)
Fixpoint list_set {A : Type} (index : nat) (x : A) (l : list A) : list A :=
  match l, index with
  | [], _ => []
  | _ :: t, O => x :: t
  | h :: t, S i => h :: list_set i x t
  end.

(** The loop of [edit_phone] from position [index] on; [rest] is what
    [enumerate] has still to yield. *)
Fixpoint edit_phone_from (oid : nat) (old_phone new_phone : string)
    (index : nat) (rest : list Phone) (r : ContactRecord)
  : result string * ContactRecord :=
  match rest with
  | [] => (Return ("Phone " ++ old_phone ++ " not found"), r)
  | phone :: rest' =>
      if String.eqb (phone_value phone) old_phone then
        match Phone_init oid new_phone with
        | Return p =>
            (Return ("Phone " ++ old_phone ++ " changed to " ++ new_phone),
             set_phones r (list_set index p (phones r)))
        | Raise e => (Raise e, r)
        end
      else edit_phone_from oid old_phone new_phone (S index) rest' r
  end.

Definition Record_edit_phone (oid : nat) (old_phone new_phone : string)
    (r : ContactRecord) : result string * ContactRecord :=
  edit_phone_from oid old_phone new_phone 0%nat (phones r) r.

(** What [find_phone] returns: a stored phone, the message of its [elif]
    branch, or [None] when the loop runs to its end. *)
Inductive find_result :=
| Found (p : Phone)
| NotFoundText (s : string)
| FoundNone.

Fixpoint find_phone_from (all rest : list Phone) (phone : phone_arg)
  : find_result :=
  match rest with
  | [] => FoundNone
  | p :: rest' =>
      if Phone_eq p phone then Found p
      else if negb (Phone_in p all)
      then NotFoundText ("Phone " ++ phone_arg_str phone ++ " not found")
      else find_phone_from all rest' phone
  end.

Definition Record_find_phone (phone : phone_arg) (r : ContactRecord)
  : find_result :=
  find_phone_from (phones r) (phones r) phone.

Definition Record_add_birthday (b : birthday_val) (r : ContactRecord)
  : string * ContactRecord :=
  (name_str (name r) ++ "'s birthday on " ++ birthday_str b ++ " added",
   set_birthday r b).

(* ================================================================== *)
(** ** [class AddressBook(UserDict)]

    [self.data] is a [dict]: keys are unique and iteration follows the
    order of first insertion.  It is modelled by the list of its items in
    that order. *)

Definition AddressBook := list (string * ContactRecord).

Fixpoint dict_get (k : string) (d : AddressBook) : option ContactRecord :=
  match d with
  | [] => None
  | (k', v) :: rest => if String.eqb k' k then Some v else dict_get k rest
  end.

(** [d[k] = v]: an existing key keeps its place, a new one goes last. *)
Fixpoint dict_set (k : string) (v : ContactRecord) (d : AddressBook)
  : AddressBook :=
  match d with
  | [] => [(k, v)]
  | (k', v') :: rest =>
      if String.eqb k' k then (k', v) :: rest
      else (k', v') :: dict_set k v rest
  end.

(** [del d[k]] for a key of [d]. *)
Fixpoint dict_del (k : string) (d : AddressBook) : AddressBook :=
  match d with
  | [] => []
  | (k', v') :: rest =>
      if String.eqb k' k then rest else (k', v') :: dict_del k rest
  end.

Definition dict_contains (k : string) (d : AddressBook) : bool :=
  match dict_get k d with Some _ => true | None => false end.

Definition dict_values (d : AddressBook) : list ContactRecord :=
  map snd d.

Definition AddressBook_add_record (record : ContactRecord)
    (book : AddressBook) : string * AddressBook :=
  ("Contact " ++ name_str (name record) ++ " added to address book",
   dict_set (name_str (name record)) record book).

Definition AddressBook_find (n : string) (book : AddressBook)
  : option ContactRecord :=
  dict_get n book.

Definition AddressBook_delete (n : string) (book : AddressBook)
  : string * AddressBook :=
  if dict_contains n book
  then ("Contact " ++ n ++ " deleted", dict_del n book)
  else ("Contact " ++ n ++ " not found", book).

(** Sequencing of computations that may raise. *)
Definition rbind {A B : Type} (r : result A) (k : A -> result B)
  : result B :=
  match r with
  | Return a => k a
  | Raise e => Raise e
  end.

Notation "'let*' x ':=' r 'in' k" := (rbind r (fun x => k))
  (at level 10, x name, r at level 100, k at level 200).

(** [datetime.strptime(v, "%d.%m.%Y").date()] on what the attribute
    [birthday] holds: the first argument must be a [str]. *)
Definition strptime_birthday (v : birthday_val) : result Datetime.date :=
  match v with
  | BStr s => Datetime.strptime_dmY s
  | BField _ =>
      Raise (mk_exn TypeError
               "strptime() argument 1 must be str, not Birthday")
  | BNone =>
      Raise (mk_exn TypeError
               "strptime() argument 1 must be str, not NoneType")
  end.

(** One entry of [congrats_list]: the dictionary [{name: text}]. *)
Definition congrats := (name_val * string)%type.

(** The body of the [for] loop of [get_upcoming_birthdays] for one
    [contact]; [congrats_list] is the list built so far. *)
Definition upcoming_step (today : Datetime.date)
    (congrats_list : list congrats) (contact : ContactRecord)
  : result (list congrats) :=
  if birthday_truthy (birthday contact) then
    let* bd := strptime_birthday (birthday contact) in
    let* birthday_this_year := Datetime.replace_year bd (Datetime.year today) in
    let* birthday_this_year :=
      (if Datetime.lt birthday_this_year today
       then Datetime.replace_year bd (Datetime.year today + 1)
       else Return birthday_this_year) in
    let days_until_birthday :=
      Datetime.days_between birthday_this_year today in
    if (0 <=? days_until_birthday) && (days_until_birthday <=? 7) then
      let* birthday_this_year :=
        (if Datetime.weekday birthday_this_year =? 5
         then Datetime.add_days birthday_this_year 2
         else if Datetime.weekday birthday_this_year =? 6
         then Datetime.add_days birthday_this_year 1
         else Return birthday_this_year) in
      Return (congrats_list
              ++ [(name contact,
                   Datetime.strftime_dmY birthday_this_year)])%list
    else Return congrats_list
  else Return congrats_list.

Fixpoint upcoming_loop (today : Datetime.date)
    (congrats_list : list congrats) (contacts : list ContactRecord)
  : result (list congrats) :=
  match contacts with
  | [] => Return congrats_list
  | contact :: rest =>
      let* congrats_list := upcoming_step today congrats_list contact in
      upcoming_loop today congrats_list rest
  end.

(** [today] is what [datetime.now().date()] returns at the call.  The
    result is [None] when [congrats_list] is empty. *)
Definition AddressBook_get_upcoming_birthdays (today : Datetime.date)
    (book : AddressBook) : result (option (list congrats)) :=
  let* congrats_list := upcoming_loop today [] (dict_values book) in
  if (0 <? Z.of_nat (List.length congrats_list))
  then Return (Some congrats_list) else Return None.

(* ================================================================== *)
(** ** The state of the process and the monad of the handlers

    A handler reads and mutates the address book and may allocate [Phone]
    objects; it ends by returning or by raising, and what it mutated
    before raising stays mutated. *)

Record World := mk_World { book : AddressBook; next_id : nat }.

Definition M (A : Type) : Type := World -> result A * World.

Definition ret {A : Type} (a : A) : M A := fun w => (Return a, w).

Definition throw {A : Type} (e : exn) : M A := fun w => (Raise e, w).

Definition bind {A B : Type} (m : M A) (k : A -> M B) : M B := fun w =>
  match m w with
  | (Return a, w') => k a w'
  | (Raise e, w') => (Raise e, w')
  end.

Notation "x <- m ;; k" := (bind m (fun x => k))
  (at level 61, m at next level, right associativity).
Notation "' pat <- m ;; k" :=
  (bind m (fun x => match x with pat => k end))
  (at level 61, pat pattern, m at next level, right associativity).

Definition lift {A : Type} (r : result A) : M A := fun w => (r, w).

Definition get_book : M AddressBook := fun w => (Return (book w), w).

Definition put_book (b : AddressBook) : M unit := fun w =>
  (Return tt, mk_World b (next_id w)).

(** The identity of the next object to be allocated. *)
Definition fresh : M nat := fun w =>
  (Return (next_id w), mk_World (book w) (S (next_id w))).

(** [Phone(value)] *)
Definition new_Phone (value : string) : M Phone :=
  oid <- fresh ;; lift (Phone_init oid value).

(** [book.find(n)] *)
Definition find (n : string) : M (option ContactRecord) :=
  b <- get_book ;; ret (AddressBook_find n b).

(** [book.add_record(record)] *)
Definition add_record (record : ContactRecord) : M string :=
  b <- get_book ;;
  let '(text, b') := AddressBook_add_record record b in
  _ <- put_book b' ;; ret text.

(** A method call on the record object [record] that the book holds under
    [key]: the object is mutated in place, so the book sees the change. *)
Definition on_record {A : Type} (key : string) (record : ContactRecord)
    (method : ContactRecord -> A * ContactRecord) : M A :=
  let '(a, record') := method record in
  b <- get_book ;; _ <- put_book (dict_set key record' b) ;; ret a.

(** What a decorated handler returns: a text, or the exception object
    that [input_error] caught and returned. *)
Inductive value :=
| VStr (s : string)
| VExn (e : exn).

(** [str(v)], what [print(v)] writes. *)
Definition value_str (v : value) : string :=
  match v with VStr s => s | VExn e => exn_str e end.

(** The decorator: the [except] clauses in their order. *)
Definition input_error (func : M value) : M value := fun w =>
  match func w with
  | (Return v, w') => (Return v, w')
  | (Raise e, w') =>
      match exn_cls e with
      | KeyError => (Return (VExn e), w')
      | ValueError => (Return (VExn e), w')
      | IndexError => (Return (VExn e), w')
      | c =>
          if is_Exception c
          then (Return (VStr ("An unexpected error occurred: " ++ exn_str e
                              ++ ". Please try again.")), w')
          else (Raise e, w')
      end
  end.

Definition colored_output (phrase : string) : string :=
  Fore.GREEN ++ phrase ++ Fore.RESET.

Definition colored_error (phrase : string) : string :=
  Fore.RED ++ phrase ++ Fore.RESET.

Definition colored_info (phrase : string) : string :=
  Fore.YELLOW ++ phrase ++ Fore.RESET.

(** [a, b = args] *)
Definition unpack2 (args : list string) : result (string * string) :=
  match args with
  | [a; b] => Return (a, b)
  | _ :: _ :: _ :: _ =>
      Raise (mk_exn ValueError "too many values to unpack (expected 2)")
  | _ =>
      Raise (mk_exn ValueError
               ("not enough values to unpack (expected 2, got "
                ++ nat_str (List.length args) ++ ")"))
  end.

(** [a, b, c = args] *)
Definition unpack3 (args : list string)
  : result (string * string * string) :=
  match args with
  | [a; b; c] => Return (a, b, c)
  | _ :: _ :: _ :: _ :: _ =>
      Raise (mk_exn ValueError "too many values to unpack (expected 3)")
  | _ =>
      Raise (mk_exn ValueError
               ("not enough values to unpack (expected 3, got "
                ++ nat_str (List.length args) ++ ")"))
  end.

(** [a, *_ = args] *)
Definition unpack_first (args : list string) : result string :=
  match args with
  | a :: _ => Return a
  | [] =>
      Raise (mk_exn ValueError
               "not enough values to unpack (expected at least 1, got 0)")
  end.

(* ================================================================== *)
(** ** The command handlers

    Each handler is [input_error] applied to its body. *)

Definition add_contact_body (args : list string) : M value :=
  '(n, phone) <- lift (unpack2 args) ;;
  found <- find n ;;
  '(record, message) <-
    match found with
    | None =>
        let record := Record_init (NStr n) in
        _ <- add_record record ;;
        ret (record,
             colored_output ("Contact " ++ name_str (name record)
                             ++ " added to address book."))
    | Some record =>
        ret (record,
             colored_output ("Contact " ++ name_str (name record)
                             ++ " updated."))
    end ;;
  _ <- (if nonempty phone
        then p <- new_Phone phone ;;
             _ <- on_record n record (Record_add_phone p) ;; ret tt
        else ret tt) ;;
  ret (VStr message).

Definition add_contact (args : list string) : M value :=
  input_error (add_contact_body args).

Definition change_contact_body (args : list string) : M value :=
  '(n, old_phone, new_phone) <- lift (unpack3 args) ;;
  found <- find n ;;
  match found with
  | None =>
      throw (mk_exn IndexError
               (colored_error ("Contact '" ++ n
                               ++ "' not found. Use 'add' to create it.")))
  | Some record =>
      oid <- fresh ;;
      r <- on_record n record (Record_edit_phone oid old_phone new_phone) ;;
      text <- lift r ;;
      ret (VStr (colored_output text))
  end.

Definition change_contact (args : list string) : M value :=
  input_error (change_contact_body args).

Definition show_phone_body (args : list string) : M value :=
  match args with
  | [] =>
      throw (mk_exn ValueError (colored_error "No contact name provided."))
  | n :: _ =>
      found <- find n ;;
      match found with
      | Some record =>
          let phones_s := join "; " (map Phone_str (phones record)) in
          ret (VStr (colored_output
                       ("Contact '" ++ n ++ "' phones: " ++ phones_s)))
      | None =>
          throw (mk_exn IndexError
                   (colored_error ("Contact '" ++ n ++ "' not found.")))
      end
  end.

Definition show_phone (args : list string) : M value :=
  input_error (show_phone_body args).

Definition show_all_body : M value :=
  b <- get_book ;;
  match b with
  | [] => throw (mk_exn ValueError (colored_error "No contacts available."))
  | _ =>
      ret (VStr (colored_output
                   (join (String LF EmptyString)
                         (map Record_str (dict_values b)))))
  end.

Definition show_all : M value := input_error show_all_body.

Definition add_birthday_body (args : list string) : M value :=
  '(n, b) <- lift (unpack2 args) ;;
  found <- find n ;;
  match found with
  | None =>
      throw (mk_exn IndexError
               (colored_error ("Contact '" ++ n
                               ++ "' not found. Use 'add' to create it.")))
  | Some record =>
      text <- on_record n record (Record_add_birthday (BStr b)) ;;
      ret (VStr (colored_output text))
  end.

Definition add_birthday (args : list string) : M value :=
  input_error (add_birthday_body args).

Definition show_birthday_body (args : list string) : M value :=
  n <- lift (unpack_first args) ;;
  found <- find n ;;
  match found with
  | None =>
      throw (mk_exn IndexError
               (colored_error ("Contact '" ++ n
                               ++ "' not found. Use 'add' to create it.")))
  | Some record =>
      ret (VStr (colored_output
                   (name_str (name record) ++ " has Birthday on "
                    ++ birthday_str (birthday record))))
  end.

Definition show_birthday (args : list string) : M value :=
  input_error (show_birthday_body args).

Definition format_congrats (c : congrats) : string :=
  name_str (fst c) ++ ": " ++ snd c.

Definition show_all_birthdays_body (today : Datetime.date) : M value :=
  b <- get_book ;;
  match b with
  | [] => throw (mk_exn ValueError (colored_error "No contacts available."))
  | _ =>
      upcoming <- lift (AddressBook_get_upcoming_birthdays today b) ;;
      match upcoming with
      | None => ret (VStr (colored_output "No birthdays soon."))
      | Some l =>
          ret (VStr (colored_output
                       (join (String LF EmptyString)
                             (map format_congrats l))))
      end
  end.

Definition show_all_birthdays (today : Datetime.date) : M value :=
  input_error (show_all_birthdays_body today).

Definition show_info : string :=
  colored_info
    ("Available commands:" ++ String LF EmptyString
     ++ join (String LF EmptyString)
     [ colored_output "add <name> <phone>" ++ ": adds a new contact with the name and phone number, or adds a phone number to an existing contact (e.g., add John 123456789)";
       colored_output "change <name> <old phone> <new phone>" ++ ": changes the phone number of an existing contact (e.g., change John 123456789 987654321)";
       colored_output "phone <name>" ++ ": shows the phone number(s) of the specified contact (e.g., phone John)";
       colored_output "all" ++ ": shows all contacts in your address book";
       colored_output "add-birthday <name> <birthday>" ++ ": adds a birthday for the specified contact (e.g., add-birthday John 01.01.1990)";
       colored_output "show-birthday <name>" ++ ": shows the birthday of the specified contact (e.g., show-birthday John)";
       colored_output "birthdays" ++ ": shows upcoming birthdays within the next week";
       colored_output "hello" ++ ": receive a greeting from the bot";
       colored_output "info" ++ ": displays the list of available commands";
       colored_output "close or exit" ++ ": exits the application" ]).

(* ================================================================== *)
(** ** [parse_input] and the loop of [main] *)

Fixpoint lstrip (s : string) : string :=
  match s with
  | String c s' => if is_space c then lstrip s' else s
  | EmptyString => EmptyString
  end.

(** [s.strip()] *)
Definition strip (s : string) : string :=
  rev_string (lstrip (rev_string (lstrip s))).

(** What [parse_input] returns: the pair [(None, [])], or the tuple of the
    command and its arguments. *)
Inductive parsed :=
| Blank
| Tokens (cmd : string) (args : list string).

Definition parse_input (user_input : string) : result parsed :=
  if negb (nonempty (strip user_input)) then Return Blank
  else
    match split user_input with
    | cmd :: args => Return (Tokens (lower (strip cmd)) args)
    | [] =>
        Raise (mk_exn ValueError
                 "not enough values to unpack (expected at least 1, got 0)")
    end.

Inductive control := Continue | Break.

(** One turn of the [while True] loop on the line [user_input]; [today]
    is the date of the clock during the turn.  Every branch prints one
    text. *)
Definition main_turn (today : Datetime.date) (user_input : string)
  : M (control * string) :=
  p <- lift (parse_input user_input) ;;
  match p with
  | Blank => ret (Continue, colored_error "Invalid command.")
  | Tokens command args =>
      if String.eqb command "close" || String.eqb command "exit"
      then ret (Break, colored_info ("Good bye!" ++ Fore.RESET))
      else if String.eqb command "hello"
      then ret (Continue, colored_info ("How can I help you?" ++ Fore.RESET))
      else if String.eqb command "info"
      then ret (Continue, show_info)
      else if String.eqb command "add"
      then v <- add_contact args ;; ret (Continue, value_str v)
      else if String.eqb command "change"
      then v <- change_contact args ;; ret (Continue, value_str v)
      else if String.eqb command "phone"
      then v <- show_phone args ;; ret (Continue, value_str v)
      else if String.eqb command "all"
      then v <- show_all ;; ret (Continue, value_str v)
      else if String.eqb command "add-birthday"
      then v <- add_birthday args ;; ret (Continue, value_str v)
      else if String.eqb command "show-birthday"
      then v <- show_birthday args ;; ret (Continue, value_str v)
      else if String.eqb command "birthdays"
      then v <- show_all_birthdays today ;; ret (Continue, value_str v)
      else ret (Continue, colored_error "Invalid command.")
  end.

(** A line that [input()] returns at a turn, and the date of the clock
    then. *)
Record event := mk_event { ev_today : Datetime.date; ev_line : string }.

(** How the run of the loop over the lines of the input ends: left
    through [break] with the book saved, or stopped by an exception that
    nothing catches; [w] is then the state at that moment, which is not
    saved. *)
Inductive run :=
| Finished (saved : AddressBook) (out : list string)
| Crashed (e : exn) (w : World) (out : list string).

(** [input("Enter a command: ")] when the input has no further line: the
    call raises [EOFError], and the loop has no handler around it. *)
Definition input_at_end : exn :=
  mk_exn EOFError "EOF when reading a line".

(** The [while True] loop; [events] are the lines the input holds, in
    their order. *)
Fixpoint main_loop (events : list event) (w : World) (out : list string)
  : run :=
  match events with
  | [] => Crashed input_at_end w out
  | ev :: rest =>
      match main_turn (ev_today ev) (ev_line ev) w with
      | (Return (Break, text), w') => Finished (book w') (out ++ [text])%list
      | (Return (Continue, text), w') =>
          main_loop rest w' (out ++ [text])%list
      | (Raise e, w') => Crashed e w' out
      end
  end.

(** [main()], [loaded] being what [load_data()] returned. *)
Definition main (loaded : World) (events : list event) : run :=
  main_loop events loaded ["Welcome to the assistant bot!"].

(* ================================================================== *)
(** ** The specification's wording of the operations

    These definitions follow the text of the specification, not the code;
    the theorems below compare the two. *)

Definition digits : list ascii :=
  ["0"; "1"; "2"; "3"; "4"; "5"; "6"; "7"; "8"; "9"]%char.

(** A string of exactly ten decimal digits. *)
Fixpoint all_digits (s : string) : bool :=
  match s with
  | EmptyString => true
  | String c s' => is_digit c && all_digits s'
  end.

Definition ten_digits (s : string) : bool :=
  Nat.eqb (String.length s) 10 && all_digits s.

(** A text of the shape DD.MM.YYYY, read as day, month and year. *)
Definition dmy_fields (s : string) : option (Z * Z * Z) :=
  match s with
  | String d1 (String d2 (String p1 (String m1 (String m2 (String p2
      (String y1 (String y2 (String y3 (String y4 EmptyString))))))))) =>
      if is_digit d1 && is_digit d2 && Ascii.eqb p1 "."
         && is_digit m1 && is_digit m2 && Ascii.eqb p2 "."
         && is_digit y1 && is_digit y2 && is_digit y3 && is_digit y4
      then Some (10 * digit_value d1 + digit_value d2,
                 10 * digit_value m1 + digit_value m2,
                 1000 * digit_value y1 + 100 * digit_value y2
                 + 10 * digit_value y3 + digit_value y4)
      else None
  | _ => None
  end.

(** The text DD.MM.YYYY built from its ten characters, [rest] after
    them. *)
Definition dmy_text (d1 d2 m1 m2 y1 y2 y3 y4 : ascii) (rest : string)
  : string :=
  String d1 (String d2 (String "." (String m1 (String m2 (String "."
    (String y1 (String y2 (String y3 (String y4 rest))))))))).

(** The characters of a text DD.MM.YYYY rearranged as YYYY-MM-DD. *)
Definition iso_of_dmy (s : string) : string :=
  match s with
  | String d1 (String d2 (String _ (String m1 (String m2 (String _
      (String y1 (String y2 (String y3 (String y4 EmptyString))))))))) =>
      String y1 (String y2 (String y3 (String y4 (String "-"
        (String m1 (String m2 (String "-"
          (String d1 (String d2 EmptyString)))))))))
  | _ => EmptyString
  end.

(** The date a birthday that is set stands for. *)
Definition birthday_date (v : birthday_val) : option Datetime.date :=
  match v with
  | BNone => None
  | BStr s =>
      match Datetime.strptime_dmY s with
      | Return d => Some d
      | Raise _ => None
      end
  | BField b => Some (birthday_value b)
  end.

(** [a] is on or after [b]. *)
Definition on_or_after (a b : Datetime.date) : bool := negb (Datetime.lt a b).

(** The next occurrence of the month and day of [bd] on or after [today]:
    the years from [y] on are tried in turn. *)
Fixpoint next_occurrence_from (fuel : nat) (y : Z)
    (today bd : Datetime.date) : option Datetime.date :=
  match fuel with
  | O => None
  | S fuel' =>
      let occ := Datetime.mk_date y (Datetime.month bd) (Datetime.day bd) in
      if Datetime.valid occ && on_or_after occ today then Some occ
      else next_occurrence_from fuel' (y + 1) today bd
  end.

(** A month and day come back within eight years. *)
Definition next_occurrence (today bd : Datetime.date)
  : option Datetime.date :=
  next_occurrence_from 9 (Datetime.year today) today bd.

(** Saturday moves two days forward, Sunday one. *)
Definition weekend_shift (occ : Datetime.date) : Datetime.date :=
  if Datetime.weekday occ =? 5
  then Datetime.fromordinal (Datetime.toordinal occ + 2)
  else if Datetime.weekday occ =? 6
  then Datetime.fromordinal (Datetime.toordinal occ + 1)
  else occ.

Definition claimed_entry (today : Datetime.date) (c : ContactRecord)
  : option congrats :=
  match birthday_date (birthday c) with
  | None => None
  | Some bd =>
      match next_occurrence today bd with
      | None => None
      | Some occ =>
          let days := Datetime.days_between occ today in
          if (0 <=? days) && (days <=? 7)
          then Some (name c, Datetime.strftime_dmY (weekend_shift occ))
          else None
      end
  end.

(** What one contact adds to the result. *)
Definition entry_list (e : option congrats) : list congrats :=
  match e with Some c => [c] | None => [] end.

Fixpoint claimed_upcoming (today : Datetime.date)
    (contacts : list ContactRecord) : list congrats :=
  match contacts with
  | [] => []
  | c :: rest =>
      match claimed_entry today c with
      | Some e => e :: claimed_upcoming today rest
      | None => claimed_upcoming today rest
      end
  end.

(** The month and day of [bd] exist in the year [y]. *)
Definition occurs_in (y : Z) (bd : Datetime.date) : bool :=
  Datetime.valid (Datetime.mk_date y (Datetime.month bd) (Datetime.day bd)).

(** A birthday the loop of [get_upcoming_birthdays] can work with: unset,
    or a text that [strptime] reads and whose month and day exist in the
    year the loop looks at (the year of [today], and the next one when
    this year's day is before [today]). *)
Definition birthday_usable (today : Datetime.date) (v : birthday_val)
  : bool :=
  match v with
  | BNone => true
  | BField _ => false
  | BStr s =>
      if nonempty s then
        match Datetime.strptime_dmY s with
        | Raise _ => false
        | Return bd =>
            occurs_in (Datetime.year today) bd
            && (if Datetime.lt
                     (Datetime.mk_date (Datetime.year today)
                        (Datetime.month bd) (Datetime.day bd)) today
                then occurs_in (Datetime.year today + 1) bd else true)
        end
      else true
  end.

Definition usable_book (today : Datetime.date) (b : AddressBook) : bool :=
  forallb (fun c => birthday_usable today (birthday c)) (dict_values b).

(** The 29th of February. *)
Definition leap_day (bd : Datetime.date) : bool :=
  (Datetime.month bd =? 2) && (Datetime.day bd =? 29).

(** A birthday that is unset, or a text that reads as a date of the
    calendar other than a 29th of February. *)
Definition birthday_plain (v : birthday_val) : bool :=
  match v with
  | BNone => true
  | BField _ => false
  | BStr s =>
      if nonempty s then
        match Datetime.strptime_dmY s with
        | Raise _ => false
        | Return bd => negb (leap_day bd)
        end
      else true
  end.

(** The states of the address book that the operations produce from the
    empty book. *)
Inductive reachable : World -> Prop :=
| reach_empty : forall n, reachable (mk_World [] n)
| reach_add_record : forall w record,
    reachable w ->
    reachable (mk_World (snd (AddressBook_add_record record (book w)))
                        (next_id w))
| reach_delete : forall w n,
    reachable w ->
    reachable (mk_World (snd (AddressBook_delete n (book w))) (next_id w))
| reach_add_contact : forall w args,
    reachable w -> reachable (snd (add_contact args w))
| reach_change_contact : forall w args,
    reachable w -> reachable (snd (change_contact args w))
| reach_show_phone : forall w args,
    reachable w -> reachable (snd (show_phone args w))
| reach_show_all : forall w,
    reachable w -> reachable (snd (show_all w))
| reach_add_birthday : forall w args,
    reachable w -> reachable (snd (add_birthday args w))
| reach_show_birthday : forall w args,
    reachable w -> reachable (snd (show_birthday args w))
| reach_show_all_birthdays : forall w today,
    reachable w -> reachable (snd (show_all_birthdays today w)).

(** Every record of the book is stored under the text of its name. *)
Definition keys_match (b : AddressBook) : Prop :=
  forall k r, In (k, r) b -> name_str (name r) = k.

(** The line makes [main] leave its loop: its command is [close] or
    [exit]. *)
Definition is_exit_line (line : string) : bool :=
  match parse_input line with
  | Return (Tokens command _) =>
      String.eqb command "close" || String.eqb command "exit"
  | _ => false
  end.

(** A result that, if it is an exception, is one of a class deriving from
    [Exception]. *)
Definition ordinary {A : Type} (r : result A) : Prop :=
  forall e, r = Raise e -> is_Exception (exn_cls e) = true.

(* ================================================================== *)
(** ** Auxiliary definitions for the further properties *)

(** The integers [lo], [lo + 1], ..., [len] of them. *)
Fixpoint zrange (lo : Z) (len : nat) : list Z :=
  match len with
  | O => []
  | S len' => lo :: zrange (lo + 1) len'
  end.

(** The last part of [Datetime.ord2ymd]: month and day from the
    zero-based day [n] of a year that is a leap year or not. *)
Definition month_day (n : Z) (leapyear : bool) : Z * Z :=
  let m := Z.shiftr (n + 50) 5 in
  let preceding :=
    Datetime.DAYS_BEFORE_MONTH m
    + (if (2 <? m) && leapyear then 1 else 0) in
  if n <? preceding then
    let m := m - 1 in
    let preceding :=
      preceding
      - (Datetime.DAYS_IN_MONTH m
         + (if (m =? 2) && leapyear then 1 else 0)) in
    (m, n - preceding + 1)
  else (m, n - preceding + 1).

(** [month_day] gives a month, a day of that month, and the right count
    of days before it. *)
Definition month_day_ok (leapyear : bool) (n : Z) : bool :=
  let '(m, d) := month_day n leapyear in
  (1 <=? m) && (m <=? 12) && (1 <=? d)
  && (d <=? (if (m =? 2) && leapyear then 29 else Datetime.DAYS_IN_MONTH m))
  && (Datetime.DAYS_BEFORE_MONTH m
      + (if (2 <? m) && leapyear then 1 else 0) + d =? n + 1).

(** What a text reported for the contact [c] on the day [today] is: the
    birthday of [c] is read as [bd]; [occ] is a date of the calendar with
    the month and day of [bd], 0 to 7 days after [today]; the text is
    what [strftime] writes for a date [d] of the calendar, 0 to 2 days
    after [occ], that is a day from Monday to Friday. *)
Definition reported (today : Datetime.date) (c : ContactRecord)
    (text : string) : Prop :=
  exists bd occ d,
    strptime_birthday (birthday c) = Return bd
    /\ Datetime.valid occ = true
    /\ Datetime.month occ = Datetime.month bd
    /\ Datetime.day occ = Datetime.day bd
    /\ 0 <= Datetime.days_between occ today <= 7
    /\ Datetime.valid d = true
    /\ text = Datetime.strftime_dmY d
    /\ 0 <= Datetime.days_between d occ <= 2
    /\ 0 <= Datetime.weekday d <= 4.

(** The entries reported for the contacts of a book, in its order: a
    contact gives no entry, or one entry, which carries its name and a
    text reported for it. *)
Inductive entries_of (today : Datetime.date)
  : list ContactRecord -> list congrats -> Prop :=
| entries_nil : entries_of today [] []
| entries_skip : forall c rest l,
    entries_of today rest l -> entries_of today (c :: rest) l
| entries_take : forall c rest l text,
    birthday_truthy (birthday c) = true ->
    reported today c text ->
    entries_of today rest l ->
    entries_of today (c :: rest) ((name c, text) :: l).

(** [b'] comes from [b] by assignments [d[k] = v] alone. *)
Inductive updated (b : AddressBook) : AddressBook -> Prop :=
| updated_refl : updated b b
| updated_set : forall b' k v,
    updated b b' -> updated b (dict_set k v b').

(** The names of the book, in its order. *)
Definition dict_keys (d : AddressBook) : list string := map fst d.

(** The commands whose handlers write to the book. *)
Definition mutating (command : string) : bool :=
  String.eqb command "add" || String.eqb command "change"
  || String.eqb command "add-birthday".

Definition line_mutating (line : string) : bool :=
  match parse_input line with
  | Return (Tokens command _) => mutating command
  | _ => false
  end.

(** The command [add n p] run for each [p] of [numbers] in turn. *)
Definition add_all (n : string) (numbers : list string) (w : World)
  : World :=
  fold_left (fun w p => snd (add_contact [n; p] w)) numbers w.

(** The record [add] works on: the one the book holds under [n], or a
    new one. *)
Definition record_or_new (n : string) (b : AddressBook) : ContactRecord :=
  match AddressBook_find n b with
  | Some record => record
  | None => Record_init (NStr n)
  end.

(** The text that [birthdays] prints for a list of results. *)
Definition birthdays_text (l : list congrats) : string :=
  match l with
  | [] => "No birthdays soon."
  | _ => join (String LF EmptyString) (map format_congrats l)
  end.

(** Every character of the text is white space. *)
Definition all_space (s : string) : bool :=
  forallb is_space (list_ascii_of_string s).

(** No character of the text is white space. *)
Definition no_space (s : string) : bool :=
  forallb (fun c => negb (is_space c)) (list_ascii_of_string s).

(** A word of a command line: not empty, without white space. *)
Definition is_token (s : string) : bool := nonempty s && no_space s.

(** The characters of [t] pushed one by one on the reversed run [cur]. *)
Fixpoint push_chars (t cur : string) : string :=
  match t with
  | EmptyString => cur
  | String c t' => push_chars t' (String c cur)
  end.

(** What the command line can put in the book under the name [k]: a
    record whose name is the [str] [k], whose phones are texts of exactly
    ten digits, and whose birthday is unset or a word. *)
Definition cli_entry (k : string) (r : ContactRecord) : Prop :=
  name r = NStr k
  /\ Forall (fun p => ten_digits (phone_value p) = true) (phones r)
  /\ (birthday r = BNone
      \/ exists s, birthday r = BStr s /\ is_token s = true).

Definition cli_book (b : AddressBook) : Prop :=
  forall k r, In (k, r) b -> cli_entry k r.

(** The states that the loop of [main] goes through when it starts with
    an empty book. *)
Inductive cli_reachable : World -> Prop :=
| cli_start : forall n, cli_reachable (mk_World [] n)
| cli_turn : forall w today line,
    cli_reachable w -> cli_reachable (snd (main_turn today line w)).

(* ================================================================== *)
(** * Properties *)

Import Datetime.

(** ** Digits and padded numbers *)

Lemma is_digit_inv (c : ascii) : is_digit c = true -> In c digits.
Proof.
  destruct c as [[] [] [] [] [] [] [] []]; vm_compute; intros H;
    try discriminate H; tauto.
Qed.

Ltac digit_cases H :=
  apply is_digit_inv in H; cbv [digits In] in H;
  repeat (destruct H as [H | H]; [subst | ]); [.. | contradiction].

Lemma digit_value_range (c : ascii) :
  is_digit c = true -> 0 <= digit_value c <= 9.
Proof. intros H. digit_cases H; vm_compute; split; discriminate. Qed.

Lemma digit_char_value (c : ascii) :
  is_digit c = true -> digit_char (digit_value c) = c.
Proof. intros H. digit_cases H; reflexivity. Qed.

Ltac divmod := Z.div_mod_to_equations; lia.

Lemma zpad_2 (a b : ascii) :
  is_digit a = true -> is_digit b = true ->
  zpad 2 (10 * digit_value a + digit_value b)
  = String a (String b EmptyString).
Proof.
  intros Ha Hb.
  pose proof (digit_value_range a Ha). pose proof (digit_value_range b Hb).
  cbn [zpad append].
  replace ((10 * digit_value a + digit_value b) / 10) with (digit_value a)
    by divmod.
  replace ((10 * digit_value a + digit_value b) mod 10) with (digit_value b)
    by divmod.
  replace (digit_value a mod 10) with (digit_value a) by divmod.
  now rewrite !digit_char_value.
Qed.

Lemma zpad_4 (a b c d : ascii) :
  is_digit a = true -> is_digit b = true ->
  is_digit c = true -> is_digit d = true ->
  zpad 4 (1000 * digit_value a + 100 * digit_value b
          + 10 * digit_value c + digit_value d)
  = String a (String b (String c (String d EmptyString))).
Proof.
  intros Ha Hb Hc Hd.
  pose proof (digit_value_range a Ha). pose proof (digit_value_range b Hb).
  pose proof (digit_value_range c Hc). pose proof (digit_value_range d Hd).
  set (n := 1000 * digit_value a + 100 * digit_value b
            + 10 * digit_value c + digit_value d).
  cbn [zpad append].
  replace (n mod 10) with (digit_value d) by (subst n; divmod).
  replace (n / 10)
    with (100 * digit_value a + 10 * digit_value b + digit_value c)
    by (subst n; divmod).
  clearbody n. clear n.
  set (n := 100 * digit_value a + 10 * digit_value b + digit_value c).
  replace (n mod 10) with (digit_value c) by (subst n; divmod).
  replace (n / 10) with (10 * digit_value a + digit_value b)
    by (subst n; divmod).
  clearbody n. clear n.
  set (n := 10 * digit_value a + digit_value b).
  replace (n mod 10) with (digit_value b) by (subst n; divmod).
  replace (n / 10) with (digit_value a) by (subst n; divmod).
  replace (digit_value a mod 10) with (digit_value a) by divmod.
  now rewrite !digit_char_value.
Qed.

(** ** The patterns of the field wrappers *)

Lemma re_match_phone_pattern (s : string) :
  re_match phone_pattern s = true <->
  ten_digits s = true
  \/ exists t, s = t ++ String LF EmptyString /\ ten_digits t = true.
Proof.
  unfold re_match, phone_pattern, ten_digits.
  cbn [repeat app re_match_at Nat.eqb andb].
  split.
  - intros H.
    do 10 (destruct s as [|? s]; [discriminate H|];
           apply andb_true_iff in H; destruct H as [? H]).
    destruct s as [|c s].
    + left. cbn. repeat (apply andb_true_iff; split; trivial).
    + destruct s; [|discriminate H].
      apply andb_true_iff in H. destruct H as [H _].
      apply Ascii.eqb_eq in H. subst c. right.
      eexists (String _ (String _ (String _ (String _ (String _
                (String _ (String _ (String _ (String _ (String _
                   EmptyString)))))))))).
      split; [reflexivity|].
      cbn. repeat (apply andb_true_iff; split; trivial).
  - intros [H | (t & -> & H)].
    + do 10 (destruct s as [|? s]; [discriminate H|]).
      destruct s; [|discriminate H].
      cbn in H. cbn.
      repeat (apply andb_true_iff in H; destruct H as [? H]).
      repeat (apply andb_true_iff; split; trivial).
    + do 10 (destruct t as [|? t]; [discriminate H|]).
      destruct t; [|discriminate H].
      cbn in H. cbn.
      repeat (apply andb_true_iff in H; destruct H as [? H]).
      repeat (apply andb_true_iff; split; trivial).
Qed.

(** What [Phone(value)] accepts: ten digits, or ten digits and one line
    feed after them. *)
Lemma Phone_init_accepts (oid : nat) (s : string) :
  (exists p, Phone_init oid s = Return p) <->
  ten_digits s = true
  \/ exists t, s = t ++ String LF EmptyString /\ ten_digits t = true.
Proof.
  rewrite <- re_match_phone_pattern. unfold Phone_init.
  destruct (re_match phone_pattern s); split.
  - reflexivity.
  - intros _. eexists. reflexivity.
  - intros [p H]. discriminate H.
  - discriminate.
Qed.

Lemma Phone_init_ten_digits (oid : nat) (s : string) :
  ten_digits s = true -> Phone_init oid s = Return (mk_Phone oid s).
Proof.
  intros H. unfold Phone_init.
  replace (re_match phone_pattern s) with true; [reflexivity|].
  symmetry. apply re_match_phone_pattern. now left.
Qed.

Lemma Phone_init_rejects (oid : nat) (s : string) :
  re_match phone_pattern s = false ->
  Phone_init oid s
  = Raise (mk_exn ValueError
             "Invalid phone number. The number must consist of 10 digits.").
Proof. intros H. unfold Phone_init. now rewrite H. Qed.

(** C3.  The specification has [Phone(value)] succeed exactly on the
    texts of ten decimal digits.  The code accepts every such text, and
    rejects with a [ValueError] what its pattern does not match; but the
    pattern ends in [$], which also matches before a final line feed, so
    the eleven characters 1234567890 and a line feed are accepted and
    stored as they are. *)
Theorem Phone_init_trailing_line_feed :
  forall oid : nat,
    let value := "1234567890" ++ String LF EmptyString in
    ten_digits value = false
    /\ String.length value = 11%nat
    /\ Phone_init oid value = Return (mk_Phone oid value).
Proof. intros oid. repeat split. Qed.

(** ** [strptime] on texts of the shape DD.MM.YYYY *)

Lemma match_Y_digits (a b c d : ascii) (rest : string) :
  is_digit a = true -> is_digit b = true ->
  is_digit c = true -> is_digit d = true ->
  match_Y (String a (String b (String c (String d rest))))
  = Some (1000 * digit_value a + 100 * digit_value b
          + 10 * digit_value c + digit_value d, rest).
Proof. intros Ha Hb Hc Hd. unfold match_Y. now rewrite Ha, Hb, Hc, Hd. Qed.

Lemma match_mY_two (m1 m2 : ascii) (r : string) :
  is_digit m1 = true -> is_digit m2 = true ->
  match_mY (String m1 (String m2 (String "." r)))
  = let m := 10 * digit_value m1 + digit_value m2 in
    if (1 <=? m) && (m <=? 12)
    then match match_Y r with
         | Some (y, rest) => Some (m, y, rest)
         | None => None
         end
    else None.
Proof.
  intros H1 H2. digit_cases H1; digit_cases H2;
    unfold match_mY; cbn -[match_Y]; try reflexivity;
    destruct (match_Y r) as [[? ?]|]; reflexivity.
Qed.

Lemma match_dmY_two (d1 d2 : ascii) (r : string) :
  is_digit d1 = true -> is_digit d2 = true ->
  match_dmY (String d1 (String d2 (String "." r)))
  = let d := 10 * digit_value d1 + digit_value d2 in
    if (1 <=? d) && (d <=? 31)
    then match match_mY r with
         | Some (m, y, rest) => Some (d, m, y, rest)
         | None => None
         end
    else None.
Proof.
  intros H1 H2. digit_cases H1; digit_cases H2;
    unfold match_dmY; cbn -[match_mY]; try reflexivity;
    destruct (match_mY r) as [[[? ?] ?]|]; reflexivity.
Qed.

Lemma match_dmY_text (d1 d2 m1 m2 y1 y2 y3 y4 : ascii) (rest : string) :
  is_digit d1 = true -> is_digit d2 = true ->
  is_digit m1 = true -> is_digit m2 = true ->
  is_digit y1 = true -> is_digit y2 = true ->
  is_digit y3 = true -> is_digit y4 = true ->
  match_dmY (dmy_text d1 d2 m1 m2 y1 y2 y3 y4 rest)
  = let d := 10 * digit_value d1 + digit_value d2 in
    let m := 10 * digit_value m1 + digit_value m2 in
    let y := 1000 * digit_value y1 + 100 * digit_value y2
             + 10 * digit_value y3 + digit_value y4 in
    if (1 <=? d) && (d <=? 31) && ((1 <=? m) && (m <=? 12))
    then Some (d, m, y, rest) else None.
Proof.
  intros. unfold dmy_text.
  rewrite match_dmY_two, match_mY_two, match_Y_digits by assumption.
  cbv zeta.
  destruct ((1 <=? 10 * digit_value d1 + digit_value d2)
            && (10 * digit_value d1 + digit_value d2 <=? 31));
    destruct ((1 <=? 10 * digit_value m1 + digit_value m2)
              && (10 * digit_value m1 + digit_value m2 <=? 12));
    reflexivity.
Qed.

Lemma dmy_fields_inv (s : string) (d m y : Z) :
  dmy_fields s = Some (d, m, y) ->
  exists d1 d2 m1 m2 y1 y2 y3 y4,
    s = dmy_text d1 d2 m1 m2 y1 y2 y3 y4 EmptyString
    /\ is_digit d1 = true /\ is_digit d2 = true
    /\ is_digit m1 = true /\ is_digit m2 = true
    /\ is_digit y1 = true /\ is_digit y2 = true
    /\ is_digit y3 = true /\ is_digit y4 = true
    /\ d = 10 * digit_value d1 + digit_value d2
    /\ m = 10 * digit_value m1 + digit_value m2
    /\ y = 1000 * digit_value y1 + 100 * digit_value y2
           + 10 * digit_value y3 + digit_value y4.
Proof.
  intros H.
  do 10 (destruct s as [|? s]; [discriminate H|]).
  destruct s; [|discriminate H].
  unfold dmy_fields in H.
  match type of H with (if ?c then _ else _) = _ => destruct c eqn:E end;
    [|discriminate H].
  do 9 (apply andb_true_iff in E; destruct E as [E ?]).
  repeat match goal with
         | X : Ascii.eqb _ _ = true |- _ => apply Ascii.eqb_eq in X; subst
         end.
  injection H as <- <- <-.
  do 8 eexists. unfold dmy_text.
  repeat split; first [reflexivity | eassumption].
Qed.

Lemma re_match_birthday_pattern (s : string) :
  re_match birthday_pattern s = true ->
  (exists f, dmy_fields s = Some f)
  \/ exists d1 d2 m1 m2 y1 y2 y3 y4,
       s = dmy_text d1 d2 m1 m2 y1 y2 y3 y4 (String LF EmptyString)
       /\ is_digit d1 = true /\ is_digit d2 = true
       /\ is_digit m1 = true /\ is_digit m2 = true
       /\ is_digit y1 = true /\ is_digit y2 = true
       /\ is_digit y3 = true /\ is_digit y4 = true.
Proof.
  unfold re_match, birthday_pattern.
  cbn [repeat app re_match_at Nat.eqb andb].
  intros H.
  do 10 (destruct s as [|? s]; [discriminate H|];
         apply andb_true_iff in H; destruct H as [? H]).
  repeat match goal with
         | X : Ascii.eqb _ _ = true |- _ => apply Ascii.eqb_eq in X; subst
         end.
  destruct s as [|c s].
  - left. cbn.
    repeat match goal with X : is_digit _ = true |- _ => rewrite X; clear X end.
    cbn. eexists. reflexivity.
  - destruct s; [|discriminate H].
    apply andb_true_iff in H. destruct H as [H _].
    apply Ascii.eqb_eq in H. subst c. right.
    do 8 eexists. unfold dmy_text. repeat split; eassumption.
Qed.

Lemma re_match_dmy_text (d1 d2 m1 m2 y1 y2 y3 y4 : ascii) :
  is_digit d1 = true -> is_digit d2 = true ->
  is_digit m1 = true -> is_digit m2 = true ->
  is_digit y1 = true -> is_digit y2 = true ->
  is_digit y3 = true -> is_digit y4 = true ->
  re_match birthday_pattern (dmy_text d1 d2 m1 m2 y1 y2 y3 y4 EmptyString)
  = true.
Proof.
  intros. unfold re_match, birthday_pattern, dmy_text. cbn.
  repeat match goal with X : is_digit _ = true |- _ => rewrite X; clear X end.
  reflexivity.
Qed.

Lemma valid_fields (y m d : Z) :
  valid (mk_date y m d) = true <->
  1 <= y <= 9999 /\ 1 <= m <= 12 /\ 1 <= d <= days_in_month y m.
Proof.
  unfold valid, check_date_fields, MINYEAR, MAXYEAR. cbn [year month day].
  destruct ((1 <=? y) && (y <=? 9999)) eqn:Ey;
    destruct ((1 <=? m) && (m <=? 12)) eqn:Em;
    destruct ((1 <=? d) && (d <=? days_in_month y m)) eqn:Ed; cbn;
    repeat match goal with
           | X : _ && _ = true |- _ =>
               apply andb_true_iff in X; destruct X
           | X : _ && _ = false |- _ =>
               apply andb_false_iff in X
           end;
    split; intros; try discriminate; try lia; try reflexivity.
Qed.

Lemma days_in_month_le_31 (y m : Z) : days_in_month y m <= 31.
Proof.
  unfold days_in_month. destruct ((m =? 2) && is_leap y); [lia|].
  unfold DAYS_IN_MONTH.
  destruct m as [|p|p]; try lia.
  do 4 (destruct p as [p|p|]; try lia).
Qed.

Lemma new_date_valid (y m d : Z) :
  valid (mk_date y m d) = true -> new_date y m d = Return (mk_date y m d).
Proof.
  unfold valid, new_date. cbn [year month day].
  destruct (check_date_fields y m d) as [[]|]; [reflexivity|discriminate].
Qed.

Lemma new_date_Return (y m d : Z) (dt : date) :
  new_date y m d = Return dt -> dt = mk_date y m d /\ valid dt = true.
Proof.
  unfold new_date. destruct (check_date_fields y m d) as [[]|e] eqn:C;
    [|discriminate].
  intros [= <-]. split; [reflexivity|].
  unfold valid. cbn [year month day]. now rewrite C.
Qed.

Lemma new_date_invalid (y m d : Z) :
  valid (mk_date y m d) = false -> exists e, new_date y m d = Raise e.
Proof.
  unfold valid, new_date. cbn [year month day].
  destruct (check_date_fields y m d); [discriminate|].
  intros _. eexists. reflexivity.
Qed.

Lemma strptime_dmY_text (d1 d2 m1 m2 y1 y2 y3 y4 : ascii) :
  is_digit d1 = true -> is_digit d2 = true ->
  is_digit m1 = true -> is_digit m2 = true ->
  is_digit y1 = true -> is_digit y2 = true ->
  is_digit y3 = true -> is_digit y4 = true ->
  let d := 10 * digit_value d1 + digit_value d2 in
  let m := 10 * digit_value m1 + digit_value m2 in
  let y := 1000 * digit_value y1 + 100 * digit_value y2
           + 10 * digit_value y3 + digit_value y4 in
  (valid (mk_date y m d) = true ->
   strptime_dmY (dmy_text d1 d2 m1 m2 y1 y2 y3 y4 EmptyString)
   = Return (mk_date y m d))
  /\ (valid (mk_date y m d) = false ->
      exists e,
        strptime_dmY (dmy_text d1 d2 m1 m2 y1 y2 y3 y4 EmptyString)
        = Raise e).
Proof.
  intros Hd1 Hd2 Hm1 Hm2 Hy1 Hy2 Hy3 Hy4 d m y.
  unfold strptime_dmY. rewrite match_dmY_text by assumption.
  fold d m y. cbv zeta.
  destruct ((1 <=? d) && (d <=? 31) && ((1 <=? m) && (m <=? 12))) eqn:R.
  - cbn [nonempty]. split; intros V.
    + now apply new_date_valid.
    + now apply new_date_invalid.
  - split; intros V.
    + apply valid_fields in V. pose proof (days_in_month_le_31 y m).
      apply andb_false_iff in R.
      destruct R as [R | R]; apply andb_false_iff in R; destruct R; lia.
    + eexists. reflexivity.
Qed.

Lemma strptime_dmY_trailing (d1 d2 m1 m2 y1 y2 y3 y4 : ascii) :
  is_digit d1 = true -> is_digit d2 = true ->
  is_digit m1 = true -> is_digit m2 = true ->
  is_digit y1 = true -> is_digit y2 = true ->
  is_digit y3 = true -> is_digit y4 = true ->
  exists e,
    strptime_dmY (dmy_text d1 d2 m1 m2 y1 y2 y3 y4 (String LF EmptyString))
    = Raise e.
Proof.
  intros. unfold strptime_dmY. rewrite match_dmY_text by assumption.
  cbv zeta.
  match goal with |- context [if ?c then Some _ else None] => destruct c end;
    eexists; reflexivity.
Qed.

(** C4, as the code has it.  A text DD.MM.YYYY that names a date of the
    calendar (years 1 to 9999) is accepted, and the field holds that date;
    its rendering is the ISO text YYYY-MM-DD made of the same digits, not
    the text that was given.  A text DD.MM.YYYY that names no date is
    refused with the message of the calendar check, and every text of
    another shape is refused with a [ValueError]. *)
Theorem Birthday_init_spec :
  forall s : string,
    match dmy_fields s with
    | Some (d, m, y) =>
        if valid (mk_date y m d)
        then Birthday_init s = Return (mk_Birthday (mk_date y m d))
             /\ Birthday_str (mk_Birthday (mk_date y m d)) = iso_of_dmy s
        else Birthday_init s
             = Raise (mk_exn ValueError
                        "Invalid date format. Ensure it exist.")
    | None => exists msg, Birthday_init s = Raise (mk_exn ValueError msg)
    end.
Proof.
  intros s. destruct (dmy_fields s) as [[[d m] y]|] eqn:F.
  - apply dmy_fields_inv in F.
    destruct F as (d1 & d2 & m1 & m2 & y1 & y2 & y3 & y4 & -> & Hd1 & Hd2
                   & Hm1 & Hm2 & Hy1 & Hy2 & Hy3 & Hy4 & -> & -> & ->).
    destruct (strptime_dmY_text d1 d2 m1 m2 y1 y2 y3 y4
                Hd1 Hd2 Hm1 Hm2 Hy1 Hy2 Hy3 Hy4) as [Hok Hko].
    unfold Birthday_init. rewrite re_match_dmy_text by assumption.
    match goal with |- if ?v then _ else _ => destruct v eqn:V end.
    + rewrite (Hok eq_refl). split; [reflexivity|].
      unfold Birthday_str, isoformat. cbn [birthday_value year month day].
      rewrite zpad_4, !zpad_2 by assumption. reflexivity.
    + destruct (Hko eq_refl) as [e ->]. reflexivity.
  - unfold Birthday_init.
    destruct (re_match birthday_pattern s) eqn:E.
    + apply re_match_birthday_pattern in E.
      destruct E as [[f E] | E]; [congruence|].
      destruct E as (d1 & d2 & m1 & m2 & y1 & y2 & y3 & y4 & -> & Hd1 & Hd2
                     & Hm1 & Hm2 & Hy1 & Hy2 & Hy3 & Hy4).
      destruct (strptime_dmY_trailing d1 d2 m1 m2 y1 y2 y3 y4
                  Hd1 Hd2 Hm1 Hm2 Hy1 Hy2 Hy3 Hy4) as [e ->].
      eexists. reflexivity.
    + eexists. reflexivity.
Qed.

(** C4 as the specification states it fails: the field built from
    15.06.1990 renders as 1990-06-15. *)
Lemma Birthday_str_is_not_the_input :
  Birthday_init "15.06.1990" = Return (mk_Birthday (mk_date 1990 6 15))
  /\ Birthday_str (mk_Birthday (mk_date 1990 6 15)) = "1990-06-15"
  /\ Birthday_str (mk_Birthday (mk_date 1990 6 15)) <> "15.06.1990".
Proof. repeat split. discriminate. Qed.

(** ** [Record.edit_phone] and [Record.find_phone] *)

Lemma list_set_app {A : Type} (before : list A) (x y : A) (after : list A) :
  list_set (List.length before) y (before ++ x :: after)
  = (before ++ y :: after)%list.
Proof.
  induction before as [|h t IH]; cbn; [reflexivity|]. now rewrite IH.
Qed.

Lemma edit_phone_from_skip (oid : nat) (old new : string)
    (before rest : list Phone) (index : nat) (r : ContactRecord) :
  (forall q, In q before -> phone_value q <> old) ->
  edit_phone_from oid old new index (before ++ rest) r
  = edit_phone_from oid old new (index + List.length before) rest r.
Proof.
  revert index. induction before as [|h t IH]; intros index Hne; cbn.
  - now rewrite Nat.add_0_r.
  - destruct (String.eqb (phone_value h) old) eqn:E.
    + apply String.eqb_eq in E. exfalso. apply (Hne h); [now left|exact E].
    + rewrite IH by (intros q Hq; apply Hne; now right).
      f_equal. lia.
Qed.

(** C5.  When the phone list is [before ++ p0 :: after], [p0] being the
    first entry whose value is [old_phone], [edit_phone] builds
    [Phone(new_phone)]: if the new text passes validation the entry [p0],
    and nothing else, is replaced by it and the change is reported; if it
    does not, the [ValueError] of the validation propagates and the record
    is as before.  When no entry has the value [old_phone], the record is
    unchanged and the text "not found" is returned, whatever
    [new_phone] is. *)
Theorem Record_edit_phone_spec :
  forall (oid : nat) (old_phone new_phone : string) (r : ContactRecord),
    (forall before p0 after,
        phones r = (before ++ p0 :: after)%list ->
        phone_value p0 = old_phone ->
        (forall q, In q before -> phone_value q <> old_phone) ->
        Record_edit_phone oid old_phone new_phone r
        = match Phone_init oid new_phone with
          | Return p =>
              (Return ("Phone " ++ old_phone ++ " changed to " ++ new_phone),
               set_phones r (before ++ p :: after)%list)
          | Raise e => (Raise e, r)
          end)
    /\ ((forall q, In q (phones r) -> phone_value q <> old_phone) ->
        Record_edit_phone oid old_phone new_phone r
        = (Return ("Phone " ++ old_phone ++ " not found"), r)).
Proof.
  intros oid old new r. unfold Record_edit_phone. split.
  - intros before p0 after Hl Hv Hne.
    rewrite Hl at 1. rewrite edit_phone_from_skip by assumption.
    cbn. rewrite Hv, String.eqb_refl.
    destruct (Phone_init oid new); [|reflexivity].
    rewrite Hl, list_set_app. reflexivity.
  - intros Hne.
    rewrite <- (app_nil_r (phones r)) at 1.
    rewrite edit_phone_from_skip by assumption. reflexivity.
Qed.

Lemma Record_edit_phone_example :
  let p1 := mk_Phone 1 "1111111111" in
  let p2 := mk_Phone 2 "2222222222" in
  let p3 := mk_Phone 3 "2222222222" in
  let r := mk_Record (NStr "Bob") [p1; p2; p3] BNone in
  Record_edit_phone 7 "2222222222" "3333333333" r
  = (Return "Phone 2222222222 changed to 3333333333",
     mk_Record (NStr "Bob") [p1; mk_Phone 7 "3333333333"; p3] BNone)
  /\ Record_edit_phone 7 "4444444444" "3333333333" r
     = (Return "Phone 4444444444 not found", r).
Proof.
  intros p1 p2 p3 r.
  destruct (Record_edit_phone_spec 7 "2222222222" "3333333333" r)
    as [Hfound _].
  destruct (Record_edit_phone_spec 7 "4444444444" "3333333333" r)
    as [_ Hmissing].
  split.
  - rewrite (Hfound [p1] p2 [p3]).
    + reflexivity.
    + reflexivity.
    + reflexivity.
    + intros q [<- | []]. discriminate.
  - apply Hmissing.
    intros q [<- | [<- | [<- | []]]]; discriminate.
Defined.

Lemma Phone_in_self (p : Phone) (l : list Phone) :
  In p l -> Phone_in p l = true.
Proof.
  intros H. unfold Phone_in. apply existsb_exists.
  exists p. split; [exact H|]. cbn. apply Nat.eqb_refl.
Qed.

Lemma find_phone_from_fresh (all rest : list Phone) (phone : phone_arg) :
  (forall p, In p rest -> In p all) ->
  (forall p, In p rest -> Phone_eq p phone = false) ->
  find_phone_from all rest phone = FoundNone.
Proof.
  induction rest as [|p rest IH]; intros Hsub Hne; cbn; [reflexivity|].
  rewrite (Hne p) by now left.
  rewrite (Phone_in_self p all) by (apply Hsub; now left).
  cbn. apply IH; intros q Hq; [apply Hsub | apply Hne]; now right.
Qed.

(** C6.  For a [Phone] object that is none of the stored objects,
    whatever its digits, [find_phone] returns no stored phone: no
    comparison [p == phone] holds, the test [p not in self.phones] never
    does either, and the loop runs to its end, so the call returns
    [None].  The same holds when a [str] is passed. *)
Theorem Record_find_phone_fresh :
  forall (r : ContactRecord) (phone : Phone),
    (forall p, In p (phones r) -> phone_id p <> phone_id phone) ->
    Record_find_phone (ArgPhone phone) r = FoundNone
    /\ forall s, Record_find_phone (ArgStr s) r = FoundNone.
Proof.
  intros r phone Hfresh. unfold Record_find_phone. split.
  - apply find_phone_from_fresh; [trivial|].
    intros p Hp. cbn. apply Nat.eqb_neq. now apply Hfresh.
  - intros s. apply find_phone_from_fresh; trivial.
Qed.

Lemma Record_find_phone_example :
  let stored := mk_Phone 1 "1234567890" in
  let supplied := mk_Phone 2 "1234567890" in
  let r := mk_Record (NStr "Bob") [stored] BNone in
  phone_value supplied = phone_value stored
  /\ Record_find_phone (ArgPhone supplied) r = FoundNone
  /\ Record_find_phone (ArgPhone stored) r = Found stored.
Proof.
  intros stored supplied r. split; [reflexivity|]. split.
  - apply (Record_find_phone_fresh r supplied).
    intros p [<- | []]. discriminate.
  - reflexivity.
Defined.

(** ** The address book as a dictionary *)

Lemma dict_get_set_same (k : string) (v : ContactRecord) (d : AddressBook) :
  dict_get k (dict_set k v d) = Some v.
Proof.
  induction d as [|[k' v'] d IH]; cbn.
  - now rewrite String.eqb_refl.
  - destruct (String.eqb k' k) eqn:E; cbn; now rewrite E.
Qed.

Lemma dict_get_In (k : string) (d : AddressBook) (v : ContactRecord) :
  dict_get k d = Some v -> In (k, v) d.
Proof.
  induction d as [|[k' v'] d IH]; cbn; [discriminate|].
  destruct (String.eqb k' k) eqn:E.
  - apply String.eqb_eq in E. intros [= ->]. left. now subst.
  - intros H. right. now apply IH.
Qed.

Lemma dict_set_absent (k : string) (v : ContactRecord) (d : AddressBook) :
  dict_get k d = None -> dict_set k v d = (d ++ [(k, v)])%list.
Proof.
  induction d as [|[k' v'] d IH]; cbn; [reflexivity|].
  destruct (String.eqb k' k); [discriminate|].
  intros H. now rewrite IH.
Qed.

Lemma dict_set_In (k : string) (v : ContactRecord) (d : AddressBook)
    (k0 : string) (v0 : ContactRecord) :
  In (k0, v0) (dict_set k v d) -> In (k0, v0) d \/ (k0, v0) = (k, v).
Proof.
  induction d as [|[k' v'] d IH]; cbn.
  - intros [H | []]. now right.
  - destruct (String.eqb k' k) eqn:E.
    + apply String.eqb_eq in E. subst k'.
      intros [H | H]; [now right | left; now right].
    + intros [H | H]; [left; now left|].
      destruct (IH H) as [H' | H']; [left; now right | now right].
Qed.

Lemma dict_del_In (k : string) (d : AddressBook)
    (k0 : string) (v0 : ContactRecord) :
  In (k0, v0) (dict_del k d) -> In (k0, v0) d.
Proof.
  induction d as [|[k' v'] d IH]; cbn; [trivial|].
  destruct (String.eqb k' k).
  - intros H. now right.
  - intros [H | H]; [now left | right; now apply IH].
Qed.

(** ** The handlers [add_birthday] and [add_contact] *)

(** C9.  On a contact that exists, [add-birthday] with any text [b]
    returns the confirmation and stores [b] itself, a [str], as the
    birthday of the record: no [Birthday] field is built, nothing
    validates [b] and nothing is raised. *)
Theorem add_birthday_stores_text :
  forall (w : World) (n b : string) (record : ContactRecord),
    AddressBook_find n (book w) = Some record ->
    let stored := set_birthday record (BStr b) in
    add_birthday [n; b] w
    = (Return (VStr (colored_output
                       (name_str (name record) ++ "'s birthday on " ++ b
                        ++ " added"))),
       mk_World (dict_set n stored (book w)) (next_id w))
    /\ AddressBook_find n (dict_set n stored (book w)) = Some stored
    /\ birthday stored = BStr b.
Proof.
  intros w n b record Hfind stored. split; [|split].
  - unfold add_birthday, input_error, add_birthday_body, bind, lift, find,
      get_book, ret, on_record, put_book.
    cbn. rewrite Hfind. reflexivity.
  - apply dict_get_set_same.
  - reflexivity.
Qed.

Lemma add_birthday_stores_text_example :
  let bob := mk_Record (NStr "Bob") [] BNone in
  let w := mk_World [("Bob", bob)] 0 in
  raised (Birthday_init "tomorrow") = true
  /\ snd (add_birthday ["Bob"; "tomorrow"] w)
     = mk_World [("Bob", mk_Record (NStr "Bob") [] (BStr "tomorrow"))] 0.
Proof.
  intros bob w. split; [reflexivity|].
  destruct (add_birthday_stores_text w "Bob" "tomorrow" bob eq_refl)
    as [H _].
  rewrite H. reflexivity.
Defined.

(** C10, as the code has it.  For a name that the book does not hold and
    a phone text that is not empty and fails the validation of [Phone],
    [add] returns the [ValueError] of the validation, and the book has
    gained, as its last entry, a record of that name without phones and
    without birthday. *)
Theorem add_contact_invalid_phone_keeps_record :
  forall (w : World) (n phone : string) (e : exn),
    AddressBook_find n (book w) = None ->
    nonempty phone = true ->
    Phone_init (next_id w) phone = Raise e ->
    let w' := snd (add_contact [n; phone] w) in
    fst (add_contact [n; phone] w) = Return (VExn e)
    /\ exn_cls e = ValueError
    /\ book w' = (book w ++ [(n, Record_init (NStr n))])%list
    /\ AddressBook_find n (book w') = Some (mk_Record (NStr n) [] BNone).
Proof.
  intros w n phone e Hfind Hne Hinit.
  assert (He : exn_cls e = ValueError).
  { unfold Phone_init in Hinit.
    destruct (re_match phone_pattern phone); [discriminate|].
    injection Hinit as <-. reflexivity. }
  assert (Hrun : add_contact [n; phone] w
                 = (Return (VExn e),
                    mk_World (dict_set n (Record_init (NStr n)) (book w))
                             (S (next_id w)))).
  { unfold add_contact, input_error, add_contact_body, bind, lift, find,
      get_book, ret, on_record, put_book, add_record, new_Phone, fresh.
    cbn. rewrite Hfind. cbn.
    rewrite Hne. cbn. rewrite Hinit. cbn. rewrite He. reflexivity. }
  cbv zeta. rewrite Hrun. cbn [fst snd book].
  repeat split.
  - exact He.
  - now apply dict_set_absent.
  - unfold AddressBook_find. apply dict_get_set_same.
Qed.

Lemma add_contact_invalid_phone_example :
  fst (add_contact ["Al"; "12"] (mk_World [] 0))
  = Return (VExn (mk_exn ValueError
       "Invalid phone number. The number must consist of 10 digits."))
  /\ book (snd (add_contact ["Al"; "12"] (mk_World [] 0)))
     = [("Al", mk_Record (NStr "Al") [] BNone)].
Proof.
  destruct (add_contact_invalid_phone_keeps_record (mk_World [] 0) "Al" "12"
              (mk_exn ValueError
                 "Invalid phone number. The number must consist of 10 digits.")
              eq_refl eq_refl eq_refl) as (H1 & _ & H2 & _).
  split; [exact H1 | exact H2].
Defined.

(** C10 as the specification states it fails for the empty phone text:
    it fails the validation of [Phone], yet [add] skips it, reports the
    contact as added and raises nothing. *)
Lemma add_contact_empty_phone_no_error :
  raised (Phone_init 0 EmptyString) = true
  /\ AddressBook_find "Bob" [] = None
  /\ add_contact ["Bob"; EmptyString] (mk_World [] 0)
     = (Return (VStr (colored_output "Contact Bob added to address book.")),
        mk_World [("Bob", mk_Record (NStr "Bob") [] BNone)] 0).
Proof. repeat split. Qed.

(** ** Calendar facts *)

Lemma month_cases (m : Z) :
  1 <= m <= 12 ->
  m = 1 \/ m = 2 \/ m = 3 \/ m = 4 \/ m = 5 \/ m = 6 \/ m = 7 \/ m = 8
  \/ m = 9 \/ m = 10 \/ m = 11 \/ m = 12.
Proof. lia. Qed.

Lemma is_leap_mod (y : Z) : is_leap y = true -> y mod 4 = 0.
Proof.
  unfold is_leap. intros H. apply andb_true_iff in H. destruct H as [H _].
  now apply Z.eqb_eq in H.
Qed.

(** The ordinal of a date lies between those of 01.01.0001 and
    31.12.9999. *)
Lemma toordinal_bounds (dt : date) :
  valid dt = true -> 1 <= toordinal dt <= MAXORDINAL.
Proof.
  destruct dt as [y m d]. intros V. apply valid_fields in V.
  destruct V as (Hy & Hm & Hd).
  unfold toordinal, ymd2ord, days_before_year, days_before_month, MAXORDINAL.
  cbn [year month day]. unfold days_in_month in Hd.
  destruct (is_leap y) eqn:L.
  - apply is_leap_mod in L.
    destruct (month_cases m Hm)
      as [-> | [-> | [-> | [-> | [-> | [-> | [-> | [-> | [-> | [-> | [-> | ->
         ]]]]]]]]]]]; cbn in Hd |- *; divmod.
  - destruct (month_cases m Hm)
      as [-> | [-> | [-> | [-> | [-> | [-> | [-> | [-> | [-> | [-> | [-> | ->
         ]]]]]]]]]]]; cbn in Hd |- *; divmod.
Qed.

(** The last day of the calendar is a Friday, so moving a Saturday or a
    Sunday to the next Monday never leaves the calendar. *)
Lemma add_days_saturday (dt : date) :
  valid dt = true -> weekday dt = 5 ->
  add_days dt 2 = Return (fromordinal (toordinal dt + 2)).
Proof.
  intros V W. pose proof (toordinal_bounds dt V) as B.
  unfold weekday in W. unfold add_days, MAXORDINAL in *.
  replace (0 <? toordinal dt + 2) with true by (symmetry; apply Z.ltb_lt; lia).
  replace (toordinal dt + 2 <=? 3652059) with true
    by (symmetry; apply Z.leb_le; divmod).
  reflexivity.
Qed.

Lemma add_days_sunday (dt : date) :
  valid dt = true -> weekday dt = 6 ->
  add_days dt 1 = Return (fromordinal (toordinal dt + 1)).
Proof.
  intros V W. pose proof (toordinal_bounds dt V) as B.
  unfold weekday in W. unfold add_days, MAXORDINAL in *.
  replace (0 <? toordinal dt + 1) with true by (symmetry; apply Z.ltb_lt; lia).
  replace (toordinal dt + 1 <=? 3652059) with true
    by (symmetry; apply Z.leb_le; divmod).
  reflexivity.
Qed.

Lemma weekend_shift_code (occ : date) :
  valid occ = true ->
  (if weekday occ =? 5 then add_days occ 2
   else if weekday occ =? 6 then add_days occ 1
   else Return occ)
  = Return (weekend_shift occ).
Proof.
  intros V. unfold weekend_shift.
  destruct (weekday occ =? 5) eqn:E5.
  - apply Z.eqb_eq in E5. now apply add_days_saturday.
  - destruct (weekday occ =? 6) eqn:E6; [|reflexivity].
    apply Z.eqb_eq in E6. now apply add_days_sunday.
Qed.

Lemma lt_next_year (today : date) (m d : Z) :
  lt (mk_date (year today + 1) m d) today = false.
Proof.
  unfold lt. cbn [year month day].
  replace (year today + 1 <? year today) with false
    by (symmetry; apply Z.ltb_ge; lia).
  replace (year today + 1 =? year today) with false
    by (symmetry; apply Z.eqb_neq; lia).
  reflexivity.
Qed.

(** ** [AddressBook.get_upcoming_birthdays] *)

Section Upcoming.

Variable today : date.

Lemma claimed_upcoming_cons (c : ContactRecord)
    (rest : list ContactRecord) :
  claimed_upcoming today (c :: rest)
  = (entry_list (claimed_entry today c) ++ claimed_upcoming today rest)%list.
Proof. cbn. destruct (claimed_entry today c); reflexivity. Qed.

(** Under the conditions of [birthday_usable], the year the loop picks is
    the next occurrence of the month and day. *)
Lemma next_occurrence_code (bd : date) :
  occurs_in (year today) bd = true ->
  (if lt (mk_date (year today) (month bd) (day bd)) today
   then occurs_in (year today + 1) bd else true) = true ->
  next_occurrence today bd
  = Some (if lt (mk_date (year today) (month bd) (day bd)) today
          then mk_date (year today + 1) (month bd) (day bd)
          else mk_date (year today) (month bd) (day bd)).
Proof.
  unfold occurs_in, next_occurrence. intros V1 V2.
  cbn [next_occurrence_from]. rewrite V1. unfold on_or_after.
  destruct (lt (mk_date (year today) (month bd) (day bd)) today); cbn.
  - rewrite V2, lt_next_year. reflexivity.
  - reflexivity.
Qed.

Lemma upcoming_step_usable (acc : list congrats) (c : ContactRecord) :
  birthday_usable today (birthday c) = true ->
  upcoming_step today acc c
  = Return (acc ++ entry_list (claimed_entry today c))%list.
Proof.
  unfold upcoming_step, claimed_entry, birthday_usable.
  destruct (birthday c) as [|s|f]; [| |discriminate].
  - intros _. cbn. now rewrite app_nil_r.
  - destruct s as [|ch s].
    + intros _. cbn. now rewrite app_nil_r.
    + cbn [birthday_truthy nonempty strptime_birthday birthday_date].
      destruct (strptime_dmY (String ch s)) as [bd|]; [|discriminate].
      intros U. apply andb_true_iff in U. destruct U as [V1 V2].
      rewrite (next_occurrence_code bd V1 V2).
      cbn [rbind]. unfold replace_year.
      rewrite (new_date_valid _ _ _ V1). cbn [rbind].
      destruct (lt (mk_date (year today) (month bd) (day bd)) today).
      * rewrite (new_date_valid _ _ _ V2). cbn [rbind].
        match goal with
        | |- context [if ?c then _ else Return acc] => destruct c
        end; [|cbn; now rewrite app_nil_r].
        rewrite (weekend_shift_code _ V2). reflexivity.
      * cbn [rbind].
        match goal with
        | |- context [if ?c then _ else Return acc] => destruct c
        end; [|cbn; now rewrite app_nil_r].
        rewrite (weekend_shift_code _ V1). reflexivity.
Qed.

Lemma upcoming_loop_usable (contacts : list ContactRecord) :
  forall acc,
    forallb (fun c => birthday_usable today (birthday c)) contacts = true ->
    upcoming_loop today acc contacts
    = Return (acc ++ claimed_upcoming today contacts)%list.
Proof.
  induction contacts as [|c rest IH]; intros acc U.
  - cbn. now rewrite app_nil_r.
  - cbn [forallb] in U. apply andb_true_iff in U. destruct U as [Uc Ur].
    cbn [upcoming_loop]. rewrite (upcoming_step_usable acc c Uc).
    cbn [rbind]. rewrite (IH _ Ur), claimed_upcoming_cons.
    now rewrite app_assoc.
Qed.

End Upcoming.

(** When every birthday of the book is unset or a text that [strptime]
    reads, with a month and day that exist in the year the loop looks
    at, the call returns, in the order of the book and for exactly the
    contacts whose next occurrence is 0 to 7 days after [today], the name
    with the occurrence moved to Monday when it falls on a Saturday or
    Sunday; it returns [None] when no contact qualifies. *)
Lemma get_upcoming_birthdays_usable :
  forall (today : date) (b : AddressBook),
    usable_book today b = true ->
    AddressBook_get_upcoming_birthdays today b
    = Return (match claimed_upcoming today (dict_values b) with
              | [] => None
              | l => Some l
              end).
Proof.
  intros today b U. unfold AddressBook_get_upcoming_birthdays.
  rewrite (upcoming_loop_usable today (dict_values b) [] U).
  cbn [rbind app].
  destruct (claimed_upcoming today (dict_values b)); reflexivity.
Qed.

(** Today is 10.06.2024; the birthday 15.06.1990 falls on a Saturday in
    2024 and is reported for Monday 17.06.2024. *)
Lemma get_upcoming_birthdays_example :
  let today := mk_date 2024 6 10 in
  let b := [("Bob", mk_Record (NStr "Bob") [] (BStr "15.06.1990"))] in
  usable_book today b = true
  /\ AddressBook_get_upcoming_birthdays today b
     = Return (Some [(NStr "Bob", "17.06.2024")]).
Proof.
  intros today b. split; [reflexivity|].
  rewrite (get_upcoming_birthdays_usable today b eq_refl). reflexivity.
Defined.

(** On 10.06.2023 Al's birthday 12.06.1990 is two days away, so Al is to
    be returned; with a second contact whose birthday is the text
    [soon], or 29.02.2000 (a day that 2023 does not have), the call
    raises and returns nothing. *)
Lemma get_upcoming_birthdays_raises :
  let today := mk_date 2023 6 10 in
  let al := mk_Record (NStr "Al") [] (BStr "12.06.1990") in
  let b1 := [("Al", al); ("Bob", mk_Record (NStr "Bob") [] (BStr "soon"))] in
  let b2 :=
    [("Al", al); ("Bob", mk_Record (NStr "Bob") [] (BStr "29.02.2000"))] in
  claimed_upcoming today (dict_values b1) = [(NStr "Al", "12.06.2023")]
  /\ claimed_upcoming today (dict_values b2) = [(NStr "Al", "12.06.2023")]
  /\ AddressBook_get_upcoming_birthdays today b1
     = Raise (mk_exn ValueError
                "time data 'soon' does not match format '%d.%m.%Y'")
  /\ AddressBook_get_upcoming_birthdays today b2
     = Raise (mk_exn ValueError "day is out of range for month").
Proof. repeat split. Qed.

(** *** Birthdays on the 29th of February *)

Lemma strptime_dmY_valid (s : string) (bd : date) :
  strptime_dmY s = Return bd -> valid bd = true.
Proof.
  unfold strptime_dmY.
  destruct (match_dmY s) as [[[[d m] y] rest]|]; [|discriminate].
  destruct (nonempty rest); [discriminate|].
  intros N. now apply new_date_Return in N.
Qed.

(** A month and day other than the 29th of February exist in every
    year. *)
Lemma occurs_in_plain (y : Z) (bd : date) :
  valid bd = true -> leap_day bd = false -> 1 <= y <= 9999 ->
  occurs_in y bd = true.
Proof.
  destruct bd as [yb m d]. unfold occurs_in, leap_day.
  cbn [year month day]. intros V L Hy.
  apply valid_fields in V. destruct V as (_ & Hm & Hd).
  apply valid_fields. split; [exact Hy|]. split; [exact Hm|].
  unfold days_in_month in *.
  destruct (m =? 2) eqn:E; cbn [andb] in *.
  - apply Z.eqb_eq in E. subst m. apply Z.eqb_neq in L.
    change (DAYS_IN_MONTH 2) with 28 in *.
    destruct (is_leap yb), (is_leap y); lia.
  - exact Hd.
Qed.

Lemma birthday_plain_usable (today : date) (v : birthday_val) :
  valid today = true -> year today < 9999 ->
  birthday_plain v = true -> birthday_usable today v = true.
Proof.
  intros V Y. destruct today as [y m d].
  apply valid_fields in V. destruct V as (Hy & _). cbn [year] in *.
  unfold birthday_plain, birthday_usable.
  destruct v as [|s|f]; trivial.
  destruct (nonempty s); trivial.
  destruct (strptime_dmY s) as [bd|] eqn:P; trivial.
  intros L. apply negb_true_iff in L. apply strptime_dmY_valid in P.
  cbn [year].
  rewrite (occurs_in_plain y bd P L) by lia.
  rewrite (occurs_in_plain (y + 1) bd P L) by lia.
  cbn [andb]. now destruct (lt _ _).
Qed.

Lemma forallb_plain_usable (today : date) (contacts : list ContactRecord) :
  valid today = true -> year today < 9999 ->
  forallb (fun c => birthday_plain (birthday c)) contacts = true ->
  forallb (fun c => birthday_usable today (birthday c)) contacts = true.
Proof.
  intros V Y H. apply forallb_forall. intros c Hin.
  apply birthday_plain_usable; trivial.
  now apply (proj1 (forallb_forall _ _) H).
Qed.

(** [date(y, 2, 29)] *)
Lemma new_date_leap_day (y : Z) :
  1 <= y <= 9999 ->
  new_date y 2 29
  = if is_leap y then Return (mk_date y 2 29)
    else Raise (mk_exn ValueError "day is out of range for month").
Proof.
  intros H. unfold new_date, check_date_fields, MINYEAR, MAXYEAR,
    days_in_month.
  replace ((1 <=? y) && (y <=? 9999)) with true
    by (symmetry; apply andb_true_iff; split; apply Z.leb_le; lia).
  change (2 =? 2) with true. change ((1 <=? 2) && (2 <=? 12)) with true.
  cbn [negb andb]. destruct (is_leap y); reflexivity.
Qed.

Lemma is_leap_next (y : Z) : is_leap y = true -> is_leap (y + 1) = false.
Proof.
  intros H. apply is_leap_mod in H. unfold is_leap.
  replace ((y + 1) mod 4 =? 0) with false
    by (symmetry; apply Z.eqb_neq; divmod).
  reflexivity.
Qed.

(** The turn of the loop for a contact born on a 29th of February:
    [replace] raises when the year it is given has no such day. *)
Lemma upcoming_step_leap_day (today : date) (acc : list congrats)
    (c : ContactRecord) (s : string) (bd : date) :
  valid today = true -> year today < 9999 ->
  birthday c = BStr s -> strptime_dmY s = Return bd ->
  leap_day bd = true ->
  is_leap (year today) = false
  \/ lt (mk_date (year today) 2 29) today = true ->
  upcoming_step today acc c
  = Raise (mk_exn ValueError "day is out of range for month").
Proof.
  intros V Y B P L D.
  assert (Hy : 1 <= year today <= 9999).
  { destruct today as [y m d]. now apply valid_fields in V. }
  unfold leap_day in L. apply andb_true_iff in L. destruct L as [Lm Ld].
  apply Z.eqb_eq in Lm. apply Z.eqb_eq in Ld.
  unfold upcoming_step. rewrite B.
  destruct s as [|ch s]; [discriminate P|].
  cbn [birthday_truthy nonempty strptime_birthday]. rewrite P.
  cbn [rbind]. unfold replace_year. rewrite Lm, Ld.
  rewrite (new_date_leap_day (year today)) by lia.
  destruct (is_leap (year today)) eqn:E.
  - destruct D as [D | D]; [discriminate D|].
    cbn [rbind]. rewrite D.
    rewrite (new_date_leap_day (year today + 1)) by lia.
    now rewrite (is_leap_next _ E).
  - reflexivity.
Qed.

(** C1.  [get_upcoming_birthdays] does not return what is stated for
    every book.  On a day [today] of the calendar before the year 9999:
    when every birthday of the book is unset or a text that reads as a
    date other than a 29th of February, the call returns, in the order
    of the book and for exactly the contacts whose next occurrence of
    the birthday is 0 to 7 days after [today], the name with that
    occurrence, moved to Monday from a Saturday or Sunday ([None] when
    there is none).  But a contact born on a 29th of February, after
    contacts of the first kind, makes the call raise [ValueError] and
    return nothing, unless [today] lies in a leap year on or before its
    29th of February: [replace(year=...)] is given a year without that
    day. *)
Theorem get_upcoming_birthdays_leap_day :
  forall (today : date) (b : AddressBook),
    valid today = true ->
    year today < 9999 ->
    (forallb (fun c => birthday_plain (birthday c)) (dict_values b) = true ->
     AddressBook_get_upcoming_birthdays today b
     = Return (match claimed_upcoming today (dict_values b) with
               | [] => None
               | l => Some l
               end))
    /\ (forall (before after : list ContactRecord) (c : ContactRecord)
               (s : string) (bd : date),
           dict_values b = (before ++ c :: after)%list ->
           forallb (fun c' => birthday_plain (birthday c')) before = true ->
           birthday c = BStr s ->
           strptime_dmY s = Return bd ->
           leap_day bd = true ->
           is_leap (year today) = false
           \/ lt (mk_date (year today) 2 29) today = true ->
           AddressBook_get_upcoming_birthdays today b
           = Raise (mk_exn ValueError "day is out of range for month")).
Proof.
  intros today b V Y. split.
  - intros U. apply get_upcoming_birthdays_usable.
    now apply forallb_plain_usable.
  - intros before after c s bd Hv U B P L D.
    apply (forallb_plain_usable today before V Y) in U.
    unfold AddressBook_get_upcoming_birthdays. rewrite Hv. clear Hv.
    generalize (@nil congrats) as acc.
    induction before as [|c0 rest IH]; intros acc.
    + cbn [app upcoming_loop].
      now rewrite (upcoming_step_leap_day today acc c s bd V Y B P L D).
    + cbn [forallb] in U. apply andb_true_iff in U. destruct U as [U0 Ur].
      cbn [app upcoming_loop].
      rewrite (upcoming_step_usable today acc c0 U0). cbn [rbind].
      apply (IH Ur).
Qed.

(** On 10.06.2023 Al, born on 12.06.1990, is two days from his birthday
    and is what the call is to return; it does so for the book that
    holds Al alone, and raises for the book that holds, after Al, Bob
    born on 29.02.2000. *)
Lemma get_upcoming_birthdays_leap_day_example :
  let today := mk_date 2023 6 10 in
  let al := mk_Record (NStr "Al") [] (BStr "12.06.1990") in
  let bob := mk_Record (NStr "Bob") [] (BStr "29.02.2000") in
  Birthday_init "29.02.2000" = Return (mk_Birthday (mk_date 2000 2 29))
  /\ claimed_upcoming today [al; bob] = [(NStr "Al", "12.06.2023")]
  /\ AddressBook_get_upcoming_birthdays today [("Al", al)]
     = Return (Some [(NStr "Al", "12.06.2023")])
  /\ AddressBook_get_upcoming_birthdays today [("Al", al); ("Bob", bob)]
     = Raise (mk_exn ValueError "day is out of range for month").
Proof.
  intros today al bob.
  split; [reflexivity|]. split; [reflexivity|]. split.
  - exact (proj1 (get_upcoming_birthdays_leap_day today [("Al", al)]
                    eq_refl eq_refl) eq_refl).
  - exact (proj2 (get_upcoming_birthdays_leap_day today
                    [("Al", al); ("Bob", bob)] eq_refl eq_refl)
             [al] [] bob "29.02.2000" (mk_date 2000 2 29)
             eq_refl eq_refl eq_refl eq_refl eq_refl (or_introl eq_refl)).
Defined.

(** [next_occurrence] is what its name says: a date of the calendar with
    the month and day of the birthday, on or after [today], and no
    earlier year from that of [today] on gives such a date. *)
Lemma next_occurrence_from_least (fuel : nat) :
  forall (y0 : Z) (today bd occ : date),
    next_occurrence_from fuel y0 today bd = Some occ ->
    valid occ = true
    /\ month occ = month bd /\ day occ = day bd
    /\ on_or_after occ today = true
    /\ y0 <= year occ
    /\ forall y, y0 <= y < year occ ->
         valid (mk_date y (month bd) (day bd))
         && on_or_after (mk_date y (month bd) (day bd)) today = false.
Proof.
  induction fuel as [|fuel IH]; intros y0 today bd occ H; [discriminate|].
  cbn [next_occurrence_from] in H.
  destruct (valid (mk_date y0 (month bd) (day bd))
            && on_or_after (mk_date y0 (month bd) (day bd)) today) eqn:E.
  - injection H as <-. apply andb_true_iff in E. destruct E as [E1 E2].
    cbn [year month day]. repeat split; trivial; try lia.
  - destruct (IH _ _ _ _ H) as (V & Hm & Hd & Ho & Hy & Hl).
    repeat split; trivial; try lia.
    intros y Hr. destruct (Z.eq_dec y y0) as [-> | Hne]; [exact E|].
    apply Hl. lia.
Qed.

Lemma upcoming_step_field (today : date) (acc : list congrats)
    (c : ContactRecord) (f : Birthday) :
  birthday c = BField f ->
  upcoming_step today acc c
  = Raise (mk_exn TypeError
             "strptime() argument 1 must be str, not Birthday").
Proof. intros B. unfold upcoming_step. rewrite B. reflexivity. Qed.

Lemma upcoming_loop_field (today : date) (contacts : list ContactRecord) :
  forall acc c f,
    In c contacts -> birthday c = BField f ->
    exists e, upcoming_loop today acc contacts = Raise e.
Proof.
  induction contacts as [|c0 rest IH]; intros acc c f Hin B; [destruct Hin|].
  cbn [upcoming_loop].
  destruct (upcoming_step today acc c0) as [acc'|e] eqn:S0.
  - destruct Hin as [-> | Hin].
    + rewrite (upcoming_step_field today acc c f B) in S0. discriminate S0.
    + cbn [rbind]. exact (IH acc' c f Hin B).
  - exists e. reflexivity.
Qed.

(** C2.  When some contact of the book holds a [Birthday] field as its
    birthday, [get_upcoming_birthdays] raises: the turn of the loop for
    that contact passes the field to [strptime], which takes a [str] and
    raises [TypeError]; that is the exception of the call when the
    contacts before it are usable, and otherwise an earlier turn has
    raised already. *)
Theorem get_upcoming_birthdays_field_raises :
  forall (today : date) (b : AddressBook) (c : ContactRecord) (f : Birthday),
    In c (dict_values b) ->
    birthday c = BField f ->
    (exists e, AddressBook_get_upcoming_birthdays today b = Raise e)
    /\ (forall acc,
           upcoming_step today acc c
           = Raise (mk_exn TypeError
                      "strptime() argument 1 must be str, not Birthday"))
    /\ (forall before after,
           dict_values b = (before ++ c :: after)%list ->
           forallb (fun c' => birthday_usable today (birthday c')) before
           = true ->
           AddressBook_get_upcoming_birthdays today b
           = Raise (mk_exn TypeError
                      "strptime() argument 1 must be str, not Birthday")).
Proof.
  intros today b c f Hin B. split; [|split].
  - unfold AddressBook_get_upcoming_birthdays.
    destruct (upcoming_loop_field today (dict_values b) [] c f Hin B)
      as [e ->].
    exists e. reflexivity.
  - intros acc. now apply upcoming_step_field with (f := f).
  - intros before after Hv U. unfold AddressBook_get_upcoming_birthdays.
    rewrite Hv. clear Hv Hin.
    generalize (@nil congrats) as acc.
    induction before as [|c0 rest IH]; intros acc.
    + cbn [app upcoming_loop].
      now rewrite (upcoming_step_field today acc c f B).
    + cbn [forallb] in U. apply andb_true_iff in U. destruct U as [U0 Ur].
      cbn [app upcoming_loop].
      rewrite (upcoming_step_usable today acc c0 U0). cbn [rbind].
      apply (IH Ur).
Qed.

Lemma get_upcoming_birthdays_field_example :
  let today := mk_date 2024 6 10 in
  let bob :=
    mk_Record (NStr "Bob") [] (BField (mk_Birthday (mk_date 1990 6 15))) in
  Birthday_init "15.06.1990" = Return (mk_Birthday (mk_date 1990 6 15))
  /\ exists e, AddressBook_get_upcoming_birthdays today [("Bob", bob)]
               = Raise e.
Proof.
  intros today bob. split; [reflexivity|].
  apply (get_upcoming_birthdays_field_raises today [("Bob", bob)] bob
           (mk_Birthday (mk_date 1990 6 15))).
  - left. reflexivity.
  - reflexivity.
Defined.

(** ** The invariant of the address book *)

Lemma keys_match_set (k : string) (v : ContactRecord) (d : AddressBook) :
  keys_match d -> name_str (name v) = k -> keys_match (dict_set k v d).
Proof.
  intros Hd Hv k0 v0 Hin. apply dict_set_In in Hin.
  destruct Hin as [Hin | [= -> ->]]; [now apply Hd | exact Hv].
Qed.

Lemma keys_match_del (k : string) (d : AddressBook) :
  keys_match d -> keys_match (dict_del k d).
Proof. intros Hd k0 v0 Hin. apply Hd. now apply dict_del_In in Hin. Qed.

Lemma keys_match_get (k : string) (d : AddressBook) (v : ContactRecord) :
  keys_match d -> dict_get k d = Some v -> name_str (name v) = k.
Proof. intros Hd Hg. apply Hd. now apply dict_get_In. Qed.

(** The decorator leaves the state as the handler's body left it. *)
Lemma input_error_state (func : M value) (w : World) :
  snd (input_error func w) = snd (func w).
Proof.
  unfold input_error. destruct (func w) as [[v|e] w']; [reflexivity|].
  destruct e as [[] msg]; reflexivity.
Qed.

Ltac unfold_monad :=
  cbv beta iota zeta delta
    [bind lift find get_book ret throw on_record put_book add_record
     new_Phone fresh AddressBook_find AddressBook_add_record].

Lemma edit_phone_from_name (oid : nat) (old new : string)
    (rest : list Phone) :
  forall (index : nat) (r : ContactRecord),
    name (snd (edit_phone_from oid old new index rest r)) = name r.
Proof.
  induction rest as [|p rest IH]; intros index r; cbn; [reflexivity|].
  destruct (String.eqb (phone_value p) old); [|apply IH].
  destruct (Phone_init oid new); reflexivity.
Qed.

Lemma add_contact_keys (args : list string) (w : World) :
  keys_match (book w) -> keys_match (book (snd (add_contact args w))).
Proof.
  intros K. unfold add_contact. rewrite input_error_state.
  unfold add_contact_body. unfold_monad.
  destruct (unpack2 args) as [[n phone]|e]; [|exact K].
  cbn.
  destruct (dict_get n (book w)) as [record|] eqn:G; cbn.
  - destruct (nonempty phone); cbn; [|exact K].
    destruct (Phone_init (next_id w) phone); cbn; [|exact K].
    apply keys_match_set; [exact K|]. cbn.
    now apply keys_match_get with (d := book w).
  - destruct (nonempty phone); cbn.
    + destruct (Phone_init (next_id w) phone); cbn.
      * apply keys_match_set; [|reflexivity].
        apply keys_match_set; [exact K|reflexivity].
      * apply keys_match_set; [exact K|reflexivity].
    + apply keys_match_set; [exact K|reflexivity].
Qed.

Lemma change_contact_keys (args : list string) (w : World) :
  keys_match (book w) -> keys_match (book (snd (change_contact args w))).
Proof.
  intros K. unfold change_contact. rewrite input_error_state.
  unfold change_contact_body. unfold_monad.
  destruct (unpack3 args) as [[[n old] new]|e]; [|exact K].
  cbn.
  destruct (dict_get n (book w)) as [record|] eqn:G; cbn; [|exact K].
  pose proof (edit_phone_from_name (next_id w) old new (phones record)
                0%nat record) as Hname.
  unfold Record_edit_phone.
  destruct (edit_phone_from (next_id w) old new 0 (phones record) record)
    as [res record'].
  cbn in Hname |- *.
  assert (K' : keys_match (dict_set n record' (book w))).
  { apply keys_match_set; [exact K|]. rewrite Hname.
    now apply keys_match_get with (d := book w). }
  destruct res; exact K'.
Qed.

Lemma show_phone_keys (args : list string) (w : World) :
  keys_match (book w) -> keys_match (book (snd (show_phone args w))).
Proof.
  intros K. unfold show_phone. rewrite input_error_state.
  unfold show_phone_body. unfold_monad.
  destruct args as [|n args]; [exact K|].
  destruct (dict_get n (book w)); exact K.
Qed.

Lemma show_all_keys (w : World) :
  keys_match (book w) -> keys_match (book (snd (show_all w))).
Proof.
  intros K. unfold show_all. rewrite input_error_state.
  unfold show_all_body. unfold_monad.
  destruct (book w) eqn:B; cbn; rewrite B; exact K.
Qed.

Lemma add_birthday_keys (args : list string) (w : World) :
  keys_match (book w) -> keys_match (book (snd (add_birthday args w))).
Proof.
  intros K. unfold add_birthday. rewrite input_error_state.
  unfold add_birthday_body. unfold_monad.
  destruct (unpack2 args) as [[n b]|e]; [|exact K].
  cbn.
  destruct (dict_get n (book w)) as [record|] eqn:G; cbn; [|exact K].
  apply keys_match_set; [exact K|]. cbn.
  now apply keys_match_get with (d := book w).
Qed.

Lemma show_birthday_keys (args : list string) (w : World) :
  keys_match (book w) -> keys_match (book (snd (show_birthday args w))).
Proof.
  intros K. unfold show_birthday. rewrite input_error_state.
  unfold show_birthday_body. unfold_monad.
  destruct (unpack_first args) as [n|e]; [|exact K].
  cbn. destruct (dict_get n (book w)); exact K.
Qed.

Lemma show_all_birthdays_keys (today : date) (w : World) :
  keys_match (book w) ->
  keys_match (book (snd (show_all_birthdays today w))).
Proof.
  intros K. unfold show_all_birthdays. rewrite input_error_state.
  unfold show_all_birthdays_body. unfold_monad.
  destruct (book w) eqn:B; cbn; [rewrite B; exact K|].
  destruct (AddressBook_get_upcoming_birthdays today (p :: a))
    as [[l|]|e]; cbn; rewrite B; exact K.
Qed.

(** C8.  In every state that [add_record], [delete] and the command
    handlers produce from the empty book, each record is stored under the
    text of its own name. *)
Theorem reachable_keys_match :
  forall w : World,
    reachable w ->
    forall (k : string) (r : ContactRecord),
      In (k, r) (book w) -> name_str (name r) = k.
Proof.
  intros w R. change (keys_match (book w)).
  induction R as
    [ n | w record R IH | w n R IH | w args R IH | w args R IH
    | w args R IH | w R IH | w args R IH | w args R IH | w today R IH ].
  - intros k r [].
  - cbn. now apply keys_match_set.
  - unfold AddressBook_delete.
    destruct (dict_contains n (book w)); cbn;
      [now apply keys_match_del | exact IH].
  - now apply add_contact_keys.
  - now apply change_contact_keys.
  - now apply show_phone_keys.
  - now apply show_all_keys.
  - now apply add_birthday_keys.
  - now apply show_birthday_keys.
  - now apply show_all_birthdays_keys.
Qed.

Lemma reachable_keys_match_example :
  let w0 := mk_World [] 0 in
  let w1 := snd (add_contact ["Bob"; "1234567890"] w0) in
  let w2 := mk_World
              (snd (AddressBook_add_record
                      (mk_Record (NName "Al") [] BNone) (book w1)))
              (next_id w1) in
  let w3 := snd (add_birthday ["Bob"; "15.06.1990"] w2) in
  let bob := mk_Record (NStr "Bob") [mk_Phone 0 "1234567890"]
                       (BStr "15.06.1990") in
  reachable w3 /\ In ("Bob", bob) (book w3) /\ name_str (name bob) = "Bob".
Proof.
  intros w0 w1 w2 w3 bob.
  assert (R : reachable w3).
  { apply reach_add_birthday. apply reach_add_record.
    apply reach_add_contact. apply reach_empty. }
  assert (I : In ("Bob", bob) (book w3)) by (left; reflexivity).
  split; [exact R|]. split; [exact I|].
  exact (reachable_keys_match w3 R "Bob" bob I).
Defined.

(** ** No exception escapes a handler *)

Lemma ordinary_Return {A : Type} (a : A) : ordinary (Return a).
Proof. intros e H. discriminate H. Qed.

Lemma ordinary_Raise {A : Type} (e : exn) :
  is_Exception (exn_cls e) = true -> ordinary (@Raise A e).
Proof. intros H e' [= <-]. exact H. Qed.

Lemma ordinary_rbind {A B : Type} (r : result A) (k : A -> result B) :
  ordinary r -> (forall a, ordinary (k a)) -> ordinary (rbind r k).
Proof.
  intros Hr Hk. destruct r as [a|e]; cbn; [apply Hk|].
  apply ordinary_Raise. now apply Hr.
Qed.

Create HintDb ordinary.
#[local] Hint Resolve ordinary_Return ordinary_Raise : ordinary.

Lemma ordinary_check_date_fields (y m d : Z) :
  ordinary (check_date_fields y m d).
Proof.
  unfold check_date_fields.
  repeat match goal with
         | |- ordinary (if ?c then _ else _) => destruct c
         end; auto with ordinary.
Qed.

Lemma ordinary_new_date (y m d : Z) : ordinary (new_date y m d).
Proof.
  unfold new_date. pose proof (ordinary_check_date_fields y m d) as H.
  destruct (check_date_fields y m d); auto with ordinary.
Qed.

Lemma ordinary_strptime_dmY (s : string) : ordinary (strptime_dmY s).
Proof.
  unfold strptime_dmY.
  destruct (match_dmY s) as [[[[d m] y] rest]|]; auto with ordinary.
  destruct (nonempty rest); auto using ordinary_new_date with ordinary.
Qed.

Lemma ordinary_strptime_birthday (v : birthday_val) :
  ordinary (strptime_birthday v).
Proof.
  destruct v; cbn; auto using ordinary_strptime_dmY with ordinary.
Qed.

Lemma ordinary_add_days (dt : date) (n : Z) : ordinary (add_days dt n).
Proof.
  unfold add_days.
  destruct ((0 <? toordinal dt + n) && (toordinal dt + n <=? MAXORDINAL));
    auto with ordinary.
Qed.

Lemma ordinary_upcoming_step (today : date) (acc : list congrats)
    (c : ContactRecord) :
  ordinary (upcoming_step today acc c).
Proof.
  unfold upcoming_step.
  destruct (birthday_truthy (birthday c)); auto with ordinary.
  apply ordinary_rbind; [apply ordinary_strptime_birthday|]. intros bd.
  apply ordinary_rbind; [apply ordinary_new_date|]. intros this_year.
  apply ordinary_rbind.
  { destruct (lt this_year today);
      [apply ordinary_new_date | auto with ordinary]. }
  intros occ.
  match goal with |- ordinary (if ?c then _ else _) => destruct c end;
    auto with ordinary.
  apply ordinary_rbind; [|auto with ordinary].
  destruct (weekday occ =? 5); [apply ordinary_add_days|].
  destruct (weekday occ =? 6); [apply ordinary_add_days|].
  auto with ordinary.
Qed.

Lemma ordinary_upcoming_loop (today : date) (contacts : list ContactRecord) :
  forall acc, ordinary (upcoming_loop today acc contacts).
Proof.
  induction contacts as [|c rest IH]; intros acc; cbn;
    [auto with ordinary|].
  apply ordinary_rbind; [apply ordinary_upcoming_step | intros; apply IH].
Qed.

Lemma ordinary_get_upcoming_birthdays (today : date) (b : AddressBook) :
  ordinary (AddressBook_get_upcoming_birthdays today b).
Proof.
  unfold AddressBook_get_upcoming_birthdays.
  apply ordinary_rbind; [apply ordinary_upcoming_loop|]. intros l.
  destruct (0 <? Z.of_nat (List.length l)); auto with ordinary.
Qed.

Lemma ordinary_unpack2 (args : list string) : ordinary (unpack2 args).
Proof.
  destruct args as [|a [|b [|c rest]]]; cbn; auto with ordinary.
Qed.

Lemma ordinary_unpack3 (args : list string) : ordinary (unpack3 args).
Proof.
  destruct args as [|a [|b [|c [|d rest]]]]; cbn; auto with ordinary.
Qed.

Lemma ordinary_unpack_first (args : list string) :
  ordinary (unpack_first args).
Proof. destruct args; cbn; auto with ordinary. Qed.

Lemma ordinary_Phone_init (oid : nat) (s : string) :
  ordinary (Phone_init oid s).
Proof.
  unfold Phone_init. destruct (re_match phone_pattern s); auto with ordinary.
Qed.

Lemma ordinary_edit_phone_from (oid : nat) (old new : string)
    (rest : list Phone) :
  forall (index : nat) (r : ContactRecord),
    ordinary (fst (edit_phone_from oid old new index rest r)).
Proof.
  induction rest as [|p rest IH]; intros index r; cbn;
    [auto with ordinary|].
  destruct (String.eqb (phone_value p) old); [|apply IH].
  pose proof (ordinary_Phone_init oid new) as H.
  destruct (Phone_init oid new); cbn; auto with ordinary.
Qed.

(** What the decorator does with a body that raises ordinary exceptions
    only: it returns. *)
Lemma input_error_returns (func : M value) (w : World) :
  ordinary (fst (func w)) -> raised (fst (input_error func w)) = false.
Proof.
  unfold input_error. destruct (func w) as [[v|e] w']; cbn;
    [reflexivity|].
  intros H. specialize (H e eq_refl).
  destruct e as [[] msg]; cbn in *; (reflexivity || discriminate H).
Qed.

Lemma add_contact_returns (args : list string) (w : World) :
  raised (fst (add_contact args w)) = false.
Proof.
  apply input_error_returns. unfold add_contact_body. unfold_monad.
  pose proof (ordinary_unpack2 args) as U.
  destruct (unpack2 args) as [[n phone]|e]; [|cbn [fst]; apply ordinary_Raise; exact (U e eq_refl)].
  destruct (dict_get n (book w)) as [record|];
    destruct (nonempty phone); cbn; auto with ordinary;
    match goal with
    | |- context [Phone_init ?i ?s] =>
        pose proof (ordinary_Phone_init i s) as P;
        destruct (Phone_init i s); cbn; auto with ordinary
    end.
Qed.

Lemma change_contact_returns (args : list string) (w : World) :
  raised (fst (change_contact args w)) = false.
Proof.
  apply input_error_returns. unfold change_contact_body. unfold_monad.
  pose proof (ordinary_unpack3 args) as U.
  destruct (unpack3 args) as [[[n old] new]|e]; [|cbn [fst]; apply ordinary_Raise; exact (U e eq_refl)].
  destruct (dict_get n (book w)) as [record|]; cbn;
    [|apply ordinary_Raise; reflexivity].
  unfold Record_edit_phone.
  pose proof (ordinary_edit_phone_from (next_id w) old new (phones record)
                0%nat record) as E.
  destruct (edit_phone_from (next_id w) old new 0 (phones record) record)
    as [[text|e] record']; cbn in *; auto with ordinary.
Qed.

Lemma show_phone_returns (args : list string) (w : World) :
  raised (fst (show_phone args w)) = false.
Proof.
  apply input_error_returns. unfold show_phone_body. unfold_monad.
  destruct args as [|n args]; cbn; [apply ordinary_Raise; reflexivity|].
  destruct (dict_get n (book w)); cbn; auto with ordinary.
Qed.

Lemma show_all_returns (w : World) :
  raised (fst (show_all w)) = false.
Proof.
  apply input_error_returns. unfold show_all_body. unfold_monad.
  destruct (book w); cbn; auto with ordinary.
Qed.

Lemma add_birthday_returns (args : list string) (w : World) :
  raised (fst (add_birthday args w)) = false.
Proof.
  apply input_error_returns. unfold add_birthday_body. unfold_monad.
  pose proof (ordinary_unpack2 args) as U.
  destruct (unpack2 args) as [[n b]|e]; [|cbn [fst]; apply ordinary_Raise; exact (U e eq_refl)].
  destruct (dict_get n (book w)); cbn; auto with ordinary.
Qed.

Lemma show_birthday_returns (args : list string) (w : World) :
  raised (fst (show_birthday args w)) = false.
Proof.
  apply input_error_returns. unfold show_birthday_body. unfold_monad.
  pose proof (ordinary_unpack_first args) as U.
  destruct (unpack_first args) as [n|e]; [|cbn [fst]; apply ordinary_Raise; exact (U e eq_refl)].
  destruct (dict_get n (book w)); cbn; auto with ordinary.
Qed.

Lemma show_all_birthdays_returns (today : date) (w : World) :
  raised (fst (show_all_birthdays today w)) = false.
Proof.
  apply input_error_returns. unfold show_all_birthdays_body. unfold_monad.
  destruct (book w) as [|p a]; cbn; auto with ordinary.
  pose proof (ordinary_get_upcoming_birthdays today (p :: a)) as G.
  destruct (AddressBook_get_upcoming_birthdays today (p :: a)) as [[l|]|e];
    cbn; auto with ordinary.
Qed.

(** ** [parse_input] and the loop of [main] *)

Lemma split_loop_nil (s : string) :
  forall (cur : string) (acc : list string),
    split_loop s cur acc = [] ->
    cur = EmptyString /\ acc = [] /\ lstrip s = EmptyString.
Proof.
  induction s as [|c s IH]; intros cur acc H; cbn in H.
  - destruct cur; cbn in H.
    + destruct acc; [auto|].
      cbn in H. now destruct (rev acc).
    + exfalso. now destruct (rev acc).
  - cbn [lstrip]. destruct (is_space c).
    + destruct (IH _ _ H) as (_ & Hf & Hs).
      destruct cur; cbn in Hf; [auto|discriminate Hf].
    + destruct (IH _ _ H) as (Hc & _). discriminate Hc.
Qed.

Lemma parse_input_returns (user_input : string) :
  raised (parse_input user_input) = false.
Proof.
  unfold parse_input.
  destruct (nonempty (strip user_input)) eqn:E; [|reflexivity].
  cbn [negb]. destruct (split user_input) eqn:S; [|reflexivity].
  apply split_loop_nil in S. destruct S as (_ & _ & S).
  unfold strip in E. rewrite S in E. discriminate E.
Qed.

Lemma returns_value {A : Type} (r : result A) :
  raised r = false -> exists a, r = Return a.
Proof. destruct r; [eexists; reflexivity | discriminate]. Qed.

(** A handler that returns, followed by the [print] of its value. *)
Lemma bind_returns (handler : M value) (w : World) :
  raised (fst (handler w)) = false ->
  exists text w',
    (v <- handler ;; ret (Continue, value_str v)) w
    = (Return (Continue, text), w').
Proof.
  unfold bind, ret. destruct (handler w) as [[v|e] w']; cbn;
    [|discriminate].
  intros _. eexists. eexists. reflexivity.
Qed.

Lemma main_turn_returns (today : date) (user_input : string) (w : World) :
  exists text w',
    main_turn today user_input w
    = (Return (if is_exit_line user_input then Break else Continue, text),
       w').
Proof.
  unfold main_turn, is_exit_line.
  pose proof (parse_input_returns user_input) as P.
  unfold bind at 1. unfold lift.
  destruct (parse_input user_input) as [[|command args]|e];
    [| |discriminate P].
  - eexists. eexists. reflexivity.
  - destruct (String.eqb command "close" || String.eqb command "exit");
      [eexists; eexists; reflexivity|].
    repeat match goal with
           | |- context [if String.eqb command ?c then _ else _] =>
               destruct (String.eqb command c)
           end;
      first
        [ eexists; eexists; reflexivity
        | apply bind_returns;
          first [ apply add_contact_returns | apply change_contact_returns
                | apply show_phone_returns | apply show_all_returns
                | apply add_birthday_returns | apply show_birthday_returns
                | apply show_all_birthdays_returns ] ].
Qed.

Lemma main_loop_runs (events : list event) :
  forall (w : World) (out : list string),
    match main_loop events w out with
    | Finished _ _ => existsb is_exit_line (map ev_line events) = true
    | Crashed e _ out' =>
        e = input_at_end
        /\ existsb is_exit_line (map ev_line events) = false
        /\ List.length out' = (List.length out + List.length events)%nat
    end.
Proof.
  induction events as [|ev rest IH]; intros w out; cbn [main_loop].
  - cbn. repeat split. lia.
  - destruct (main_turn_returns (ev_today ev) (ev_line ev) w)
      as (text & w' & ->).
    cbn [map existsb].
    destruct (is_exit_line (ev_line ev)); [reflexivity|].
    specialize (IH w' (out ++ [text])%list).
    destruct (main_loop rest w' (out ++ [text])); trivial.
    destruct IH as (IH0 & IH1 & IH2). split; [exact IH0|].
    split; [exact IH1|].
    rewrite IH2, length_app. cbn. lia.
Qed.

(** The loop of [main] is left without [close] or [exit]: when the input
    has no further line, [input()] raises [EOFError] outside every
    handler and the exception ends the run.  Here the two lines are
    answered and the third call of [input()] finds the end of the
    input. *)
Lemma main_ends_at_end_of_input :
  existsb is_exit_line ["hello"; "phone"] = false
  /\ main (mk_World [] 0)
       [mk_event (mk_date 2024 6 10) "hello";
        mk_event (mk_date 2024 6 10) "phone"]
     = Crashed (mk_exn EOFError "EOF when reading a line") (mk_World [] 0)
         ["Welcome to the assistant bot!";
          colored_info ("How can I help you?" ++ Fore.RESET);
          colored_error "No contact name provided."]
  /\ is_Exception EOFError = true.
Proof. repeat split. Qed.

(** C7.  Each decorated handler returns a value on every
    argument list and every state: no exception leaves it.  So no line
    that is read stops the loop of [main] other than the command [close]
    or [exit]: a run over the lines of the input is left through [break]
    only when one of the lines was [close] or [exit]; otherwise every
    line is answered with one text and the run ends with the [EOFError]
    that [input()] raises at the end of the input, which no handler
    catches. *)
Theorem handlers_return_and_input_ends :
  (forall args w, exists v, fst (add_contact args w) = Return v)
  /\ (forall args w, exists v, fst (change_contact args w) = Return v)
  /\ (forall args w, exists v, fst (show_phone args w) = Return v)
  /\ (forall w, exists v, fst (show_all w) = Return v)
  /\ (forall args w, exists v, fst (add_birthday args w) = Return v)
  /\ (forall args w, exists v, fst (show_birthday args w) = Return v)
  /\ (forall today w, exists v, fst (show_all_birthdays today w) = Return v)
  /\ (forall today line w, exists step text w',
         main_turn today line w = (Return (step, text), w'))
  /\ (forall loaded events,
         match main loaded events with
         | Finished _ _ =>
             existsb is_exit_line (map ev_line events) = true
         | Crashed e _ out =>
             e = input_at_end
             /\ existsb is_exit_line (map ev_line events) = false
             /\ List.length out = S (List.length events)
         end).
Proof.
  repeat split; intros.
  - apply returns_value, add_contact_returns.
  - apply returns_value, change_contact_returns.
  - apply returns_value, show_phone_returns.
  - apply returns_value, show_all_returns.
  - apply returns_value, add_birthday_returns.
  - apply returns_value, show_birthday_returns.
  - apply returns_value, show_all_birthdays_returns.
  - destruct (main_turn_returns today line w) as (text & w' & E).
    eexists. exists text, w'. exact E.
  - unfold main. apply main_loop_runs.
Qed.

(* ================================================================== *)
(** * Further properties *)

(** ** [datetime]: ordinals and dates *)

Lemma forallb_zrange (f : Z -> bool) (len : nat) :
  forall lo,
    forallb f (zrange lo len) = true ->
    forall x, lo <= x < lo + Z.of_nat len -> f x = true.
Proof.
  induction len as [|len IH]; intros lo F x H; [lia|].
  cbn [zrange forallb] in F. apply andb_true_iff in F. destruct F as [F0 F].
  destruct (Z.eq_dec x lo) as [-> | Hne]; [exact F0|].
  apply (IH (lo + 1) F). lia.
Qed.

Lemma month_day_table (leapyear : bool) :
  forallb (month_day_ok leapyear) (zrange 0 365) = true.
Proof. destruct leapyear; vm_compute; reflexivity. Qed.

Lemma month_day_spec (leapyear : bool) (n : Z) :
  0 <= n <= 364 -> month_day_ok leapyear n = true.
Proof.
  intros H. apply (forallb_zrange _ 365 0 (month_day_table leapyear)). lia.
Qed.

Lemma days_before_year_parts (a b c e : Z) :
  0 <= b <= 3 -> 0 <= c <= 24 -> 0 <= e <= 3 ->
  days_before_year (400 * a + 100 * b + 4 * c + e + 1)
  = 146097 * a + 36524 * b + 1461 * c + 365 * e.
Proof.
  intros Hb Hc He. unfold days_before_year. cbv zeta.
  replace (400 * a + 100 * b + 4 * c + e + 1 - 1)
    with (400 * a + 100 * b + 4 * c + e) by lia.
  set (p := 400 * a + 100 * b + 4 * c + e).
  assert (H4 : p / 4 = 100 * a + 25 * b + c)
    by (symmetry; apply (Z.div_unique p 4 _ e); subst p; lia).
  assert (H100 : p / 100 = 4 * a + b)
    by (symmetry; apply (Z.div_unique p 100 _ (4 * c + e)); subst p; lia).
  assert (H400 : p / 400 = a)
    by (symmetry; apply (Z.div_unique p 400 _ (100 * b + 4 * c + e));
        subst p; lia).
  rewrite H4, H100, H400. subst p. lia.
Qed.

Lemma is_leap_parts (a b c e : Z) :
  0 <= b <= 3 -> 0 <= c <= 24 -> 0 <= e <= 3 ->
  is_leap (400 * a + 100 * b + 4 * c + e + 1)
  = (e =? 3) && (negb (c =? 24) || (b =? 3)).
Proof.
  intros Hb Hc He. unfold is_leap.
  set (Y := 400 * a + 100 * b + 4 * c + e + 1).
  assert (M4 : Y mod 4 = 0 <-> e = 3) by (subst Y; divmod).
  assert (M100 : Y mod 100 = 0 <-> c = 24 /\ e = 3) by (subst Y; divmod).
  assert (M400 : Y mod 400 = 0 <-> b = 3 /\ c = 24 /\ e = 3)
    by (subst Y; divmod).
  destruct (Z.eqb_spec (Y mod 4) 0); destruct (Z.eqb_spec (Y mod 100) 0);
    destruct (Z.eqb_spec (Y mod 400) 0);
    destruct (Z.eqb_spec e 3); destruct (Z.eqb_spec c 24);
    destruct (Z.eqb_spec b 3); cbn [andb orb negb];
    try reflexivity; exfalso; tauto.
Qed.

Lemma month_day_fields (leapyear : bool) (n : Z) :
  0 <= n <= 364 ->
  let m := fst (month_day n leapyear) in
  let d := snd (month_day n leapyear) in
  1 <= m <= 12
  /\ 1 <= d <= (if (m =? 2) && leapyear then 29 else DAYS_IN_MONTH m)
  /\ DAYS_BEFORE_MONTH m + (if (2 <? m) && leapyear then 1 else 0) + d
     = n + 1.
Proof.
  intros H. pose proof (month_day_spec leapyear n H) as S.
  unfold month_day_ok in S. destruct (month_day n leapyear) as [m d].
  cbn [fst snd].
  repeat (apply andb_true_iff in S; destruct S as [S ?]).
  repeat match goal with
         | X : (_ <=? _) = true |- _ => apply Z.leb_le in X
         | X : (_ =? _) = true |- _ => apply Z.eqb_eq in X
         end.
  lia.
Qed.

Lemma ord2ymd_correct (n : Z) :
  1 <= n ->
  let dt := ord2ymd n in
  1 <= year dt
  /\ 1 <= month dt <= 12
  /\ 1 <= day dt <= days_in_month (year dt) (month dt)
  /\ toordinal dt = n.
Proof.
  intros Hn. unfold ord2ymd. cbv zeta.
  pose proof (Z.div_mod (n - 1) 146097 ltac:(lia)) as E1.
  pose proof (Z.mod_pos_bound (n - 1) 146097 ltac:(lia)) as B1.
  assert (A0 : 0 <= (n - 1) / 146097) by (apply Z.div_pos; lia).
  set (a := (n - 1) / 146097) in *. set (r1 := (n - 1) mod 146097) in *.
  clearbody a r1.
  pose proof (Z.div_mod r1 36524 ltac:(lia)) as E2.
  pose proof (Z.mod_pos_bound r1 36524 ltac:(lia)) as B2.
  set (b := r1 / 36524) in *. set (r2 := r1 mod 36524) in *.
  clearbody b r2.
  pose proof (Z.div_mod r2 1461 ltac:(lia)) as E3.
  pose proof (Z.mod_pos_bound r2 1461 ltac:(lia)) as B3.
  set (c := r2 / 1461) in *. set (r3 := r2 mod 1461) in *.
  clearbody c r3.
  pose proof (Z.div_mod r3 365 ltac:(lia)) as E4.
  pose proof (Z.mod_pos_bound r3 365 ltac:(lia)) as B4.
  set (e := r3 / 365) in *. set (r4 := r3 mod 365) in *.
  clearbody e r4.
  assert (Hb : 0 <= b <= 4) by lia.
  assert (Hc : 0 <= c <= 24) by lia.
  assert (He : 0 <= e <= 4) by lia.
  destruct (Z.eqb_spec e 4) as [He4 | He4];
    [|destruct (Z.eqb_spec b 4) as [Hb4 | Hb4]]; cbn [orb year month day].
  - (* the last day of a fourth year *)
    assert (Hc' : c <= 23) by lia.
    assert (Hb' : b <= 3) by lia.
    replace (a * 400 + 1 + b * 100 + c * 4 + e - 1)
      with (400 * a + 100 * b + 4 * c + 3 + 1) by lia.
    unfold toordinal, ymd2ord, days_in_month, days_before_month.
    cbn [year month day].
    rewrite is_leap_parts, days_before_year_parts by lia.
    replace (c =? 24) with false by (symmetry; apply Z.eqb_neq; lia).
    change (12 =? 2) with false. change (2 <? 12) with true.
    change (3 =? 3) with true. cbn [andb orb negb].
    change (DAYS_IN_MONTH 12) with 31.
    change (DAYS_BEFORE_MONTH 12) with 334. lia.
  - (* the last day of a fourth century *)
    replace (a * 400 + 1 + b * 100 + c * 4 + e - 1)
      with (400 * a + 100 * 3 + 4 * 24 + 3 + 1) by lia.
    unfold toordinal, ymd2ord, days_in_month, days_before_month.
    cbn [year month day].
    rewrite is_leap_parts, days_before_year_parts by lia.
    change (12 =? 2) with false. change (2 <? 12) with true.
    change (3 =? 3) with true. change (24 =? 24) with true.
    cbn [andb orb negb].
    change (DAYS_IN_MONTH 12) with 31.
    change (DAYS_BEFORE_MONTH 12) with 334. lia.
  - assert (Hb' : 0 <= b <= 3) by lia.
    assert (He' : 0 <= e <= 3) by lia.
    replace (a * 400 + 1 + b * 100 + c * 4 + e)
      with (400 * a + 100 * b + 4 * c + e + 1) by lia.
    rewrite <- (is_leap_parts a b c e Hb' Hc He').
    set (Y := 400 * a + 100 * b + 4 * c + e + 1).
    pose proof (month_day_fields (is_leap Y) r4 ltac:(lia)) as M.
    unfold month_day in M. cbv zeta in M.
    match goal with
    | |- context [if ?t then _ else _] => destruct t
    end; cbn [fst snd year month day] in M |- *;
      destruct M as (M1 & M2 & M3);
      unfold toordinal, ymd2ord, days_in_month, days_before_month;
      cbn [year month day]; subst Y;
      rewrite days_before_year_parts by lia; lia.
Qed.

Lemma days_before_year_10000 (y : Z) :
  10000 <= y -> 3652059 <= days_before_year y.
Proof. intros H. unfold days_before_year. cbv zeta. divmod. Qed.

Lemma DAYS_BEFORE_MONTH_nonneg (m : Z) :
  1 <= m <= 12 -> 0 <= DAYS_BEFORE_MONTH m.
Proof.
  intros H.
  destruct (month_cases m H)
    as [-> | [-> | [-> | [-> | [-> | [-> | [-> | [-> | [-> | [-> | [-> | ->
       ]]]]]]]]]]]; cbn; lia.
Qed.

(** [date.fromordinal] and [toordinal] are inverse on the ordinals of the
    calendar, and [fromordinal] gives dates of the calendar. *)
Lemma fromordinal_valid (n : Z) :
  1 <= n <= MAXORDINAL ->
  valid (fromordinal n) = true /\ toordinal (fromordinal n) = n.
Proof.
  intros [H1 H2]. unfold fromordinal.
  destruct (ord2ymd_correct n H1) as (Hy & Hm & Hd & Ho).
  split; [|exact Ho].
  destruct (ord2ymd n) as [y m d]. cbn [year month day] in *.
  apply valid_fields. repeat split; try lia.
  destruct (Z_le_gt_dec y 9999) as [Hle | Hgt]; [exact Hle|].
  exfalso. unfold toordinal, ymd2ord, days_before_month, MAXORDINAL in *.
  cbn [year month day] in Ho.
  pose proof (days_before_year_10000 y ltac:(lia)).
  pose proof (DAYS_BEFORE_MONTH_nonneg m Hm).
  destruct ((2 <? m) && is_leap y); lia.
Qed.

Lemma digit_char_digit (k : Z) :
  0 <= k <= 9 ->
  is_digit (digit_char k) = true /\ digit_value (digit_char k) = k.
Proof.
  intros H.
  assert (C : k = 0 \/ k = 1 \/ k = 2 \/ k = 3 \/ k = 4 \/ k = 5 \/ k = 6
              \/ k = 7 \/ k = 8 \/ k = 9) by lia.
  destruct C as [-> | [-> | [-> | [-> | [-> | [-> | [-> | [-> | [-> | ->
    ]]]]]]]]]; split; reflexivity.
Qed.

Lemma zpad_2_digits (n : Z) :
  0 <= n <= 99 ->
  zpad 2 n
  = String (digit_char (n / 10)) (String (digit_char (n mod 10)) EmptyString).
Proof.
  intros H. cbn [zpad append].
  replace ((n / 10) mod 10) with (n / 10) by divmod. reflexivity.
Qed.

Lemma zpad_4_digits (n : Z) :
  0 <= n <= 9999 ->
  zpad 4 n
  = String (digit_char (n / 1000))
      (String (digit_char (n / 100 mod 10))
         (String (digit_char (n / 10 mod 10))
            (String (digit_char (n mod 10)) EmptyString))).
Proof.
  intros H. cbn [zpad append].
  replace (n / 10 / 10 / 10 mod 10) with (n / 1000) by divmod.
  replace (n / 10 / 10 mod 10) with (n / 100 mod 10) by divmod.
  reflexivity.
Qed.

(** From the year 1000 on [strftime] writes the four digits of the
    year; before, it writes fewer. *)
Lemma drop_zeros_zpad_4 (n : Z) :
  1000 <= n <= 9999 -> drop_zeros (zpad 4 n) = zpad 4 n.
Proof.
  intros H. rewrite zpad_4_digits by lia.
  assert (C : n / 1000 = 1 \/ n / 1000 = 2 \/ n / 1000 = 3 \/ n / 1000 = 4
              \/ n / 1000 = 5 \/ n / 1000 = 6 \/ n / 1000 = 7
              \/ n / 1000 = 8 \/ n / 1000 = 9) by divmod.
  destruct C as [-> | [-> | [-> | [-> | [-> | [-> | [-> | [-> | ->]]]]]]]];
    reflexivity.
Qed.

Lemma drop_zeros_length (s : string) :
  (String.length (drop_zeros s) <= String.length s)%nat.
Proof.
  induction s as [|c s IH]; cbn [drop_zeros]; [lia|].
  destruct (Ascii.eqb c "0" && nonempty s); cbn [String.length]; lia.
Qed.

Lemma drop_zeros_zpad_4_short (n : Z) :
  0 <= n < 1000 -> (String.length (drop_zeros (zpad 4 n)) <= 3)%nat.
Proof.
  intros H. rewrite zpad_4_digits by lia.
  replace (n / 1000) with 0 by divmod.
  change (digit_char 0) with "0"%char.
  match goal with
  | |- context [drop_zeros (String "0" ?s)] =>
      change (drop_zeros (String "0" s)) with (drop_zeros s);
      pose proof (drop_zeros_length s) as L
  end.
  cbn [String.length] in L. lia.
Qed.

(** What [strftime] writes for a date from the year 1000 on, [strptime]
    reads back. *)
Lemma strptime_strftime (dt : date) :
  valid dt = true -> 1000 <= year dt ->
  strptime_dmY (strftime_dmY dt) = Return dt.
Proof.
  destruct dt as [y m d]. intros V Y1000. cbn [year] in Y1000.
  pose proof V as F. apply valid_fields in F. destruct F as (Hy & Hm & Hd).
  pose proof (days_in_month_le_31 y m) as Hd31.
  unfold strftime_dmY. cbn [year month day].
  rewrite drop_zeros_zpad_4 by lia.
  rewrite (zpad_2_digits d), (zpad_2_digits m), (zpad_4_digits y) by lia.
  cbn [append].
  destruct (digit_char_digit (d / 10)) as [D1 D1v]; [divmod|].
  destruct (digit_char_digit (d mod 10)) as [D2 D2v]; [divmod|].
  destruct (digit_char_digit (m / 10)) as [M1 M1v]; [divmod|].
  destruct (digit_char_digit (m mod 10)) as [M2 M2v]; [divmod|].
  destruct (digit_char_digit (y / 1000)) as [Y1 Y1v]; [divmod|].
  destruct (digit_char_digit (y / 100 mod 10)) as [Y2 Y2v]; [divmod|].
  destruct (digit_char_digit (y / 10 mod 10)) as [Y3 Y3v]; [divmod|].
  destruct (digit_char_digit (y mod 10)) as [Y4 Y4v]; [divmod|].
  destruct (strptime_dmY_text _ _ _ _ _ _ _ _ D1 D2 M1 M2 Y1 Y2 Y3 Y4)
    as [Hok _].
  rewrite D1v, D2v, M1v, M2v, Y1v, Y2v, Y3v, Y4v in Hok.
  replace (10 * (d / 10) + d mod 10) with d in Hok by divmod.
  replace (10 * (m / 10) + m mod 10) with m in Hok by divmod.
  replace (1000 * (y / 1000) + 100 * (y / 100 mod 10)
           + 10 * (y / 10 mod 10) + y mod 10) with y in Hok by divmod.
  exact (Hok V).
Qed.

(** ** What [get_upcoming_birthdays] reports *)

Lemma add_days_Return (dt : date) (n : Z) (r : date) :
  valid dt = true -> add_days dt n = Return r ->
  valid r = true /\ toordinal r = toordinal dt + n.
Proof.
  intros V. unfold add_days.
  destruct ((0 <? toordinal dt + n) && (toordinal dt + n <=? MAXORDINAL))
    eqn:E; [|discriminate].
  intros [= <-]. apply andb_true_iff in E. destruct E as [E1 E2].
  apply Z.ltb_lt in E1. apply Z.leb_le in E2.
  apply fromordinal_valid. lia.
Qed.

Lemma upcoming_step_reports (today : date) (acc l : list congrats)
    (c : ContactRecord) :
  upcoming_step today acc c = Return l ->
  l = acc
  \/ exists text,
       l = (acc ++ [(name c, text)])%list
       /\ birthday_truthy (birthday c) = true
       /\ reported today c text.
Proof.
  unfold upcoming_step.
  destruct (birthday_truthy (birthday c)) eqn:T;
    [|intros [= <-]; now left].
  destruct (strptime_birthday (birthday c)) as [bd|] eqn:P;
    [|discriminate].
  cbn [rbind]. unfold replace_year.
  destruct (new_date (year today) (month bd) (day bd)) as [this|] eqn:N1;
    [|discriminate].
  cbn [rbind]. apply new_date_Return in N1. destruct N1 as [-> V1].
  set (this := mk_date (year today) (month bd) (day bd)) in *.
  assert (Hocc : forall occ,
             (if lt this today
              then new_date (year today + 1) (month bd) (day bd)
              else Return this) = Return occ ->
             valid occ = true /\ month occ = month bd /\ day occ = day bd).
  { intros occ. destruct (lt this today).
    - intros N2. apply new_date_Return in N2. destruct N2 as [-> V2].
      now repeat split.
    - intros [= <-]. now repeat split. }
  destruct (if lt this today
            then new_date (year today + 1) (month bd) (day bd)
            else Return this) as [occ|]; [|discriminate].
  destruct (Hocc occ eq_refl) as (Vo & Hm & Hd). clear Hocc.
  cbn [rbind].
  destruct ((0 <=? days_between occ today) && (days_between occ today <=? 7))
    eqn:W; [|intros [= <-]; now left].
  apply andb_true_iff in W. destruct W as [W1 W2].
  apply Z.leb_le in W1. apply Z.leb_le in W2.
  assert (Hrep : forall d,
             valid d = true -> 0 <= days_between d occ <= 2 ->
             0 <= weekday d <= 4 ->
             reported today c (strftime_dmY d)).
  { intros d Vd Hdo Hw. exists bd, occ, d.
    repeat split; trivial; lia. }
  destruct (weekday occ =? 5) eqn:E5; [|destruct (weekday occ =? 6) eqn:E6].
  - apply Z.eqb_eq in E5.
    destruct (add_days occ 2) as [d|] eqn:A; [|discriminate].
    apply (add_days_Return occ 2 d Vo) in A. destruct A as [Vd Od].
    cbn [rbind]. intros [= <-]. right. eexists. split; [reflexivity|].
    split; [reflexivity|]. apply Hrep; trivial.
    + unfold days_between. lia.
    + unfold weekday in *. rewrite Od. divmod.
  - apply Z.eqb_eq in E6.
    destruct (add_days occ 1) as [d|] eqn:A; [|discriminate].
    apply (add_days_Return occ 1 d Vo) in A. destruct A as [Vd Od].
    cbn [rbind]. intros [= <-]. right. eexists. split; [reflexivity|].
    split; [reflexivity|]. apply Hrep; trivial.
    + unfold days_between. lia.
    + unfold weekday in *. rewrite Od. divmod.
  - apply Z.eqb_neq in E5. apply Z.eqb_neq in E6.
    cbn [rbind]. intros [= <-]. right. eexists. split; [reflexivity|].
    split; [reflexivity|]. apply Hrep; trivial.
    + unfold days_between. lia.
    + unfold weekday in *. divmod.
Qed.

Lemma upcoming_loop_reports (today : date) (contacts : list ContactRecord) :
  forall acc l,
    upcoming_loop today acc contacts = Return l ->
    exists l', l = (acc ++ l')%list /\ entries_of today contacts l'.
Proof.
  induction contacts as [|c rest IH]; intros acc l H.
  - cbn in H. injection H as <-. exists []. rewrite app_nil_r.
    split; [reflexivity | constructor].
  - cbn [upcoming_loop] in H.
    destruct (upcoming_step today acc c) as [acc'|] eqn:S0; [|discriminate].
    cbn [rbind] in H. destruct (IH _ _ H) as (l' & -> & Hall).
    apply upcoming_step_reports in S0.
    destruct S0 as [-> | (text & -> & T & R)].
    + exists l'. split; [reflexivity | now apply entries_skip].
    + exists ((name c, text) :: l'). rewrite <- app_assoc.
      split; [reflexivity | now apply entries_take].
Qed.

Lemma entries_of_length (today : date) (contacts : list ContactRecord)
    (l : list congrats) :
  entries_of today contacts l ->
  (List.length l <= List.length contacts)%nat.
Proof. induction 1; cbn; lia. Qed.

Lemma entries_of_In (today : date) (contacts : list ContactRecord)
    (l : list congrats) :
  entries_of today contacts l ->
  Forall (fun entry =>
            exists c, In c contacts /\ fst entry = name c
                      /\ birthday_truthy (birthday c) = true
                      /\ reported today c (snd entry)) l.
Proof.
  induction 1 as [|c rest l E IH|c rest l text T R E IH].
  - constructor.
  - eapply Forall_impl; [|exact IH].
    intros entry (c0 & Hin & Hrest). exists c0. split; [now right|exact Hrest].
  - constructor.
    + exists c. cbn [fst snd]. repeat split; trivial. now left.
    + eapply Forall_impl; [|exact IH].
      intros entry (c0 & Hin & Hrest). exists c0.
      split; [now right|exact Hrest].
Qed.

(** X1.  When [get_upcoming_birthdays] returns a list, the list is not
    empty, and its entries are those of some of the contacts, in the
    order of the book and one entry for each of these contacts (so a
    contact stored once is never reported twice): the entry carries the
    name of its contact, whose birthday is set, and its text is what
    [strftime] writes for a date from Monday to Friday, 0 to 2 days after
    an occurrence of the contact's birthday that is itself 0 to 7 days
    after [today]. *)
Theorem get_upcoming_birthdays_reports :
  forall (today : date) (b : AddressBook) (l : list congrats),
    AddressBook_get_upcoming_birthdays today b = Return (Some l) ->
    l <> []
    /\ entries_of today (dict_values b) l
    /\ (List.length l <= List.length b)%nat
    /\ Forall (fun entry =>
                 exists c, In c (dict_values b) /\ fst entry = name c
                           /\ birthday_truthy (birthday c) = true
                           /\ reported today c (snd entry)) l.
Proof.
  intros today b l. unfold AddressBook_get_upcoming_birthdays.
  destruct (upcoming_loop today [] (dict_values b)) as [l0|] eqn:L;
    [|discriminate].
  cbn [rbind].
  destruct (0 <? Z.of_nat (List.length l0)) eqn:E; [|discriminate].
  intros [= <-]. apply upcoming_loop_reports in L.
  destruct L as (l' & -> & Hall). cbn [app] in *.
  split; [|split; [|split]].
  - intros ->. discriminate E.
  - exact Hall.
  - apply entries_of_length in Hall. unfold dict_values in Hall.
    now rewrite length_map in Hall.
  - now apply entries_of_In in Hall.
Qed.

Lemma get_upcoming_birthdays_reports_example :
  let today := mk_date 2024 6 10 in
  let b := [("Al", mk_Record (NStr "Al") [] BNone);
            ("Bob", mk_Record (NStr "Bob") [] (BStr "15.06.1990"))] in
  AddressBook_get_upcoming_birthdays today b
  = Return (Some [(NStr "Bob", "17.06.2024")])
  /\ entries_of today (dict_values b) [(NStr "Bob", "17.06.2024")].
Proof.
  intros today b. split; [reflexivity|].
  destruct (get_upcoming_birthdays_reports today b
              [(NStr "Bob", "17.06.2024")] eq_refl) as (_ & H & _).
  exact H.
Defined.

(** ** [AddressBook.add_record], [find] and [delete] *)

Lemma dict_get_set (k k' : string) (v : ContactRecord) (d : AddressBook) :
  dict_get k (dict_set k' v d)
  = if String.eqb k' k then Some v else dict_get k d.
Proof.
  induction d as [|[k0 v0] d IH]; cbn.
  - destruct (String.eqb k' k); reflexivity.
  - destruct (String.eqb k0 k') eqn:E0; cbn.
    + apply String.eqb_eq in E0. subst k0.
      destruct (String.eqb k' k); reflexivity.
    + rewrite IH. destruct (String.eqb k0 k) eqn:E1; [|reflexivity].
      apply String.eqb_eq in E1. subst k0.
      rewrite String.eqb_sym, E0. reflexivity.
Qed.

Lemma dict_set_keys (k : string) (v : ContactRecord) (d : AddressBook) :
  dict_keys (dict_set k v d)
  = if dict_contains k d then dict_keys d else (dict_keys d ++ [k])%list.
Proof.
  unfold dict_contains, dict_keys.
  induction d as [|[k0 v0] d IH]; cbn; [reflexivity|].
  destruct (String.eqb k0 k) eqn:E; cbn; [reflexivity|].
  rewrite IH. destruct (dict_get k d); reflexivity.
Qed.

Lemma dict_get_absent (k : string) (d : AddressBook) :
  ~ In k (dict_keys d) -> dict_get k d = None.
Proof.
  unfold dict_keys. induction d as [|[k0 v0] d IH]; cbn; [reflexivity|].
  intros H. destruct (String.eqb k0 k) eqn:E.
  - apply String.eqb_eq in E. tauto.
  - apply IH. tauto.
Qed.

Lemma dict_get_present (k : string) (d : AddressBook) :
  In k (dict_keys d) -> exists v, dict_get k d = Some v.
Proof.
  unfold dict_keys. induction d as [|[k0 v0] d IH]; cbn; [tauto|].
  intros H. destruct (String.eqb k0 k) eqn:E; [eexists; reflexivity|].
  apply IH. destruct H as [H | H]; [|exact H].
  subst k0. rewrite String.eqb_refl in E. discriminate E.
Qed.

Lemma dict_contains_keys (k : string) (d : AddressBook) :
  dict_contains k d = true <-> In k (dict_keys d).
Proof.
  unfold dict_contains. split.
  - intros H. destruct (dict_get k d) as [v|] eqn:G; [|discriminate].
    apply dict_get_In in G. unfold dict_keys.
    change k with (fst (k, v)). now apply in_map.
  - intros H. destruct (dict_get_present k d H) as [v ->]. reflexivity.
Qed.

Lemma dict_get_del_other (k n : string) (d : AddressBook) :
  k <> n -> dict_get k (dict_del n d) = dict_get k d.
Proof.
  intros Hne. induction d as [|[k0 v0] d IH]; cbn; [reflexivity|].
  destruct (String.eqb k0 n) eqn:E0.
  - apply String.eqb_eq in E0. subst k0.
    destruct (String.eqb n k) eqn:E1; [|reflexivity].
    apply String.eqb_eq in E1. congruence.
  - cbn. now rewrite IH.
Qed.

Lemma dict_del_keys (n : string) (d : AddressBook) :
  NoDup (dict_keys d) ->
  NoDup (dict_keys (dict_del n d)) /\ ~ In n (dict_keys (dict_del n d))
  /\ forall k, In k (dict_keys (dict_del n d)) -> In k (dict_keys d).
Proof.
  unfold dict_keys. induction d as [|[k0 v0] d IH]; cbn; intros ND.
  - repeat split; [constructor | tauto | tauto].
  - inversion ND as [|? ? Hnin ND']; subst.
    destruct (String.eqb k0 n) eqn:E0.
    + apply String.eqb_eq in E0. subst k0. repeat split; tauto.
    + destruct (IH ND') as (IH1 & IH2 & IH3). cbn. repeat split.
      * constructor; [|exact IH1]. intros Hin. apply Hnin. now apply IH3.
      * intros [H | H]; [|tauto].
        subst k0. rewrite String.eqb_refl in E0. discriminate E0.
      * intros k [H | H]; [now left | right; now apply IH3].
Qed.

Lemma dict_set_NoDup (k : string) (v : ContactRecord) (d : AddressBook) :
  NoDup (dict_keys d) -> NoDup (dict_keys (dict_set k v d)).
Proof.
  intros ND. rewrite dict_set_keys.
  destruct (dict_contains k d) eqn:C; [exact ND|].
  apply NoDup_app; [exact ND | repeat constructor; tauto |].
  intros x Hx [<- | []].
  apply dict_contains_keys in Hx. congruence.
Qed.

(** X2.  After [add_record(record)], [find] of the text of the record's
    name gives that record and [find] of any other name gives what it
    gave before; a name that was present keeps its place in the book, a
    new one is put last. *)
Theorem add_record_find :
  forall (record : ContactRecord) (b : AddressBook) (k : string),
    let b' := snd (AddressBook_add_record record b) in
    AddressBook_find k b'
    = (if String.eqb (name_str (name record)) k then Some record
       else AddressBook_find k b)
    /\ dict_keys b'
       = (if dict_contains (name_str (name record)) b then dict_keys b
          else (dict_keys b ++ [name_str (name record)])%list).
Proof.
  intros record b k. cbn. split.
  - unfold AddressBook_find. apply dict_get_set.
  - apply dict_set_keys.
Qed.

(** X3.  In a book whose names are all different, [delete] of a name
    that is present reports the deletion, removes that name and no other,
    and leaves the other records as they were; [delete] of a name that is
    absent reports that and leaves the book as it was. *)
Theorem delete_spec :
  forall (n : string) (b : AddressBook),
    NoDup (dict_keys b) ->
    let b' := snd (AddressBook_delete n b) in
    (forall k, k <> n -> AddressBook_find k b' = AddressBook_find k b)
    /\ AddressBook_find n b' = None
    /\ (AddressBook_find n b = None ->
        AddressBook_delete n b = ("Contact " ++ n ++ " not found", b))
    /\ (AddressBook_find n b <> None ->
        fst (AddressBook_delete n b) = "Contact " ++ n ++ " deleted"
        /\ S (List.length b') = List.length b).
Proof.
  intros n b ND. unfold AddressBook_delete, AddressBook_find, dict_contains.
  destruct (dict_get n b) as [v|] eqn:G; cbn [fst snd].
  - split; [|split; [|split]].
    + intros k Hne. now apply dict_get_del_other.
    + apply dict_get_absent. now apply dict_del_keys.
    + discriminate.
    + intros _. split; [reflexivity|].
      clear ND. revert G. induction b as [|[k0 v0] b IH]; cbn;
        [discriminate|].
      destruct (String.eqb k0 n); [reflexivity|].
      intros G. cbn. now rewrite IH.
  - split; [|split; [|split]].
    + reflexivity.
    + exact G.
    + reflexivity.
    + intros H. now contradiction H.
Qed.

Lemma delete_spec_example :
  let al := mk_Record (NStr "Al") [] BNone in
  let bob := mk_Record (NStr "Bob") [] BNone in
  let b := [("Al", al); ("Bob", bob)] in
  NoDup (dict_keys b)
  /\ AddressBook_find "Al" (snd (AddressBook_delete "Al" b)) = None
  /\ AddressBook_find "Bob" (snd (AddressBook_delete "Al" b))
     = AddressBook_find "Bob" b.
Proof.
  intros al bob b.
  assert (ND : NoDup (dict_keys b)).
  { repeat constructor; cbn; intuition discriminate. }
  destruct (delete_spec "Al" b ND) as (H1 & H2 & _).
  split; [exact ND|]. split; [exact H2|]. apply H1. discriminate.
Defined.

(** ** [str.split], [str.strip] and [parse_input] *)

Lemma list_ascii_app (a b : string) :
  list_ascii_of_string (a ++ b)
  = (list_ascii_of_string a ++ list_ascii_of_string b)%list.
Proof. induction a as [|c a IH]; cbn; [reflexivity|]. now rewrite IH. Qed.

Lemma rev_string_chars (s : string) :
  list_ascii_of_string (rev_string s) = rev (list_ascii_of_string s).
Proof. unfold rev_string. apply list_ascii_of_string_of_list_ascii. Qed.

Lemma rev_string_involutive (s : string) : rev_string (rev_string s) = s.
Proof.
  unfold rev_string at 1. rewrite rev_string_chars, rev_involutive.
  apply string_of_list_ascii_of_string.
Qed.

Lemma forallb_rev {A : Type} (f : A -> bool) (l : list A) :
  forallb f (rev l) = forallb f l.
Proof.
  induction l as [|x l IH]; cbn; [reflexivity|].
  rewrite forallb_app, IH. cbn. rewrite andb_true_r. apply andb_comm.
Qed.

Lemma no_space_rev (s : string) : no_space (rev_string s) = no_space s.
Proof. unfold no_space. rewrite rev_string_chars. apply forallb_rev. Qed.

Lemma all_space_rev (s : string) : all_space (rev_string s) = all_space s.
Proof. unfold all_space. rewrite rev_string_chars. apply forallb_rev. Qed.

Lemma nonempty_chars (s : string) :
  nonempty s = negb (Nat.eqb (List.length (list_ascii_of_string s)) 0).
Proof. destruct s; reflexivity. Qed.

Lemma nonempty_rev (s : string) : nonempty (rev_string s) = nonempty s.
Proof.
  rewrite !nonempty_chars, rev_string_chars, length_rev. reflexivity.
Qed.

Lemma is_token_rev (s : string) : is_token (rev_string s) = is_token s.
Proof. unfold is_token. now rewrite nonempty_rev, no_space_rev. Qed.

Lemma lstrip_no_space (s : string) : no_space s = true -> lstrip s = s.
Proof.
  destruct s as [|c s]; [reflexivity|]. unfold no_space. cbn.
  intros H. apply andb_true_iff in H. destruct H as [H _].
  destruct (is_space c); [discriminate H|reflexivity].
Qed.

Lemma strip_no_space (s : string) : no_space s = true -> strip s = s.
Proof.
  intros H. unfold strip. rewrite (lstrip_no_space s H).
  rewrite lstrip_no_space by now rewrite no_space_rev.
  apply rev_string_involutive.
Qed.

Lemma all_space_lstrip (s : string) : all_space (lstrip s) = all_space s.
Proof.
  unfold all_space. induction s as [|c s IH]; [reflexivity|].
  cbn [lstrip]. destruct (is_space c) eqn:E.
  - rewrite IH. cbn. now rewrite E.
  - reflexivity.
Qed.

Lemma lstrip_empty (s : string) :
  nonempty (lstrip s) = negb (all_space s).
Proof.
  unfold all_space. induction s as [|c s IH]; [reflexivity|].
  cbn [lstrip]. destruct (is_space c) eqn:E.
  - rewrite IH. cbn. now rewrite E.
  - cbn. now rewrite E.
Qed.

Lemma strip_nonempty (s : string) :
  nonempty (strip s) = negb (all_space s).
Proof.
  unfold strip.
  now rewrite nonempty_rev, lstrip_empty, all_space_rev, all_space_lstrip.
Qed.

Lemma flush_tokens (cur : string) (acc : list string) :
  no_space cur = true ->
  Forall (fun t => is_token t = true) acc ->
  Forall (fun t => is_token t = true) (flush cur acc).
Proof.
  intros Hc Ha. destruct cur as [|c cur]; [exact Ha|].
  cbn [flush]. constructor; [|exact Ha].
  rewrite is_token_rev. unfold is_token. now rewrite Hc.
Qed.

Lemma split_loop_tokens (s : string) :
  forall (cur : string) (acc : list string),
    no_space cur = true ->
    Forall (fun t => is_token t = true) acc ->
    Forall (fun t => is_token t = true) (split_loop s cur acc).
Proof.
  induction s as [|c s IH]; intros cur acc Hc Ha; cbn [split_loop].
  - apply Forall_rev. now apply flush_tokens.
  - destruct (is_space c) eqn:E.
    + apply IH; [reflexivity | now apply flush_tokens].
    + apply IH; [|exact Ha].
      unfold no_space in *. cbn. now rewrite E.
Qed.

Lemma split_loop_all_space (s : string) :
  all_space s = true ->
  forall acc, split_loop s EmptyString acc = rev acc.
Proof.
  unfold all_space. induction s as [|c s IH]; intros H acc; [reflexivity|].
  cbn in H. apply andb_true_iff in H. destruct H as [Hc Hs].
  cbn [split_loop]. rewrite Hc. cbn [flush]. now apply IH.
Qed.

Lemma split_nil (s : string) : split s = [] <-> all_space s = true.
Proof.
  split.
  - intros H. apply split_loop_nil in H. destruct H as (_ & _ & H).
    pose proof (lstrip_empty s) as L. rewrite H in L. cbn in L.
    now destruct (all_space s).
  - intros H. unfold split. now rewrite split_loop_all_space.
Qed.

(** What [parse_input] returns, in terms of the words of the line. *)
Lemma parse_input_split (user_input : string) :
  parse_input user_input
  = Return (match split user_input with
            | [] => Blank
            | cmd :: args => Tokens (lower cmd) args
            end).
Proof.
  unfold parse_input. rewrite strip_nonempty, negb_involutive.
  destruct (all_space user_input) eqn:A.
  - apply split_nil in A. now rewrite A.
  - pose proof (split_loop_tokens user_input EmptyString [] eq_refl
                  (Forall_nil _)) as T.
    fold (split user_input) in T.
    destruct (split user_input) as [|cmd args] eqn:S.
    + apply split_nil in S. congruence.
    + inversion T as [|? ? Hcmd _]; subst.
      unfold is_token in Hcmd. apply andb_true_iff in Hcmd.
      destruct Hcmd as [_ Hcmd]. now rewrite (strip_no_space cmd Hcmd).
Qed.

(** X14.  [parse_input] returns the pair for a blank line exactly when
    every character of the line is white space; otherwise it returns the
    first word of the line in lower case as the command and the other
    words, as they are, as the arguments.  Every word is non-empty and
    free of white space, so the [strip] of the command changes
    nothing. *)
Theorem parse_input_words :
  forall user_input : string,
    parse_input user_input
    = Return (match split user_input with
              | [] => Blank
              | cmd :: args => Tokens (lower cmd) args
              end)
    /\ (split user_input = [] <-> all_space user_input = true)
    /\ Forall (fun t => is_token t = true /\ strip t = t) (split user_input).
Proof.
  intros user_input. split; [apply parse_input_split|].
  split; [apply split_nil|].
  pose proof (split_loop_tokens user_input EmptyString [] eq_refl
                (Forall_nil _)) as T.
  eapply Forall_impl; [|exact T].
  intros t Ht. split; [exact Ht|].
  apply strip_no_space. unfold is_token in Ht.
  apply andb_true_iff in Ht. tauto.
Qed.

Lemma push_chars_chars (t cur : string) :
  list_ascii_of_string (push_chars t cur)
  = (rev (list_ascii_of_string t) ++ list_ascii_of_string cur)%list.
Proof.
  revert cur. induction t as [|c t IH]; intros cur; [reflexivity|].
  cbn [push_chars]. rewrite IH. cbn. now rewrite <- app_assoc.
Qed.

Lemma rev_push_chars (t : string) :
  rev_string (push_chars t EmptyString) = t.
Proof.
  unfold rev_string. rewrite push_chars_chars. cbn.
  rewrite app_nil_r, rev_involutive.
  apply string_of_list_ascii_of_string.
Qed.

Lemma split_loop_word (t : string) :
  no_space t = true ->
  forall (rest cur : string) (acc : list string),
    split_loop (t ++ rest) cur acc = split_loop rest (push_chars t cur) acc.
Proof.
  unfold no_space. induction t as [|c t IH]; intros H rest cur acc;
    [reflexivity|].
  cbn in H. apply andb_true_iff in H. destruct H as [Hc Ht].
  cbn [append split_loop push_chars].
  destruct (is_space c); [discriminate Hc|]. now apply IH.
Qed.

Lemma flush_word (t : string) (acc : list string) :
  nonempty t = true -> flush (push_chars t EmptyString) acc = t :: acc.
Proof.
  intros H. unfold flush.
  destruct (push_chars t EmptyString) eqn:P.
  - pose proof (rev_push_chars t) as R. rewrite P in R.
    cbn in R. subst t. discriminate H.
  - rewrite <- P, rev_push_chars. reflexivity.
Qed.

Lemma append_empty_r (s : string) : s ++ EmptyString = s.
Proof. induction s as [|c s IH]; cbn; [reflexivity|]. now rewrite IH. Qed.

Lemma split_loop_join (words : list string) :
  Forall (fun t => is_token t = true) words ->
  words <> [] ->
  forall acc,
    split_loop (join " " words) EmptyString acc = (rev acc ++ words)%list.
Proof.
  induction words as [|t words IH]; intros T Hne acc; [congruence|].
  inversion T as [|? ? Ht Tw]; subst.
  unfold is_token in Ht. apply andb_true_iff in Ht. destruct Ht as [Hn Hs].
  destruct words as [|t' words].
  - cbn [join]. rewrite <- (append_empty_r t) at 1.
    rewrite (split_loop_word t Hs). cbn [split_loop].
    rewrite (flush_word t acc Hn). reflexivity.
  - change (join " " (t :: t' :: words))
      with (t ++ String " " (join " " (t' :: words))).
    rewrite (split_loop_word t Hs). cbn [split_loop].
    change (is_space " ") with true. cbn iota.
    rewrite (flush_word t acc Hn).
    rewrite (IH Tw ltac:(discriminate)). cbn [rev].
    now rewrite <- app_assoc.
Qed.

(** X15.  A command and its arguments, each a non-empty word without
    white space, written on a line with single spaces between them, are
    what [parse_input] reads back from the line, the command in lower
    case. *)
Theorem parse_input_join :
  forall (cmd : string) (args : list string),
    Forall (fun t => is_token t = true) (cmd :: args) ->
    parse_input (join " " (cmd :: args))
    = Return (Tokens (lower cmd) args).
Proof.
  intros cmd args T. rewrite parse_input_split. unfold split.
  rewrite (split_loop_join (cmd :: args) T) by discriminate.
  reflexivity.
Qed.

Lemma parse_input_join_example :
  Forall (fun t => is_token t = true) ["ADD"; "Bob"; "1234567890"]
  /\ parse_input "ADD Bob 1234567890"
     = Return (Tokens "add" ["Bob"; "1234567890"]).
Proof.
  assert (T : Forall (fun t => is_token t = true)
                ["ADD"; "Bob"; "1234567890"]) by (repeat constructor).
  split; [exact T|].
  exact (parse_input_join "ADD" ["Bob"; "1234567890"] T).
Defined.

(** ** What the handlers do to the state *)

Lemma show_phone_state (args : list string) (w : World) :
  snd (show_phone args w) = w.
Proof.
  unfold show_phone. rewrite input_error_state.
  unfold show_phone_body. unfold_monad.
  destruct args as [|n args]; [reflexivity|].
  destruct (dict_get n (book w)); reflexivity.
Qed.

Lemma show_all_state (w : World) : snd (show_all w) = w.
Proof.
  unfold show_all. rewrite input_error_state.
  unfold show_all_body. unfold_monad. destruct (book w); reflexivity.
Qed.

Lemma show_birthday_state (args : list string) (w : World) :
  snd (show_birthday args w) = w.
Proof.
  unfold show_birthday. rewrite input_error_state.
  unfold show_birthday_body. unfold_monad.
  destruct (unpack_first args) as [n|e]; [|reflexivity].
  destruct (dict_get n (book w)); reflexivity.
Qed.

Lemma show_all_birthdays_state (today : date) (w : World) :
  snd (show_all_birthdays today w) = w.
Proof.
  unfold show_all_birthdays. rewrite input_error_state.
  unfold show_all_birthdays_body. unfold_monad.
  destruct (book w) as [|p a]; [reflexivity|].
  destruct (AddressBook_get_upcoming_birthdays today (p :: a))
    as [[l|]|e]; reflexivity.
Qed.

(** X4.  The handlers of [phone], [all], [show-birthday] and
    [birthdays] leave the address book and the rest of the state exactly
    as they found them, whatever their arguments and whether they report
    an error or not. *)
Theorem queries_leave_state :
  (forall args w, snd (show_phone args w) = w)
  /\ (forall w, snd (show_all w) = w)
  /\ (forall args w, snd (show_birthday args w) = w)
  /\ (forall today w, snd (show_all_birthdays today w) = w).
Proof.
  split; [|split; [|split]]; intros.
  - apply show_phone_state.
  - apply show_all_state.
  - apply show_birthday_state.
  - apply show_all_birthdays_state.
Qed.

Create HintDb updated.
#[local] Hint Constructors updated : updated.

Lemma add_contact_updated (args : list string) (w : World) :
  updated (book w) (book (snd (add_contact args w))).
Proof.
  unfold add_contact. rewrite input_error_state.
  unfold add_contact_body. unfold_monad.
  destruct (unpack2 args) as [[n phone]|e]; [|constructor].
  cbn.
  destruct (dict_get n (book w)) as [record|]; cbn;
    destruct (nonempty phone); cbn; auto with updated;
    destruct (Phone_init (next_id w) phone); cbn; auto with updated.
Qed.

Lemma change_contact_updated (args : list string) (w : World) :
  updated (book w) (book (snd (change_contact args w))).
Proof.
  unfold change_contact. rewrite input_error_state.
  unfold change_contact_body. unfold_monad.
  destruct (unpack3 args) as [[[n old] new]|e]; [|constructor].
  cbn.
  destruct (dict_get n (book w)) as [record|]; cbn; [|constructor].
  destruct (Record_edit_phone (next_id w) old new record) as [[t|e] r'];
    cbn; auto with updated.
Qed.

Lemma add_birthday_updated (args : list string) (w : World) :
  updated (book w) (book (snd (add_birthday args w))).
Proof.
  unfold add_birthday. rewrite input_error_state.
  unfold add_birthday_body. unfold_monad.
  destruct (unpack2 args) as [[n b]|e]; [|constructor].
  cbn. destruct (dict_get n (book w)); cbn; auto with updated.
Qed.

Lemma bind_state (handler : M value) (w : World) :
  raised (fst (handler w)) = false ->
  snd ((v <- handler ;; ret (Continue, value_str v)) w) = snd (handler w).
Proof.
  unfold bind, ret. destruct (handler w) as [[v|e] w']; cbn;
    [reflexivity|discriminate].
Qed.

Lemma bind_lift {A B : Type} (r : result A) (k : A -> M B) (w : World) :
  (x <- lift r ;; k x) w
  = match r with
    | Return a => k a w
    | Raise e => (Raise e, w)
    end.
Proof. unfold bind, lift. destruct r; reflexivity. Qed.

(** The state after a turn of the loop: as before, or as one of the three
    writing handlers left it. *)
Lemma main_turn_state (today : date) (user_input : string) (w : World) :
  snd (main_turn today user_input w) = w
  \/ line_mutating user_input = true
     /\ exists args,
          Forall (fun t => is_token t = true) args
          /\ (snd (main_turn today user_input w) = snd (add_contact args w)
              \/ snd (main_turn today user_input w)
                 = snd (change_contact args w)
              \/ snd (main_turn today user_input w)
                 = snd (add_birthday args w)).
Proof.
  assert (T : forall command args,
             parse_input user_input = Return (Tokens command args) ->
             Forall (fun t => is_token t = true) args).
  { intros command args. rewrite parse_input_split.
    pose proof (split_loop_tokens user_input EmptyString [] eq_refl
                  (Forall_nil _)) as S.
    fold (split user_input) in S.
    destruct (split user_input) as [|c a]; [discriminate|].
    intros [= _ <-]. now inversion S. }
  unfold main_turn, line_mutating, mutating. rewrite bind_lift.
  destruct (parse_input user_input) as [[|command args]|e];
    [now left | | now left].
  specialize (T command args eq_refl).
  destruct (String.eqb command "close" || String.eqb command "exit");
    [now left|].
  destruct (String.eqb command "hello"); [now left|].
  destruct (String.eqb command "info"); [now left|].
  destruct (String.eqb command "add").
  { right. split; [reflexivity|]. exists args. split; [exact T|]. left.
    apply bind_state, add_contact_returns. }
  destruct (String.eqb command "change").
  { right. split; [reflexivity|]. exists args. split; [exact T|].
    right. left. apply bind_state, change_contact_returns. }
  destruct (String.eqb command "phone").
  { left. rewrite bind_state by apply show_phone_returns.
    apply show_phone_state. }
  destruct (String.eqb command "all").
  { left. rewrite bind_state by apply show_all_returns.
    apply show_all_state. }
  destruct (String.eqb command "add-birthday").
  { right. split; [reflexivity|]. exists args. split; [exact T|].
    right. right. apply bind_state, add_birthday_returns. }
  destruct (String.eqb command "show-birthday").
  { left. rewrite bind_state by apply show_birthday_returns.
    apply show_birthday_state. }
  destruct (String.eqb command "birthdays").
  { left. rewrite bind_state by apply show_all_birthdays_returns.
    apply show_all_birthdays_state. }
  now left.
Qed.

(** X5.  A turn of the loop of [main] changes the state only when the
    command of the line is [add], [change] or [add-birthday]: every other
    line (blank, unknown, [hello], [info], [phone], [all],
    [show-birthday], [birthdays], [close], [exit]) leaves it as it
    was. *)
Theorem only_three_commands_write :
  forall (today : date) (user_input : string) (w : World),
    line_mutating user_input = false ->
    snd (main_turn today user_input w) = w.
Proof.
  intros today user_input w H.
  destruct (main_turn_state today user_input w) as [E | [E _]];
    [exact E | congruence].
Qed.

Lemma only_three_commands_write_example :
  let w := mk_World [("Bob", mk_Record (NStr "Bob") [] BNone)] 3 in
  line_mutating "PHONE Bob" = false
  /\ snd (main_turn (mk_date 2024 6 10) "PHONE Bob" w) = w.
Proof.
  intros w. split; [reflexivity|].
  apply (only_three_commands_write (mk_date 2024 6 10) "PHONE Bob" w).
  reflexivity.
Defined.

Lemma updated_keys (b b' : AddressBook) :
  updated b b' ->
  (exists extra, dict_keys b' = (dict_keys b ++ extra)%list)
  /\ (NoDup (dict_keys b) -> NoDup (dict_keys b')).
Proof.
  induction 1 as [|b' k v U [[extra IH] IHnd]].
  - split; [exists []; now rewrite app_nil_r | trivial].
  - split.
    + rewrite dict_set_keys, IH. destruct (dict_contains k b').
      * now exists extra.
      * exists (extra ++ [k])%list. now rewrite app_assoc.
    + intros ND. apply dict_set_NoDup. now apply IHnd.
Qed.

Lemma main_turn_updated (today : date) (user_input : string) (w : World) :
  updated (book w) (book (snd (main_turn today user_input w))).
Proof.
  destruct (main_turn_state today user_input w)
    as [-> | (_ & args & _ & [-> | [-> | ->]])].
  - constructor.
  - apply add_contact_updated.
  - apply change_contact_updated.
  - apply add_birthday_updated.
Qed.

(** X6.  No turn of the loop of [main] removes a contact or changes the
    order of the book: the names after the turn are the names before it,
    in the same order, followed by the names the turn has added. *)
Theorem main_turn_keeps_names :
  forall (today : date) (user_input : string) (w : World),
    exists added,
      dict_keys (book (snd (main_turn today user_input w)))
      = (dict_keys (book w) ++ added)%list.
Proof.
  intros today user_input w.
  apply (updated_keys (book w)). apply main_turn_updated.
Qed.

(** X7.  In every state that [add_record], [delete] and the command
    handlers produce from the empty book, no two entries of the book have
    the same name. *)
Theorem reachable_names_unique :
  forall w : World, reachable w -> NoDup (dict_keys (book w)).
Proof.
  intros w R.
  induction R as
    [ n | w record R IH | w n R IH | w args R IH | w args R IH
    | w args R IH | w R IH | w args R IH | w args R IH | w today R IH ].
  - constructor.
  - cbn. now apply dict_set_NoDup.
  - unfold AddressBook_delete.
    destruct (dict_contains n (book w)); cbn;
      [now apply dict_del_keys | exact IH].
  - now apply (updated_keys _ _ (add_contact_updated args w)).
  - now apply (updated_keys _ _ (change_contact_updated args w)).
  - now rewrite show_phone_state.
  - now rewrite show_all_state.
  - now apply (updated_keys _ _ (add_birthday_updated args w)).
  - now rewrite show_birthday_state.
  - now rewrite show_all_birthdays_state.
Qed.

Lemma reachable_names_unique_example :
  let w0 := mk_World [] 0 in
  let w1 := snd (add_contact ["Bob"; "1234567890"] w0) in
  let w2 := snd (add_contact ["Bob"; "0987654321"] w1) in
  reachable w2 /\ dict_keys (book w2) = ["Bob"]
  /\ NoDup (dict_keys (book w2)).
Proof.
  intros w0 w1 w2.
  assert (R : reachable w2).
  { apply reach_add_contact. apply reach_add_contact. apply reach_empty. }
  split; [exact R|]. split; [reflexivity|].
  exact (reachable_names_unique w2 R).
Defined.

(** ** Arguments of the wrong number *)

(** X8.  A handler given the wrong number of arguments returns the
    [ValueError] of the failed unpacking (or, for [phone] without a name,
    its own [ValueError]) and leaves the state as it was: [add] and
    [add-birthday] need exactly two arguments, [change] exactly three,
    [phone] and [show-birthday] at least one. *)
Theorem wrong_number_of_arguments :
  (forall args w,
      List.length args <> 2%nat ->
      exists msg,
        add_contact args w = (Return (VExn (mk_exn ValueError msg)), w)
        /\ add_birthday args w = (Return (VExn (mk_exn ValueError msg)), w))
  /\ (forall args w,
         List.length args <> 3%nat ->
         exists msg,
           change_contact args w
           = (Return (VExn (mk_exn ValueError msg)), w))
  /\ (forall w,
         show_phone [] w
         = (Return (VExn (mk_exn ValueError
                            (colored_error "No contact name provided."))),
            w))
  /\ (forall w,
         exists msg,
           show_birthday [] w = (Return (VExn (mk_exn ValueError msg)), w)).
Proof.
  split; [|split; [|split]].
  - intros args w H.
    destruct args as [|a [|b [|c rest]]]; cbn in H; try lia;
      eexists; split; reflexivity.
  - intros args w H.
    destruct args as [|a [|b [|c [|d rest]]]]; cbn in H; try lia;
      eexists; reflexivity.
  - reflexivity.
  - intros w. eexists. reflexivity.
Qed.

Lemma wrong_number_of_arguments_example :
  let w := mk_World [("Bob", mk_Record (NStr "Bob") [] BNone)] 0 in
  (exists msg,
      add_contact ["Bob"] w = (Return (VExn (mk_exn ValueError msg)), w)
      /\ add_birthday ["Bob"] w
         = (Return (VExn (mk_exn ValueError msg)), w))
  /\ exists msg,
       change_contact ["Bob"; "1"; "2"; "3"] w
       = (Return (VExn (mk_exn ValueError msg)), w).
Proof.
  intros w.
  destruct wrong_number_of_arguments as (Hadd & Hchange & _).
  split.
  - apply Hadd. cbn. lia.
  - apply Hchange. cbn. lia.
Defined.

(** ** The handler [change_contact] *)

Lemma dict_set_same (k : string) (v : ContactRecord) (d : AddressBook) :
  dict_get k d = Some v -> dict_set k v d = d.
Proof.
  induction d as [|[k0 v0] d IH]; cbn; [discriminate|].
  destruct (String.eqb k0 k).
  - now intros [= ->].
  - intros H. now rewrite IH.
Qed.

Lemma edit_phone_from_invalid (oid : nat) (old new : string) (e : exn)
    (rest : list Phone) :
  Phone_init oid new = Raise e ->
  forall (index : nat) (r : ContactRecord),
    snd (edit_phone_from oid old new index rest r) = r.
Proof.
  intros P. induction rest as [|p rest IH]; intros index r; cbn;
    [reflexivity|].
  destruct (String.eqb (phone_value p) old); [|apply IH].
  now rewrite P.
Qed.

Lemma edit_phone_from_absent (oid : nat) (old new : string)
    (rest : list Phone) :
  (forall q, In q rest -> phone_value q <> old) ->
  forall (index : nat) (r : ContactRecord),
    edit_phone_from oid old new index rest r
    = (Return ("Phone " ++ old ++ " not found"), r).
Proof.
  induction rest as [|p rest IH]; intros Hne index r; cbn; [reflexivity|].
  destruct (String.eqb (phone_value p) old) eqn:E.
  - apply String.eqb_eq in E. exfalso. apply (Hne p); [now left|exact E].
  - apply IH. intros q Hq. apply Hne. now right.
Qed.

(** The run of [change_contact] on a contact that exists, in terms of
    [Record.edit_phone]. *)
Lemma change_contact_found (w : World) (n old new : string)
    (record : ContactRecord) :
  AddressBook_find n (book w) = Some record ->
  change_contact [n; old; new] w
  = (let '(r, record') := Record_edit_phone (next_id w) old new record in
     match r with
     | Return text => Return (VStr (colored_output text))
     | Raise e => fst (input_error (throw e) w)
     end,
     mk_World
       (dict_set n (snd (Record_edit_phone (next_id w) old new record))
                 (book w))
       (S (next_id w))).
Proof.
  intros F. unfold change_contact, input_error, change_contact_body.
  unfold_monad. cbn [unpack3]. unfold AddressBook_find in F. rewrite F.
  destruct (Record_edit_phone (next_id w) old new record) as [[t|e] r'];
    cbn; [reflexivity|].
  destruct e as [[] msg]; reflexivity.
Qed.

(** X9.  [change] leaves the book as it was in each of its failures: on a
    name that the book does not hold it returns an [IndexError] and the
    state is untouched; on a contact none of whose phones has the old
    value it returns the text "not found" in the colour of success;
    and when the new text fails the validation of [Phone] no phone is
    replaced, whether the old value is there or not. *)
Theorem change_contact_failures :
  forall (w : World) (n old new : string),
    (AddressBook_find n (book w) = None ->
     change_contact [n; old; new] w
     = (Return (VExn (mk_exn IndexError
                        (colored_error
                           ("Contact '" ++ n
                            ++ "' not found. Use 'add' to create it.")))),
        w))
    /\ (forall record,
           AddressBook_find n (book w) = Some record ->
           (forall q, In q (phones record) -> phone_value q <> old) ->
           fst (change_contact [n; old; new] w)
           = Return (VStr (colored_output ("Phone " ++ old ++ " not found")))
           /\ book (snd (change_contact [n; old; new] w)) = book w)
    /\ (forall record,
           AddressBook_find n (book w) = Some record ->
           re_match phone_pattern new = false ->
           book (snd (change_contact [n; old; new] w)) = book w).
Proof.
  intros w n old new. split; [|split].
  - intros F. unfold change_contact, input_error, change_contact_body.
    unfold_monad. cbn [unpack3]. unfold AddressBook_find in F.
    rewrite F. reflexivity.
  - intros record F Hne. rewrite (change_contact_found w n old new record F).
    unfold Record_edit_phone.
    rewrite (edit_phone_from_absent _ _ _ _ Hne). cbn [fst snd book].
    split; [reflexivity|]. now apply dict_set_same.
  - intros record F Hbad. rewrite (change_contact_found w n old new record F).
    cbn [snd book]. unfold Record_edit_phone.
    rewrite (edit_phone_from_invalid _ old new _ _
               (Phone_init_rejects (next_id w) new Hbad)).
    now apply dict_set_same.
Qed.

Lemma change_contact_failures_example :
  let bob := mk_Record (NStr "Bob") [mk_Phone 0 "1234567890"] BNone in
  let w := mk_World [("Bob", bob)] 1 in
  (fst (change_contact ["Bob"; "5555555555"; "0987654321"] w)
   = Return (VStr (colored_output "Phone 5555555555 not found"))
   /\ book (snd (change_contact ["Bob"; "5555555555"; "0987654321"] w))
      = book w)
  /\ book (snd (change_contact ["Bob"; "1234567890"; "12"] w)) = book w.
Proof.
  intros bob w.
  destruct (change_contact_failures w "Bob" "5555555555" "0987654321")
    as (_ & H2 & _).
  destruct (change_contact_failures w "Bob" "1234567890" "12")
    as (_ & _ & H3).
  split.
  - apply (H2 bob eq_refl). intros q [<- | []]. discriminate.
  - apply (H3 bob eq_refl). reflexivity.
Defined.

(** X10.  On a contact whose phones are [before ++ p0 :: after], [p0]
    being the first with the old value, [change] with a new ten-digit
    text reports the change, puts a new phone of that value in the place
    of [p0] and touches no other contact; [phone] then shows the new
    value in that place. *)
Theorem change_contact_success :
  forall (w : World) (n old new : string) (record : ContactRecord)
         (before after : list Phone) (p0 : Phone),
    AddressBook_find n (book w) = Some record ->
    phones record = (before ++ p0 :: after)%list ->
    phone_value p0 = old ->
    (forall q, In q before -> phone_value q <> old) ->
    ten_digits new = true ->
    let w' := snd (change_contact [n; old; new] w) in
    let record' :=
      set_phones record (before ++ mk_Phone (next_id w) new :: after)%list in
    fst (change_contact [n; old; new] w)
    = Return (VStr (colored_output
                      ("Phone " ++ old ++ " changed to " ++ new)))
    /\ AddressBook_find n (book w') = Some record'
    /\ (forall k, k <> n ->
                  AddressBook_find k (book w') = AddressBook_find k (book w))
    /\ dict_keys (book w') = dict_keys (book w)
    /\ fst (show_phone [n] w')
       = Return (VStr (colored_output
                         ("Contact '" ++ n ++ "' phones: "
                          ++ join "; "
                               (map phone_value before ++ new
                                  :: map phone_value after)))).
Proof.
  intros w n old new record before after p0 F Hl Hv Hne Hnew w' record'.
  assert (E : Record_edit_phone (next_id w) old new record
              = (Return ("Phone " ++ old ++ " changed to " ++ new), record')).
  { unfold Record_edit_phone. rewrite Hl at 1.
    rewrite edit_phone_from_skip by assumption.
    cbn. rewrite Hv, String.eqb_refl.
    rewrite (Phone_init_ten_digits _ _ Hnew).
    rewrite Hl, list_set_app. reflexivity. }
  assert (R : change_contact [n; old; new] w
              = (Return (VStr (colored_output
                                 ("Phone " ++ old ++ " changed to " ++ new))),
                 mk_World (dict_set n record' (book w)) (S (next_id w)))).
  { rewrite (change_contact_found w n old new record F). now rewrite E. }
  subst w'. rewrite R. cbn [fst snd book].
  assert (G : AddressBook_find n (dict_set n record' (book w))
              = Some record')
    by apply dict_get_set_same.
  split; [reflexivity|]. split; [exact G|]. split; [|split].
  - intros k Hk. unfold AddressBook_find. rewrite dict_get_set.
    destruct (String.eqb n k) eqn:E'; [|reflexivity].
    apply String.eqb_eq in E'. congruence.
  - rewrite dict_set_keys.
    replace (dict_contains n (book w)) with true; [reflexivity|].
    unfold dict_contains. unfold AddressBook_find in F. now rewrite F.
  - unfold show_phone, input_error, show_phone_body. unfold_monad.
    unfold AddressBook_find in G. cbn [book]. rewrite G. cbn [fst].
    subst record'. cbn [phones set_phones].
    rewrite map_app. reflexivity.
Qed.

Lemma change_contact_success_example :
  let bob :=
    mk_Record (NStr "Bob")
      [mk_Phone 0 "1111111111"; mk_Phone 1 "2222222222"] BNone in
  let w := mk_World [("Bob", bob)] 2 in
  fst (show_phone ["Bob"]
         (snd (change_contact ["Bob"; "2222222222"; "3333333333"] w)))
  = Return (VStr (colored_output
                    "Contact 'Bob' phones: 1111111111; 3333333333")).
Proof.
  intros bob w.
  destruct (change_contact_success w "Bob" "2222222222" "3333333333" bob
              [mk_Phone 0 "1111111111"] [] (mk_Phone 1 "2222222222")
              eq_refl eq_refl eq_refl)
    as (_ & _ & _ & _ & H).
  - intros q [<- | []]. discriminate.
  - reflexivity.
  - exact H.
Defined.

(** ** The handler [add_contact] with a valid phone *)

Lemma add_contact_valid (w : World) (n p : string) :
  ten_digits p = true ->
  add_contact [n; p] w
  = (Return (VStr (colored_output
                     (match AddressBook_find n (book w) with
                      | Some record =>
                          "Contact " ++ name_str (name record) ++ " updated."
                      | None => "Contact " ++ n ++ " added to address book."
                      end))),
     mk_World
       (dict_set n
          (set_phones (record_or_new n (book w))
             (phones (record_or_new n (book w))
              ++ [mk_Phone (next_id w) p])%list)
          (match AddressBook_find n (book w) with
           | Some _ => book w
           | None => dict_set n (Record_init (NStr n)) (book w)
           end))
       (S (next_id w))).
Proof.
  intros T.
  assert (Hne : nonempty p = true) by (destruct p; [discriminate|reflexivity]).
  unfold add_contact, input_error, add_contact_body, record_or_new.
  unfold_monad. cbn [unpack2].
  destruct (dict_get n (book w)) as [record|] eqn:G; cbn;
    rewrite Hne; cbn; rewrite (Phone_init_ten_digits _ _ T); reflexivity.
Qed.

Lemma dict_set_set (k : string) (v v' : ContactRecord) (d : AddressBook) :
  dict_set k v' (dict_set k v d) = dict_set k v' d.
Proof.
  induction d as [|[k0 v0] d IH]; cbn.
  - now rewrite String.eqb_refl.
  - destruct (String.eqb k0 k) eqn:E; cbn; rewrite E; [reflexivity|].
    now rewrite IH.
Qed.

Lemma add_contact_valid_find (w : World) (n p : string) :
  ten_digits p = true ->
  let w' := snd (add_contact [n; p] w) in
  let r := record_or_new n (book w) in
  AddressBook_find n (book w')
  = Some (set_phones r (phones r ++ [mk_Phone (next_id w) p])%list)
  /\ (forall k, k <> n ->
                AddressBook_find k (book w') = AddressBook_find k (book w)).
Proof.
  intros T. cbv zeta. rewrite (add_contact_valid w n p T). cbn [snd book].
  split.
  - apply dict_get_set_same.
  - intros k Hk. unfold AddressBook_find. rewrite dict_get_set.
    destruct (String.eqb n k) eqn:E;
      [apply String.eqb_eq in E; congruence|].
    destruct (dict_get n (book w)); [reflexivity|].
    rewrite dict_get_set, E. reflexivity.
Qed.

(** X11.  Running [add n p] for each ten-digit text [p] of a list that
    is not empty leaves under [n] a record with the name and birthday it
    had before (those of a new record when [n] was absent) whose phone
    values are the earlier ones followed by the texts of the list in
    their order, duplicates included; no other contact changes. *)
Theorem add_all_appends :
  forall (numbers : list string) (n : string) (w : World),
    Forall (fun p => ten_digits p = true) numbers ->
    numbers <> [] ->
    let r := record_or_new n (book w) in
    (exists r',
        AddressBook_find n (book (add_all n numbers w)) = Some r'
        /\ name r' = name r /\ birthday r' = birthday r
        /\ map phone_value (phones r')
           = (map phone_value (phones r) ++ numbers)%list)
    /\ (forall k, k <> n ->
                  AddressBook_find k (book (add_all n numbers w))
                  = AddressBook_find k (book w)).
Proof.
  induction numbers as [|p rest IH]; intros n w Hall Hne; [congruence|].
  inversion Hall as [|? ? Hp Hrest]; subst.
  destruct (add_contact_valid_find w n p Hp) as [Hn Hk].
  unfold add_all. cbn [fold_left].
  fold (add_all n rest (snd (add_contact [n; p] w))).
  set (w1 := snd (add_contact [n; p] w)) in *.
  destruct rest as [|p2 rest].
  - cbn [add_all fold_left]. split; [|exact Hk].
    eexists. split; [exact Hn|]. cbn [name birthday phones set_phones].
    repeat split. now rewrite map_app.
  - destruct (IH n w1 Hrest ltac:(discriminate)) as [(r' & F & N & B & P) K].
    assert (R1 : record_or_new n (book w1)
                 = set_phones (record_or_new n (book w))
                     (phones (record_or_new n (book w))
                      ++ [mk_Phone (next_id w) p])%list).
    { unfold record_or_new at 1. now rewrite Hn. }
    rewrite R1 in N, B, P. cbn [name birthday phones set_phones] in N, B, P.
    split.
    + exists r'. repeat split; trivial.
      rewrite P, map_app, <- app_assoc. reflexivity.
    + intros k Hkn. rewrite (K k Hkn). now apply Hk.
Qed.

Lemma add_all_appends_example :
  let w := mk_World [] 0 in
  let w' := add_all "Bob" ["1234567890"; "0987654321"; "1234567890"] w in
  exists r',
    AddressBook_find "Bob" (book w') = Some r'
    /\ map phone_value (phones r')
       = ["1234567890"; "0987654321"; "1234567890"].
Proof.
  intros w w'.
  destruct (add_all_appends ["1234567890"; "0987654321"; "1234567890"]
              "Bob" w) as [(r' & F & _ & _ & P) _].
  - repeat constructor.
  - discriminate.
  - exists r'. split; [exact F | exact P].
Defined.

(** ** Birthdays through the handlers *)

Lemma add_birthday_found (w : World) (n b : string)
    (record : ContactRecord) :
  AddressBook_find n (book w) = Some record ->
  add_birthday [n; b] w
  = (Return (VStr (colored_output
                     (name_str (name record) ++ "'s birthday on " ++ b
                      ++ " added"))),
     mk_World (dict_set n (set_birthday record (BStr b)) (book w))
              (next_id w)).
Proof.
  intros F. unfold add_birthday, input_error, add_birthday_body.
  unfold_monad. cbn [unpack2]. unfold AddressBook_find in F. rewrite F.
  reflexivity.
Qed.

Lemma show_birthday_found (w : World) (n : string) (rest : list string)
    (record : ContactRecord) :
  AddressBook_find n (book w) = Some record ->
  show_birthday (n :: rest) w
  = (Return (VStr (colored_output
                     (name_str (name record) ++ " has Birthday on "
                      ++ birthday_str (birthday record)))), w).
Proof.
  intros F. unfold show_birthday, input_error, show_birthday_body.
  unfold_monad. cbn [unpack_first]. unfold AddressBook_find in F.
  rewrite F. reflexivity.
Qed.

(** X12.  After [add-birthday n b] on a contact that exists,
    [show-birthday n] shows the text [b] as it was given; a second
    [add-birthday] replaces the birthday without a word, and phones and
    name stay as they were.  Before any [add-birthday], the birthday
    shown for the contact is the text None. *)
Theorem add_birthday_then_show :
  forall (w : World) (n b b2 : string) (record : ContactRecord),
    AddressBook_find n (book w) = Some record ->
    let w1 := snd (add_birthday [n; b] w) in
    let w2 := snd (add_birthday [n; b2] w1) in
    fst (show_birthday [n] w1)
    = Return (VStr (colored_output
                      (name_str (name record) ++ " has Birthday on " ++ b)))
    /\ AddressBook_find n (book w2)
       = Some (mk_Record (name record) (phones record) (BStr b2))
    /\ (birthday record = BNone ->
        fst (show_birthday [n] w)
        = Return (VStr (colored_output
                          (name_str (name record)
                           ++ " has Birthday on None")))).
Proof.
  intros w n b b2 record F w1 w2.
  assert (F1 : AddressBook_find n (book w1)
               = Some (set_birthday record (BStr b))).
  { subst w1. rewrite (add_birthday_found w n b record F).
    apply dict_get_set_same. }
  split; [|split].
  - now rewrite (show_birthday_found w1 n [] _ F1).
  - subst w2. rewrite (add_birthday_found w1 n b2 _ F1).
    apply dict_get_set_same.
  - intros B. rewrite (show_birthday_found w n [] record F), B. reflexivity.
Qed.

Lemma add_birthday_then_show_example :
  let w := mk_World [("Bob", mk_Record (NStr "Bob") [] BNone)] 0 in
  fst (show_birthday ["Bob"] (snd (add_birthday ["Bob"; "15.06.1990"] w)))
  = Return (VStr (colored_output "Bob has Birthday on 15.06.1990"))
  /\ fst (show_birthday ["Bob"] w)
     = Return (VStr (colored_output "Bob has Birthday on None")).
Proof.
  intros w.
  destruct (add_birthday_then_show w "Bob" "15.06.1990" "01.01.2000"
              (mk_Record (NStr "Bob") [] BNone) eq_refl) as (H1 & _ & H3).
  split; [exact H1 | exact (H3 eq_refl)].
Defined.

Lemma upcoming_loop_field_first (today : date) (c : ContactRecord)
    (f : Birthday) (after : list ContactRecord) :
  birthday c = BField f ->
  forall (before : list ContactRecord) (acc : list congrats),
    forallb (fun c' => birthday_usable today (birthday c')) before = true ->
    upcoming_loop today acc (before ++ c :: after)
    = Raise (mk_exn TypeError
               "strptime() argument 1 must be str, not Birthday").
Proof.
  intros B. induction before as [|c0 rest IH]; intros acc U.
  - cbn [app upcoming_loop].
    now rewrite (upcoming_step_field today acc c f B).
  - cbn [forallb] in U. apply andb_true_iff in U. destruct U as [U0 Ur].
    cbn [app upcoming_loop].
    rewrite (upcoming_step_usable today acc c0 U0). cbn [rbind].
    apply (IH _ Ur).
Qed.

(** X13.  On a book that is not empty and whose birthdays are all
    usable, [birthdays] prints "No birthdays soon." when no contact
    qualifies and otherwise one line "name: DD.MM.YYYY" for each
    qualifying contact, in the order of the book.  When the first
    contact whose birthday is not usable holds a [Birthday] field, it
    prints the text for unexpected errors with the message of the
    [TypeError], and lists nobody. *)
Theorem show_all_birthdays_text :
  forall (today : date) (w : World),
    book w <> [] ->
    (usable_book today (book w) = true ->
     show_all_birthdays today w
     = (Return (VStr (colored_output
                        (birthdays_text
                           (claimed_upcoming today (dict_values (book w)))))),
        w))
    /\ (forall before c f after,
           dict_values (book w) = (before ++ c :: after)%list ->
           birthday c = BField f ->
           forallb (fun c' => birthday_usable today (birthday c')) before
           = true ->
           show_all_birthdays today w
           = (Return (VStr ("An unexpected error occurred: "
                            ++ "strptime() argument 1 must be str, not Birthday"
                            ++ ". Please try again.")), w)).
Proof.
  intros today w Hne. split.
  - intros U. unfold show_all_birthdays, input_error,
      show_all_birthdays_body. unfold_monad.
    destruct (book w) as [|p a] eqn:B; [congruence|].
    unfold AddressBook_get_upcoming_birthdays.
    unfold usable_book in U.
    rewrite (upcoming_loop_usable today (dict_values (p :: a)) [] U).
    cbn [rbind app].
    destruct (claimed_upcoming today (dict_values (p :: a))); reflexivity.
  - intros before c f after Hv Bf U.
    unfold show_all_birthdays, input_error, show_all_birthdays_body.
    unfold_monad.
    destruct (book w) as [|p a] eqn:B; [congruence|].
    unfold AddressBook_get_upcoming_birthdays. rewrite Hv.
    rewrite (upcoming_loop_field_first today c f after Bf before [] U).
    reflexivity.
Qed.

Lemma show_all_birthdays_text_example :
  let today := mk_date 2024 6 10 in
  let bob := mk_Record (NStr "Bob") [] (BStr "15.06.1990") in
  let al := mk_Record (NStr "Al") [] (BStr "12.06.1990") in
  let eve := mk_Record (NStr "Eve") [] (BStr "01.06.1990") in
  let w := mk_World [("Bob", bob); ("Al", al); ("Eve", eve)] 0 in
  fst (show_all_birthdays today w)
  = Return (VStr (colored_output
                    ("Bob: 17.06.2024" ++ String LF "Al: 12.06.2024"))).
Proof.
  intros today bob al eve w.
  destruct (show_all_birthdays_text today w ltac:(discriminate)) as [H _].
  rewrite (H eq_refl). reflexivity.
Defined.

(** ** More on [class Record] *)

Lemma find_phone_from_result (all : list Phone) (phone : phone_arg)
    (rest : list Phone) :
  (forall p, In p rest -> In p all) ->
  (find_phone_from all rest phone = FoundNone
   /\ forall p, In p rest -> Phone_eq p phone = false)
  \/ exists p,
       find_phone_from all rest phone = Found p
       /\ In p rest /\ Phone_eq p phone = true.
Proof.
  induction rest as [|p rest IH]; intros Hsub; cbn.
  - left. split; [reflexivity|]. intros p [].
  - destruct (Phone_eq p phone) eqn:E.
    + right. exists p. repeat split; trivial. now left.
    + rewrite (Phone_in_self p all) by (apply Hsub; now left). cbn.
      destruct IH as [[H1 H2] | (q & H1 & H2 & H3)].
      * intros q Hq. apply Hsub. now right.
      * left. split; [exact H1|]. intros q [<- | Hq]; [exact E|now apply H2].
      * right. exists q. repeat split; trivial. now right.
Qed.

(** X16.  [find_phone] never returns the text of its [elif] branch: it
    returns a stored phone when one of the stored objects is the very
    object passed (the first such), and [None] in every other case, also
    when a stored phone has the digits asked for. *)
Theorem Record_find_phone_results :
  forall (r : ContactRecord) (phone : phone_arg),
    (Record_find_phone phone r = FoundNone
     /\ forall p, In p (phones r) -> Phone_eq p phone = false)
    \/ exists p,
         Record_find_phone phone r = Found p
         /\ In p (phones r) /\ Phone_eq p phone = true.
Proof.
  intros r phone. unfold Record_find_phone.
  apply find_phone_from_result. trivial.
Qed.

Lemma filter_none {A : Type} (f : A -> bool) (l : list A) :
  (forall x, In x l -> f x = false) -> filter f l = [].
Proof.
  induction l as [|x l IH]; intros H; cbn; [reflexivity|].
  rewrite (H x) by now left. apply IH. intros y Hy. apply H. now right.
Qed.

Lemma filter_one (p : Phone) (l : list Phone) :
  NoDup (map phone_id l) -> In p l ->
  filter (fun q => Phone_eq q (ArgPhone p)) l = [p].
Proof.
  induction l as [|q l IH]; intros ND Hin; [destruct Hin|].
  cbn [map] in ND. inversion ND as [|? ? Hnin ND']; subst.
  cbn [filter Phone_eq]. destruct Hin as [-> | Hin].
  - rewrite Nat.eqb_refl. f_equal. apply filter_none.
    intros x Hx. cbn. apply Nat.eqb_neq. intros E. apply Hnin.
    rewrite <- E. now apply in_map.
  - replace (Nat.eqb (phone_id q) (phone_id p)) with false.
    + now apply IH.
    + symmetry. apply Nat.eqb_neq. intros E. apply Hnin.
      rewrite E. now apply in_map.
Qed.

(** X17.  [remove_phone] keeps what it is asked to remove and removes the
    rest: called with one of the stored objects (all of them distinct) it
    leaves that phone alone in the list; called with a [str], or with a
    [Phone] that is not stored, it empties the list.  In each case it
    reports the phone as deleted, and name and birthday stay. *)
Theorem Record_remove_phone_keeps_match :
  forall (r : ContactRecord) (p : Phone),
    NoDup (map phone_id (phones r)) ->
    (In p (phones r) ->
     phones (snd (Record_remove_phone (ArgPhone p) r)) = [p])
    /\ ((forall q, In q (phones r) -> phone_id q <> phone_id p) ->
        phones (snd (Record_remove_phone (ArgPhone p) r)) = [])
    /\ (forall s, phones (snd (Record_remove_phone (ArgStr s) r)) = [])
    /\ (forall a,
           fst (Record_remove_phone a r)
           = "Phone " ++ phone_arg_str a ++ " deleted"
           /\ name (snd (Record_remove_phone a r)) = name r
           /\ birthday (snd (Record_remove_phone a r)) = birthday r).
Proof.
  intros r p ND. cbn. split; [|split; [|split]].
  - intros Hin. now apply filter_one.
  - intros H. apply filter_none. intros q Hq. apply Nat.eqb_neq.
    now apply H.
  - intros s. now apply filter_none.
  - intros a. repeat split.
Qed.

Lemma Record_remove_phone_example :
  let p1 := mk_Phone 1 "1111111111" in
  let p2 := mk_Phone 2 "2222222222" in
  let r := mk_Record (NStr "Bob") [p1; p2] BNone in
  NoDup (map phone_id (phones r))
  /\ phones (snd (Record_remove_phone (ArgPhone p1) r)) = [p1]
  /\ phones (snd (Record_remove_phone (ArgStr "1111111111") r)) = [].
Proof.
  intros p1 p2 r.
  assert (ND : NoDup (map phone_id (phones r))).
  { repeat constructor; cbn; intuition discriminate. }
  destruct (Record_remove_phone_keeps_match r p1 ND) as (H1 & _ & H3 & _).
  split; [exact ND|]. split; [apply H1; now left | apply H3].
Defined.

Lemma list_set_length {A : Type} (x : A) (l : list A) :
  forall i, List.length (list_set i x l) = List.length l.
Proof.
  induction l as [|h t IH]; intros [|i]; cbn; auto.
Qed.

Lemma append_inj_l (a x y : string) : a ++ x = a ++ y -> x = y.
Proof.
  induction a as [|c a IH]; cbn; [trivial|]. intros [= H]. now apply IH.
Qed.

Lemma edit_phone_from_keeps (oid : nat) (old new : string)
    (rest : list Phone) :
  forall (index : nat) (r : ContactRecord),
    let out := edit_phone_from oid old new index rest r in
    name (snd out) = name r
    /\ birthday (snd out) = birthday r
    /\ List.length (phones (snd out)) = List.length (phones r)
    /\ (forall e, fst out = Raise e ->
                  snd out = r /\ exn_cls e = ValueError)
    /\ (fst out = Return ("Phone " ++ old ++ " not found") -> snd out = r).
Proof.
  induction rest as [|p rest IH]; intros index r; cbn.
  - split; [|split; [|split; [|split]]]; trivial. discriminate.
  - destruct (String.eqb (phone_value p) old); [|apply IH].
    unfold Phone_init. destruct (re_match phone_pattern new); cbn.
    + split; [|split; [|split; [|split]]]; trivial.
      * apply list_set_length.
      * discriminate.
      * intros H. injection H as H. exfalso.
        apply append_inj_l in H. cbn in H. congruence.
    + split; [|split; [|split; [|split]]]; trivial.
      intros e' [= <-]. split; reflexivity.
Qed.

(** X18.  Whatever its outcome, [edit_phone] keeps the name, the
    birthday and the number of phones of the record; when it raises (the
    [ValueError] of an invalid new phone) or reports the old phone as not
    found, the record is exactly as before. *)
Theorem Record_edit_phone_keeps :
  forall (oid : nat) (old new : string) (r : ContactRecord),
    let out := Record_edit_phone oid old new r in
    name (snd out) = name r
    /\ birthday (snd out) = birthday r
    /\ List.length (phones (snd out)) = List.length (phones r)
    /\ (forall e, fst out = Raise e ->
                  snd out = r /\ exn_cls e = ValueError)
    /\ (fst out = Return ("Phone " ++ old ++ " not found") -> snd out = r).
Proof.
  intros oid old new r. unfold Record_edit_phone.
  apply edit_phone_from_keeps.
Qed.

(** ** The decorator *)

(** X19.  [input_error] passes on a returned value as it is, never
    touches the state, and applying it twice is the same as applying it
    once: what it lets through (an exception that does not derive from
    [Exception]) it lets through again. *)
Theorem input_error_idempotent :
  forall (func : M value) (w : World),
    input_error (input_error func) w = input_error func w
    /\ snd (input_error func w) = snd (func w)
    /\ (forall v, fst (func w) = Return v ->
                  fst (input_error func w) = Return v).
Proof.
  intros func w. split; [|split].
  - unfold input_error. destruct (func w) as [[v|e] w']; [reflexivity|].
    destruct e as [[] msg]; reflexivity.
  - apply input_error_state.
  - intros v. unfold input_error.
    destruct (func w) as [[v'|e] w']; cbn; [trivial|discriminate].
Qed.

(** ** The field [Birthday] and the format of the birthdays *)

Lemma drop_zeros_digits (a b c d : ascii) :
  is_digit a = true ->
  let year_text := String a (String b (String c (String d EmptyString))) in
  (1 <= digit_value a -> drop_zeros year_text = year_text)
  /\ (digit_value a < 1 ->
      (String.length (drop_zeros year_text) <= 3)%nat).
Proof.
  intros H year_text. subst year_text.
  digit_cases H; split; intros K;
    try reflexivity; try (exfalso; cbn in K; lia).
  change (drop_zeros (String "0" (String b (String c (String d EmptyString)))))
    with (drop_zeros (String b (String c (String d EmptyString)))).
  pose proof (drop_zeros_length (String b (String c (String d EmptyString))))
    as L.
  cbn [String.length] in L. exact L.
Qed.

(** X20.  A [Birthday] that was constructed holds a date of the
    calendar, which is the date [strptime] reads from the text it was
    constructed from, and the text is that date written with two digits
    for the day, two for the month and four for the year.  For a year
    from 1000 on this is what [strftime] writes for the date with the
    format [%d.%m.%Y], the one [get_upcoming_birthdays] reads and writes;
    for an earlier year [strftime] leaves out the leading zeros of the
    year and does not give the text back. *)
Theorem Birthday_init_holds_date :
  forall (s : string) (b : Birthday),
    Birthday_init s = Return b ->
    valid (birthday_value b) = true
    /\ strptime_dmY s = Return (birthday_value b)
    /\ s = zpad 2 (day (birthday_value b)) ++ "."
           ++ zpad 2 (month (birthday_value b)) ++ "."
           ++ zpad 4 (year (birthday_value b))
    /\ (1000 <= year (birthday_value b) ->
        strftime_dmY (birthday_value b) = s)
    /\ (year (birthday_value b) < 1000 ->
        strftime_dmY (birthday_value b) <> s).
Proof.
  intros s b H. unfold Birthday_init in H.
  destruct (re_match birthday_pattern s) eqn:E; [|discriminate].
  destruct (strptime_dmY s) as [dt|] eqn:P; [|discriminate].
  injection H as <-. cbn [birthday_value].
  apply re_match_birthday_pattern in E.
  destruct E as [[[[d m] y] F] | E].
  - apply dmy_fields_inv in F.
    destruct F as (d1 & d2 & m1 & m2 & y1 & y2 & y3 & y4 & -> & Hd1 & Hd2
                   & Hm1 & Hm2 & Hy1 & Hy2 & Hy3 & Hy4 & -> & -> & ->).
    destruct (strptime_dmY_text d1 d2 m1 m2 y1 y2 y3 y4
                Hd1 Hd2 Hm1 Hm2 Hy1 Hy2 Hy3 Hy4) as [Hok Hko].
    match type of Hok with
    | valid ?x = true -> _ => destruct (valid x) eqn:V
    end.
    + pose proof (Hok eq_refl) as Q.
      match type of Q with
      | _ = Return ?x => assert (Hdt : x = dt) by congruence
      end.
      subst dt. split; [exact V|]. split; [reflexivity|].
      pose proof (digit_value_range y1 Hy1) as R1.
      pose proof (digit_value_range y2 Hy2) as R2.
      pose proof (digit_value_range y3 Hy3) as R3.
      pose proof (digit_value_range y4 Hy4) as R4.
      destruct (drop_zeros_digits y1 y2 y3 y4 Hy1) as [Hlong Hshort].
      unfold strftime_dmY. cbn [year month day].
      rewrite zpad_4, !zpad_2 by assumption.
      split; [reflexivity|]. split.
      * intros Hy. rewrite Hlong by lia. reflexivity.
      * intros Hy Heq. apply (f_equal String.length) in Heq.
        cbn [dmy_text append String.length] in Heq.
        specialize (Hshort ltac:(lia)). lia.
    + destruct (Hko eq_refl) as [e He]. congruence.
  - destruct E as (d1 & d2 & m1 & m2 & y1 & y2 & y3 & y4 & -> & Hd1 & Hd2
                   & Hm1 & Hm2 & Hy1 & Hy2 & Hy3 & Hy4).
    destruct (strptime_dmY_trailing d1 d2 m1 m2 y1 y2 y3 y4
                Hd1 Hd2 Hm1 Hm2 Hy1 Hy2 Hy3 Hy4) as [e He].
    congruence.
Qed.

Lemma Birthday_init_holds_date_example :
  (Birthday_init "29.02.2024" = Return (mk_Birthday (mk_date 2024 2 29))
   /\ strftime_dmY (mk_date 2024 2 29) = "29.02.2024")
  /\ (Birthday_init "15.06.0999" = Return (mk_Birthday (mk_date 999 6 15))
      /\ strftime_dmY (mk_date 999 6 15) = "15.06.999"
      /\ strftime_dmY (mk_date 999 6 15) <> "15.06.0999").
Proof.
  split.
  - split; [reflexivity|].
    destruct (Birthday_init_holds_date "29.02.2024"
                (mk_Birthday (mk_date 2024 2 29)) eq_refl)
      as (_ & _ & _ & H & _).
    apply H. cbn. lia.
  - split; [reflexivity|]. split; [reflexivity|].
    destruct (Birthday_init_holds_date "15.06.0999"
                (mk_Birthday (mk_date 999 6 15)) eq_refl)
      as (_ & _ & _ & _ & H).
    apply H. cbn. lia.
Defined.

(** ** Leaving the loop *)

Lemma main_turn_exit (today : date) (user_input : string) (w : World) :
  is_exit_line user_input = true ->
  main_turn today user_input w
  = (Return (Break, colored_info ("Good bye!" ++ Fore.RESET)), w).
Proof.
  unfold main_turn, is_exit_line. rewrite bind_lift.
  destruct (parse_input user_input) as [[|command args]|e];
    try discriminate.
  intros ->. reflexivity.
Qed.

(** X21.  The loop of [main] stops at the first line whose command is
    [close] or [exit]: the book saved is the book as the lines before
    left it, the farewell is the last text printed, and the lines after
    are not read.  The state [w'] and the texts [out'] are those the
    lines before lead to: a run over them alone answers each of them and
    ends there, with the [EOFError] of [input()]. *)
Theorem main_loop_stops_at_exit :
  forall (before : list event) (ev : event) (after : list event)
         (w : World) (out : list string),
    Forall (fun e => is_exit_line (ev_line e) = false) before ->
    is_exit_line (ev_line ev) = true ->
    exists w' out',
      main_loop before w out = Crashed input_at_end w' out'
      /\ main_loop (before ++ ev :: after) w out
         = Finished (book w')
             (out' ++ [colored_info ("Good bye!" ++ Fore.RESET)])%list.
Proof.
  induction before as [|e0 before IH]; intros ev after w out Hb He.
  - exists w, out. split; [reflexivity|].
    cbn [app main_loop]. now rewrite (main_turn_exit _ _ w He).
  - inversion Hb as [|? ? H0 Hb']; subst.
    cbn [app main_loop].
    destruct (main_turn_returns (ev_today e0) (ev_line e0) w)
      as (text & w1 & E).
    rewrite H0 in E. rewrite E.
    apply (IH ev after w1 _ Hb' He).
Qed.

Lemma main_loop_stops_at_exit_example :
  let today := mk_date 2024 6 10 in
  main (mk_World [] 0)
    (map (mk_event today) ["add Bob 1234567890"; "exit"; "add Al 0987654321"])
  = Finished
      [("Bob", mk_Record (NStr "Bob") [mk_Phone 0 "1234567890"] BNone)]
      ["Welcome to the assistant bot!";
       colored_output "Contact Bob added to address book.";
       colored_info ("Good bye!" ++ Fore.RESET)].
Proof.
  intros today. unfold main.
  destruct (main_loop_stops_at_exit
              [mk_event today "add Bob 1234567890"] (mk_event today "exit")
              [mk_event today "add Al 0987654321"] (mk_World [] 0)
              ["Welcome to the assistant bot!"])
    as (w' & out' & H1 & H2).
  - repeat constructor.
  - reflexivity.
  - cbn [map app] in *. rewrite H2.
    vm_compute in H1. injection H1 as <- <-. reflexivity.
Defined.

(** ** What the command line can store *)

Lemma no_space_line_feed (t : string) :
  no_space (t ++ String LF EmptyString) = false.
Proof.
  unfold no_space. rewrite list_ascii_app, forallb_app. cbn.
  apply andb_false_r.
Qed.

Lemma token_phone (s : string) :
  is_token s = true -> re_match phone_pattern s = true ->
  ten_digits s = true.
Proof.
  intros T R. apply re_match_phone_pattern in R.
  destruct R as [R | (t & -> & _)]; [exact R|].
  unfold is_token in T. rewrite no_space_line_feed, andb_false_r in T.
  discriminate T.
Qed.

Lemma cli_book_set (k : string) (v : ContactRecord) (b : AddressBook) :
  cli_book b -> cli_entry k v -> cli_book (dict_set k v b).
Proof.
  intros Hb Hv k0 v0 Hin. apply dict_set_In in Hin.
  destruct Hin as [Hin | [= -> ->]]; [now apply Hb | exact Hv].
Qed.

Lemma cli_book_get (k : string) (v : ContactRecord) (b : AddressBook) :
  cli_book b -> dict_get k b = Some v -> cli_entry k v.
Proof. intros Hb G. apply Hb. now apply dict_get_In. Qed.

Lemma Forall_list_set {A : Type} (P : A -> Prop) (x : A) (l : list A) :
  Forall P l -> P x -> forall i, Forall P (list_set i x l).
Proof.
  intros Hl Hx. induction Hl as [|h t Hh Ht IH]; intros [|i]; cbn;
    constructor; auto.
Qed.

Lemma edit_phone_from_cli (oid : nat) (old new : string) (k : string)
    (rest : list Phone) :
  is_token new = true ->
  forall (index : nat) (r : ContactRecord),
    cli_entry k r ->
    cli_entry k (snd (edit_phone_from oid old new index rest r)).
Proof.
  intros T. induction rest as [|p rest IH]; intros index r C;
    cbn [edit_phone_from]; [exact C|].
  destruct (String.eqb (phone_value p) old); [|now apply IH].
  unfold Phone_init. destruct (re_match phone_pattern new) eqn:R;
    cbn [snd]; [|exact C].
  destruct C as (Cn & Cp & Cb). repeat split; trivial.
  cbn [phones set_phones]. apply Forall_list_set; [exact Cp|].
  cbn [phone_value]. now apply token_phone.
Qed.

Lemma Phone_init_Return (oid : nat) (s : string) (p : Phone) :
  Phone_init oid s = Return p ->
  p = mk_Phone oid s /\ re_match phone_pattern s = true.
Proof.
  unfold Phone_init. destruct (re_match phone_pattern s); [|discriminate].
  intros [= <-]. now split.
Qed.

Lemma add_contact_cli (args : list string) (w : World) :
  Forall (fun t => is_token t = true) args ->
  cli_book (book w) -> cli_book (book (snd (add_contact args w))).
Proof.
  intros T K. unfold add_contact. rewrite input_error_state.
  unfold add_contact_body. unfold_monad.
  destruct args as [|n [|phone [|x rest]]]; cbn; try exact K.
  inversion T as [|? ? Tn T']; subst. inversion T' as [|? ? Tp _]; subst.
  assert (Hnew : cli_entry n (Record_init (NStr n))).
  { repeat split; [constructor | now left]. }
  assert (Hadd : forall r p,
             cli_entry n r -> Phone_init (next_id w) phone = Return p ->
             cli_entry n (set_phones r (phones r ++ [p]))).
  { intros r p (Cn & Cp & Cb) P. apply Phone_init_Return in P.
    destruct P as [-> R]. repeat split; trivial.
    cbn [phones set_phones]. apply Forall_app. split; [exact Cp|].
    constructor; [|constructor]. cbn. now apply token_phone. }
  destruct (dict_get n (book w)) as [record|] eqn:G; cbn;
    destruct (nonempty phone); cbn.
  - destruct (Phone_init (next_id w) phone) as [p|e] eqn:P; cbn;
      [|exact K].
    apply cli_book_set; [exact K|]. apply (Hadd record p); [|reflexivity].
    now apply cli_book_get with (b := book w).
  - exact K.
  - destruct (Phone_init (next_id w) phone) as [p|e] eqn:P; cbn.
    + apply cli_book_set; [now apply cli_book_set|].
      exact (Hadd (Record_init (NStr n)) p Hnew eq_refl).
    + now apply cli_book_set.
  - now apply cli_book_set.
Qed.

Lemma change_contact_cli (args : list string) (w : World) :
  Forall (fun t => is_token t = true) args ->
  cli_book (book w) -> cli_book (book (snd (change_contact args w))).
Proof.
  intros T K. unfold change_contact. rewrite input_error_state.
  unfold change_contact_body. unfold_monad.
  destruct args as [|n [|old [|new [|x rest]]]]; cbn; try exact K.
  inversion T as [|? ? _ T1]; subst. inversion T1 as [|? ? _ T2]; subst.
  inversion T2 as [|? ? Tnew _]; subst.
  destruct (dict_get n (book w)) as [record|] eqn:G; cbn; [|exact K].
  pose proof (edit_phone_from_cli (next_id w) old new n (phones record)
                Tnew 0%nat record
                (cli_book_get n record (book w) K G)) as C.
  unfold Record_edit_phone.
  destruct (edit_phone_from (next_id w) old new 0 (phones record) record)
    as [[t|e] r']; cbn in C |- *; now apply cli_book_set.
Qed.

Lemma add_birthday_cli (args : list string) (w : World) :
  Forall (fun t => is_token t = true) args ->
  cli_book (book w) -> cli_book (book (snd (add_birthday args w))).
Proof.
  intros T K. unfold add_birthday. rewrite input_error_state.
  unfold add_birthday_body. unfold_monad.
  destruct args as [|n [|b [|x rest]]]; cbn; try exact K.
  inversion T as [|? ? _ T1]; subst. inversion T1 as [|? ? Tb _]; subst.
  destruct (dict_get n (book w)) as [record|] eqn:G; cbn; [|exact K].
  apply cli_book_set; [exact K|].
  destruct (cli_book_get n record (book w) K G) as (Cn & Cp & _).
  repeat split; trivial. right. exists b. now split.
Qed.

(** X22.  In every state the loop of [main] goes through from an empty
    book, each record is stored under its name, which is a [str]; each of
    its phones is a text of exactly ten digits; and its birthday is unset
    or a non-empty text without white space, never a [Birthday] field. *)
Theorem cli_reachable_entries :
  forall w : World,
    cli_reachable w ->
    forall (k : string) (r : ContactRecord),
      In (k, r) (book w) ->
      name r = NStr k
      /\ Forall (fun p => ten_digits (phone_value p) = true) (phones r)
      /\ (birthday r = BNone
          \/ exists s, birthday r = BStr s /\ is_token s = true).
Proof.
  intros w R. change (cli_book (book w)).
  induction R as [n | w today line R IH].
  - intros k r [].
  - destruct (main_turn_state today line w)
      as [-> | (_ & args & T & [-> | [-> | ->]])].
    + exact IH.
    + now apply add_contact_cli.
    + now apply change_contact_cli.
    + now apply add_birthday_cli.
Qed.

Lemma cli_reachable_entries_example :
  let today := mk_date 2024 6 10 in
  let w1 := snd (main_turn today "add Bob 1234567890" (mk_World [] 0)) in
  let w2 := snd (main_turn today "add-birthday Bob 15.06.1990" w1) in
  let bob := mk_Record (NStr "Bob") [mk_Phone 0 "1234567890"]
                       (BStr "15.06.1990") in
  cli_reachable w2 /\ In ("Bob", bob) (book w2)
  /\ Forall (fun p => ten_digits (phone_value p) = true) (phones bob).
Proof.
  intros today w1 w2 bob.
  assert (R : cli_reachable w2) by (do 2 apply cli_turn; apply cli_start).
  assert (I : In ("Bob", bob) (book w2)) by (left; reflexivity).
  split; [exact R|]. split; [exact I|].
  exact (proj1 (proj2 (cli_reachable_entries w2 R "Bob" bob I))).
Defined.

(** ** From the line to the book and back *)

Lemma is_digit_not_space (c : ascii) :
  is_digit c = true -> is_space c = false.
Proof. intros H. digit_cases H; reflexivity. Qed.

Lemma all_digits_no_space (s : string) :
  all_digits s = true -> no_space s = true.
Proof.
  unfold no_space. induction s as [|c s IH]; [reflexivity|]. cbn.
  intros H. apply andb_true_iff in H. destruct H as [Hc Hs].
  rewrite (is_digit_not_space c Hc). cbn. now apply IH.
Qed.

Lemma ten_digits_token (s : string) :
  ten_digits s = true -> is_token s = true.
Proof.
  unfold ten_digits, is_token. intros H.
  apply andb_true_iff in H. destruct H as [Hl Hd].
  rewrite (all_digits_no_space s Hd), andb_true_r.
  destruct s; [discriminate Hl|reflexivity].
Qed.

Lemma parse_input_words_of (cmd : string) (args : list string) :
  Forall (fun t => is_token t = true) (cmd :: args) ->
  parse_input (join " " (cmd :: args)) = Return (Tokens (lower cmd) args).
Proof.
  intros T. rewrite parse_input_split. unfold split.
  rewrite (split_loop_join (cmd :: args) T) by discriminate.
  reflexivity.
Qed.

(** X23.  Through the loop of [main]: for a name that is a word and not
    yet in the book and a ten-digit text, the line "add name phone"
    prints that the contact was added and puts the record last in the
    book, with that one phone and no birthday; the line "phone name"
    that follows prints that phone and changes nothing; the loop then
    goes on with the lines that remain. *)
Theorem add_then_phone_lines :
  forall (today : date) (n p : string) (w : World) (out : list string)
         (rest : list event),
    is_token n = true ->
    ten_digits p = true ->
    AddressBook_find n (book w) = None ->
    main_loop
      (mk_event today ("add " ++ n ++ " " ++ p)
       :: mk_event today ("phone " ++ n) :: rest) w out
    = main_loop rest
        (mk_World
           (book w
            ++ [(n, mk_Record (NStr n) [mk_Phone (next_id w) p] BNone)])%list
           (S (next_id w)))
        (out
         ++ [colored_output ("Contact " ++ n ++ " added to address book.");
             colored_output ("Contact '" ++ n ++ "' phones: " ++ p)])%list.
Proof.
  intros today n p w out rest Tn Tp F.
  assert (P1 : parse_input ("add " ++ n ++ " " ++ p)
               = Return (Tokens "add" [n; p])).
  { apply (parse_input_words_of "add" [n; p]).
    repeat constructor; trivial. now apply ten_digits_token. }
  assert (P2 : parse_input ("phone " ++ n) = Return (Tokens "phone" [n])).
  { apply (parse_input_words_of "phone" [n]). repeat constructor; trivial. }
  assert (A : add_contact [n; p] w
              = (Return (VStr (colored_output
                                 ("Contact " ++ n
                                  ++ " added to address book."))),
                 mk_World
                   (book w
                    ++ [(n, mk_Record (NStr n) [mk_Phone (next_id w) p]
                                      BNone)])%list
                   (S (next_id w)))).
  { rewrite (add_contact_valid w n p Tp). unfold record_or_new.
    rewrite F. rewrite dict_set_set.
    unfold AddressBook_find in F. rewrite (dict_set_absent _ _ _ F).
    reflexivity. }
  set (w1 := mk_World
               (book w
                ++ [(n, mk_Record (NStr n) [mk_Phone (next_id w) p]
                                  BNone)])%list
               (S (next_id w))) in *.
  assert (G : dict_get n (book w1)
              = Some (mk_Record (NStr n) [mk_Phone (next_id w) p] BNone)).
  { subst w1. cbn [book]. unfold AddressBook_find in F.
    rewrite <- (dict_set_absent n _ (book w) F). apply dict_get_set_same. }
  cbn [main_loop ev_today ev_line].
  unfold main_turn at 1. rewrite P1. rewrite bind_lift. cbn iota.
  change (String.eqb "add" "close" || String.eqb "add" "exit") with false.
  change (String.eqb "add" "hello") with false.
  change (String.eqb "add" "info") with false.
  change (String.eqb "add" "add") with true. cbn iota.
  unfold bind at 1. rewrite A. cbn [ret value_str].
  unfold main_turn at 1. rewrite P2. rewrite bind_lift. cbn iota.
  change (String.eqb "phone" "close" || String.eqb "phone" "exit")
    with false.
  change (String.eqb "phone" "hello") with false.
  change (String.eqb "phone" "info") with false.
  change (String.eqb "phone" "add") with false.
  change (String.eqb "phone" "change") with false.
  change (String.eqb "phone" "phone") with true. cbn iota.
  unfold bind at 1, show_phone, input_error, show_phone_body.
  unfold_monad. rewrite G. cbn [ret value_str phones map join Phone_str
                                 phone_value].
  rewrite <- app_assoc. reflexivity.
Qed.

Lemma add_then_phone_lines_example :
  main_loop
    [mk_event (mk_date 2024 6 10) "add Bob 1234567890";
     mk_event (mk_date 2024 6 10) "phone Bob"] (mk_World [] 0) []
  = Crashed input_at_end
      (mk_World
         [("Bob", mk_Record (NStr "Bob") [mk_Phone 0 "1234567890"] BNone)] 1)
      [colored_output "Contact Bob added to address book.";
       colored_output "Contact 'Bob' phones: 1234567890"].
Proof.
  exact (add_then_phone_lines (mk_date 2024 6 10) "Bob" "1234567890"
           (mk_World [] 0) [] [] eq_refl eq_refl eq_refl).
Defined.
